(** * Process lifecycle management of [scripts/start.py]

    A shallow embedding of the supervisor script: the marker-file registry,
    graceful-then-forced termination, the pattern sweep, process start-up,
    log tailing and the signal handler, together with the properties the
    specification states about them.

    Conventions of the embedding.
    - Text is a [string] whose characters are code points below 256.
    - Time is counted in milliseconds on [Z]: [time.sleep(0.1)] is a sleep
      of 100, the default timeout [2.0] is 2000.
    - The operating system is an explicit [World]: a clock, a file system,
      and the answers the environment gives to each system call, indexed by
      the number of calls made so far, so that every sequence of answers
      can be represented.  Every effect is appended to a trace.
    - The clock never runs backwards, and a sleep lasts at least as long
      as asked; files change only through the script itself.
    - The tailer, which runs in threads next to the writers of the logs,
      is a machine of its own, interleaved statement by statement with
      what happens around it. *)

From Stdlib Require Import ZArith Ascii String List Lia Bool.
From Stdlib Require Import DecimalString DecimalZ DecimalN DecimalPos.
From stdpp Require Import gmap strings list.

Local Open Scope string_scope.
Local Open Scope list_scope.
Local Open Scope Z_scope.

(** ** Python text primitives: [str.strip], [int(str)], [str(int)] *)

Module PyText.

(** [str.isspace] on code points below 256. *)
Definition is_space (c : ascii) : bool :=
  let n := nat_of_ascii c in
  ((9 <=? n) && (n <=? 13) || (28 <=? n) && (n <=? 32)
   || (n =? 133) || (n =? 160))%nat.

(** Value of a decimal digit; the only decimal digits below code point 256
    are ["0"] to ["9"]. *)
Definition digit_val (c : ascii) : option Z :=
  let n := nat_of_ascii c in
  if ((48 <=? n) && (n <=? 57))%nat then Some (Z.of_nat (n - 48)) else None.

Fixpoint lstrip (s : string) : string :=
  match s with
  | EmptyString => EmptyString
  | String c s' => if is_space c then lstrip s' else s
  end.

Fixpoint rstrip (s : string) : string :=
  match s with
  | EmptyString => EmptyString
  | String c s' =>
      match rstrip s' with
      | EmptyString => if is_space c then EmptyString else String c EmptyString
      | r => String c r
      end
  end.

(** [s.strip()] *)
Definition strip (s : string) : string := rstrip (lstrip s).

(** The digit part of an integer literal: a non-empty run of digits in which
    single underscores may separate digits.  [prev] tells whether the
    previous character was a digit. *)
Fixpoint parse_digits (prev : bool) (acc : Z) (s : string) : option Z :=
  match s with
  | EmptyString => if prev then Some acc else None
  | String c s' =>
      match digit_val c with
      | Some d => parse_digits true (10 * acc + d) s'
      | None =>
          if Ascii.eqb c "_"%char && prev then parse_digits false acc s'
          else None
      end
  end.

(** [int(s)] in base ten; [None] stands for [ValueError]. *)
Definition py_int (s : string) : option Z :=
  match strip s with
  | String "+"%char r => parse_digits false 0 r
  | String "-"%char r => Z.opp <$> parse_digits false 0 r
  | t => parse_digits false 0 t
  end.

(** [str(n)] for an integer [n]. *)
Definition py_str (n : Z) : string := NilZero.string_of_int (Z.to_int n).

(** [token.isdigit()] on code points below 256: non-empty, and every
    character is a digit (the superscripts 178, 179 and 185 are digits for
    [isdigit] although [int] rejects them). *)
Definition is_digit_char (c : ascii) : bool :=
  let n := nat_of_ascii c in
  ((48 <=? n) && (n <=? 57) || (n =? 178) || (n =? 179) || (n =? 185))%nat.

Fixpoint all_digit_chars (s : string) : bool :=
  match s with
  | EmptyString => true
  | String c s' => is_digit_char c && all_digit_chars s'
  end.

Definition isdigit (s : string) : bool :=
  match s with
  | EmptyString => false
  | _ => all_digit_chars s
  end.

(** [s.split()]: the maximal runs of non-whitespace characters. *)
Fixpoint split_ws_aux (cur : string) (s : string) : list string :=
  match s with
  | EmptyString => match cur with EmptyString => [] | _ => [cur] end
  | String c s' =>
      if is_space c
      then match cur with
           | EmptyString => split_ws_aux EmptyString s'
           | _ => cur :: split_ws_aux EmptyString s'
           end
      else split_ws_aux (cur +:+ String c EmptyString) s'
  end.

Definition split (s : string) : list string := split_ws_aux EmptyString s.

(** Line boundaries of [str.splitlines] below code point 256. *)
Definition is_linebreak (c : ascii) : bool :=
  let n := nat_of_ascii c in
  ((10 <=? n) && (n <=? 13) || (28 <=? n) && (n <=? 30) || (n =? 133))%nat.

(** [s.splitlines()]: a carriage return followed by a line feed is one
    boundary; no empty line is produced after the last boundary. *)
Fixpoint splitlines_aux (cur : string) (s : string) : list string :=
  match s with
  | EmptyString => match cur with EmptyString => [] | _ => [cur] end
  | String c s' =>
      if is_linebreak c then
        match s' with
        | String c2 s'' =>
            if Ascii.eqb c "013"%char && Ascii.eqb c2 "010"%char
            then cur :: splitlines_aux EmptyString s''
            else cur :: splitlines_aux EmptyString s'
        | EmptyString => [cur]
        end
      else splitlines_aux (cur +:+ String c EmptyString) s'
  end.

Definition splitlines (s : string) : list string :=
  splitlines_aux EmptyString s.

(** [s.split(sep, 1)] for a separator character known to occur in [s] is
    the pair returned here; [None] when the separator does not occur. *)
Fixpoint split_once (sep : ascii) (s : string) : option (string * string) :=
  match s with
  | EmptyString => None
  | String c s' =>
      if Ascii.eqb c sep then Some (EmptyString, s')
      else match split_once sep s' with
           | Some (k, v) => Some (String c k, v)
           | None => None
           end
  end.

(** Every character of [s] satisfies [P]. *)
Fixpoint all_chars (P : ascii -> bool) (s : string) : bool :=
  match s with
  | EmptyString => true
  | String c s' => P c && all_chars P s'
  end.

Definition is_ascii_digit (c : ascii) : bool :=
  match digit_val c with
  | Some _ => true
  | None => false
  end.

(** [sep.join(parts)] *)
Fixpoint join (sep : string) (parts : list string) : string :=
  match parts with
  | [] => EmptyString
  | [x] => x
  | x :: rest => x +:+ sep +:+ join sep rest
  end.

End PyText.

(** ** The operating system as seen by the script *)

Module OS.

(** The signals the script sends: [0] (liveness probe), [signal.SIGTERM]
    and [signal.SIGKILL]. *)
Inductive signal := SIG0 | SIGTERM | SIGKILL.

(** Exceptions.  [Diverged] is not a Python exception: it marks a wait loop
    cut off by the iteration bound of the embedding, and no handler catches
    it; [terminate_pid_finishes] shows that it never arises. *)
Inductive exn :=
| ProcessLookupError
| PermissionError
| FileNotFoundError
| OtherOSError
| ValueError
| KeyError
| CalledProcessError
| SystemExit (code : Z)
| Diverged.

(** What [os.kill(pid, sig)] can answer. *)
Inductive kill_answer :=
| KillOk          (* the signal was delivered *)
| KillNoProcess   (* ESRCH: ProcessLookupError *)
| KillDenied      (* EPERM: PermissionError *)
| KillFailed.     (* any other error *)

(** What running [pgrep -f pattern] can answer: the executable cannot be
    found, or it runs and exits with a status and some standard output. *)
Inductive pgrep_answer :=
| PgrepMissing
| PgrepExit (returncode : Z) (stdout : string).

(** What [subprocess.Popen] can answer. *)
Inductive popen_answer :=
| SpawnFailed
| Spawned (pid : Z).

(** Why a spawn fails: the program or the working directory is not there
    (ENOENT), the program may not be executed (EACCES), or any other error
    of the system. *)
Inductive spawn_error :=
| SpawnMissing
| SpawnDenied
| SpawnOther.

(** What [subprocess.Popen] raises for it. *)
Definition spawn_exn (e : spawn_error) : exn :=
  match e with
  | SpawnMissing => FileNotFoundError
  | SpawnDenied => PermissionError
  | SpawnOther => OtherOSError
  end.

(** What [waitpid(pid, WNOHANG)] can answer for a child. *)
Inductive waitpid_answer :=
| StillRunning
| Exited (status : Z).

(** One entry per effect, in the order the effects happen. *)
Inductive event :=
| EvKill (pid : Z) (sig : signal) (ans : kill_answer)
| EvTime (now : Z)
| EvSleep (ms : Z)
| EvPgrep (pattern : string) (ans : pgrep_answer)
| EvPopen (name : string) (cmd : list string) (ans : popen_answer)
| EvRun (cmd : list string) (ok : bool)
| EvWaitpid (pid : Z) (ans : waitpid_answer)
| EvTerminate (pid : Z)                 (* proc.terminate() *)
| EvPoll (pid : Z) (rc : option Z)      (* proc.poll() and its result *)
| EvForceKill (pid : Z)                 (* proc.kill() *)
| EvSetStop                             (* stop_event.set() *)
| EvWriteText (path : string) (content : string)
| EvUnlink (path : string)
| EvStderr (msg : string).

(** The environment of one run: the answer to each call is a function of
    the number of calls made before it and of the call's arguments.  [lag]
    is the time, in milliseconds, that a call takes beyond what it asks
    for. *)
Record Env := {
  lag : nat -> nat;
  kill_ans : nat -> Z -> signal -> kill_answer;
  pgrep_ans : nat -> string -> pgrep_answer;
  popen_ans : nat -> list string -> popen_answer;
  popen_err : nat -> list string -> spawn_error;   (* why, when it fails *)
  run_ans : nat -> list string -> bool;
  waitpid_ans : nat -> Z -> waitpid_answer;
}.

Record World := {
  env : Env;
  tick : nat;                    (* calls made so far *)
  clock : Z;                     (* milliseconds *)
  fs : gmap string string;       (* regular files: path to text *)
  stop_event : bool;             (* threading.Event *)
  returncode : gmap Z Z;         (* Popen.returncode once set, by pid *)
  trace : list event;
}.

Definition with_fs (f : gmap string string) (w : World) : World :=
  {| env := env w; tick := tick w; clock := clock w; fs := f;
     stop_event := stop_event w; returncode := returncode w; trace := trace w |}.

Definition with_stop (b : bool) (w : World) : World :=
  {| env := env w; tick := tick w; clock := clock w; fs := fs w;
     stop_event := b; returncode := returncode w; trace := trace w |}.

Definition with_returncode (r : gmap Z Z) (w : World) : World :=
  {| env := env w; tick := tick w; clock := clock w; fs := fs w;
     stop_event := stop_event w; returncode := r; trace := trace w |}.

(** Append an event to the trace. *)
Definition log (e : event) (w : World) : World :=
  {| env := env w; tick := tick w; clock := clock w; fs := fs w;
     stop_event := stop_event w; returncode := returncode w;
     trace := trace w ++ [e] |}.

(** One call into the environment: it is counted, and the clock advances by
    the time asked for ([ms]) plus the lag of this call. *)
Definition call (ms : Z) (w : World) : World :=
  {| env := env w; tick := S (tick w);
     clock := clock w + Z.max 0 ms + Z.of_nat (lag (env w) (tick w));
     fs := fs w; stop_event := stop_event w; returncode := returncode w;
     trace := trace w |}.

(** *** The monad of the script: state and exceptions *)

Inductive outcome (A : Type) :=
| Ret (a : A)
| Raise (e : exn).
Arguments Ret {A} a.
Arguments Raise {A} e.

Definition M (A : Type) : Type := World -> outcome A * World.

Definition ret {A} (a : A) : M A := fun w => (Ret a, w).
Definition raise {A} (e : exn) : M A := fun w => (Raise e, w).

Definition bind {A B} (m : M A) (k : A -> M B) : M B :=
  fun w => match m w with
           | (Ret a, w') => k a w'
           | (Raise e, w') => (Raise e, w')
           end.

(** [try: m except ...: h]: [h e] is the handler of the clause matching
    [e], when there is one. *)
Definition try_except {A} (m : M A) (h : exn -> option (M A)) : M A :=
  fun w => match m w with
           | (Ret a, w') => (Ret a, w')
           | (Raise e, w') =>
               match h e with
               | Some k => k w'
               | None => (Raise e, w')
               end
           end.

(** [for x in xs: body x] *)
Fixpoint for_each {A} (xs : list A) (body : A -> M unit) : M unit :=
  match xs with
  | [] => ret tt
  | x :: xs' => bind (body x) (fun _ => for_each xs' body)
  end.

End OS.

Import OS.

Declare Scope py_scope.
Delimit Scope py_scope with py.
Notation "'do' x <- m ;; k" := (bind m (fun x => k))
  (at level 10, x name, m at level 99, k at level 200) : py_scope.
Local Open Scope py_scope.

(** *** System calls *)

Module Sys.

Definition os_kill (pid : Z) (sig : signal) : M unit :=
  fun w =>
    let a := kill_ans (env w) (tick w) pid sig in
    let w' := log (EvKill pid sig a) (call 0 w) in
    match a with
    | KillOk => (Ret tt, w')
    | KillNoProcess => (Raise ProcessLookupError, w')
    | KillDenied => (Raise PermissionError, w')
    | KillFailed => (Raise OtherOSError, w')
    end.

Definition time_time : M Z :=
  fun w => let w' := call 0 w in (Ret (clock w'), log (EvTime (clock w')) w').

Definition time_sleep (ms : Z) : M unit :=
  fun w => (Ret tt, log (EvSleep ms) (call ms w)).

Definition path_exists (path : string) : M bool :=
  fun w => (Ret (bool_decide (is_Some (fs w !! path))), call 0 w).

Definition read_text (path : string) : M string :=
  fun w => match fs w !! path with
           | Some txt => (Ret txt, call 0 w)
           | None => (Raise FileNotFoundError, call 0 w)
           end.

Definition write_text (path content : string) : M unit :=
  fun w => (Ret tt, log (EvWriteText path content)
                      (with_fs (<[path := content]> (fs w)) (call 0 w))).

Definition unlink (path : string) : M unit :=
  fun w => match fs w !! path with
           | Some _ => (Ret tt, log (EvUnlink path)
                                  (with_fs (delete path (fs w)) (call 0 w)))
           | None => (Raise FileNotFoundError, call 0 w)
           end.

(** [open(path, "a")]: the file is created empty when it does not exist. *)
Definition open_append (path : string) : M unit :=
  fun w => match fs w !! path with
           | Some _ => (Ret tt, call 0 w)
           | None => (Ret tt, with_fs (<[path := ""]> (fs w)) (call 0 w))
           end.

Definition print_stderr (msg : string) : M unit :=
  fun w => (Ret tt, log (EvStderr msg) w).

(** [subprocess.run(["pgrep", "-f", pattern], stdout=PIPE, stderr=DEVNULL,
    text=True, check=False)]: the pair of [returncode] and [stdout].
    Starting a program that cannot be found raises [FileNotFoundError]. *)
Definition run_pgrep (pattern : string) : M (Z * string) :=
  fun w =>
    let a := pgrep_ans (env w) (tick w) pattern in
    let w' := log (EvPgrep pattern a) (call 0 w) in
    match a with
    | PgrepMissing => (Raise FileNotFoundError, w')
    | PgrepExit rc out => (Ret (rc, out), w')
    end.

(** [subprocess.run(cmd, cwd=cwd, env=env, check=True)] *)
Definition run_checked (cmd : list string) : M unit :=
  fun w =>
    let ok := run_ans (env w) (tick w) cmd in
    let w' := log (EvRun cmd ok) (call 0 w) in
    if ok then (Ret tt, w') else (Raise CalledProcessError, w').

(** [subprocess.Popen(cmd, ...)]: the process identifier of the child.
    A spawn that fails raises the [OSError] of its cause:
    [FileNotFoundError] for a missing program, [PermissionError] for one
    that may not be executed. *)
Definition popen (name : string) (cmd : list string) : M Z :=
  fun w =>
    let a := popen_ans (env w) (tick w) cmd in
    let w' := log (EvPopen name cmd a) (call 0 w) in
    match a with
    | SpawnFailed => (Raise (spawn_exn (popen_err (env w) (tick w) cmd)), w')
    | Spawned pid => (Ret pid, w')
    end.

Definition waitpid_nohang (pid : Z) : M waitpid_answer :=
  fun w =>
    let a := waitpid_ans (env w) (tick w) pid in
    (Ret a, log (EvWaitpid pid a) (call 0 w)).

End Sys.

(** ** The script *)

Module Script.

Import PyText.

(** Paths are written relative to [ROOT], the directory above [scripts/]. *)
Definition LOGS : gmap string string :=
  list_to_map [("network", "network.log"); ("auth", "auth.log");
               ("website", "website.log")].

Definition PIDS : gmap string string :=
  list_to_map [("network", "network.pid"); ("auth", "auth.pid");
               ("website", "website.pid")].

(** [d[key]]: [KeyError] when the key is missing. *)
Definition dict_item (d : gmap string string) (key : string) : M string :=
  match d !! key with
  | Some v => ret v
  | None => raise KeyError
  end.

(** *** Terminator *)

Definition pid_exists (pid : Z) : M bool :=
  try_except
    (do _ <- Sys.os_kill pid SIG0 ;; ret true)
    (fun e => match e with
              | ProcessLookupError => Some (ret false)
              | PermissionError => Some (ret true)
              | _ => None
              end).

(** The loop of [terminate_pid]; the result tells whether the function
    returned from inside the loop ([true]) or the loop ran to its end
    ([false]).  [n] bounds the number of iterations. *)
Fixpoint wait_loop (n : nat) (pid start timeout : Z) : M bool :=
  match n with
  | O => raise Diverged
  | S n' =>
      do now <- Sys.time_time ;;
      if now - start <? timeout then
        do alive <- pid_exists pid ;;
        if negb alive then ret true
        else do _ <- Sys.time_sleep 100 ;; wait_loop n' pid start timeout
      else ret false
  end.

(** Every iteration sleeps at least 100 ms, so the loop is over after this
    many tests of its condition. *)
Definition wait_bound (timeout : Z) : nat := Z.to_nat (timeout / 100) + 2.

Definition terminate_pid (pid : Z) (timeout : Z) : M unit :=
  do alive <- pid_exists pid ;;
  if negb alive then ret tt else
  do sent <- try_except
               (do _ <- Sys.os_kill pid SIGTERM ;; ret true)
               (fun e => match e with
                         | ProcessLookupError => Some (ret false)
                         | _ => None
                         end) ;;
  if negb sent then ret tt else
  do start <- Sys.time_time ;;
  do returned <- wait_loop (wait_bound timeout) pid start timeout ;;
  if returned then ret tt else
  try_except
    (Sys.os_kill pid SIGKILL)
    (fun e => match e with
              | ProcessLookupError => Some (ret tt)
              | _ => None
              end).

(** The default of the [timeout] parameter, [2.0] seconds. *)
Definition default_timeout : Z := 2000.

(** [int(path.read_text().strip())] with its [except ValueError] clause:
    [None] is the value of [pid] after the clause. *)
Definition read_pid (path : string) : M (option Z) :=
  try_except
    (do txt <- Sys.read_text path ;;
     match py_int (strip txt) with
     | Some n => ret (Some n)
     | None => raise ValueError
     end)
    (fun e => match e with
              | ValueError => Some (ret None)
              | _ => None
              end).

(** [if pid:] holds when [pid] is an integer other than [0]; it fails for
    [None] and for [0]. *)
Definition kill_pidfile (path : string) : M unit :=
  do present <- Sys.path_exists path ;;
  if negb present then ret tt else
  do pid <- read_pid path ;;
  do _ <- (match pid with
           | Some n => if negb (n =? 0) then terminate_pid n default_timeout
                       else ret tt
           | None => ret tt
           end) ;;
  try_except
    (Sys.unlink path)
    (fun e => match e with
              | FileNotFoundError => Some (ret tt)
              | _ => None
              end).

(** The last statement of [kill_pidfile] on its own. *)
Definition clear_marker (path : string) : M unit :=
  try_except
    (Sys.unlink path)
    (fun e => match e with
              | FileNotFoundError => Some (ret tt)
              | _ => None
              end).

Definition kill_by_pattern (pattern : string) : M unit :=
  do result <- Sys.run_pgrep pattern ;;
  if negb (fst result =? 0) then ret tt else
  for_each (split (snd result))
    (fun token =>
       if negb (isdigit token) then ret tt
       else match py_int token with
            | Some n => terminate_pid n default_timeout
            | None => raise ValueError
            end).

(** *** The escalation protocol, as a grammar of traces *)

(** The signals other than the probe that a trace asks the system to
    deliver, in order. *)
Fixpoint deliveries (tr : list event) : list (Z * signal) :=
  match tr with
  | [] => []
  | EvKill p SIG0 _ :: tr' => deliveries tr'
  | EvKill p sig _ :: tr' => (p, sig) :: deliveries tr'
  | _ :: tr' => deliveries tr'
  end.

(** A probe answer that makes [pid_exists] return [True]. *)
Definition alive_answer (a : kill_answer) : bool :=
  match a with
  | KillOk | KillDenied => true
  | KillNoProcess | KillFailed => false
  end.

(** What [os.kill] raises, if anything, for an answer. *)
Definition kill_outcome (a : kill_answer) : outcome unit :=
  match a with
  | KillOk => Ret tt
  | KillNoProcess => Raise ProcessLookupError
  | KillDenied => Raise PermissionError
  | KillFailed => Raise OtherOSError
  end.

(** One round of the wait loop that finds the process alive: the clock is
    read, the process is probed, and the loop sleeps 100 ms. *)
Definition poll_round (p : Z) (round : Z * kill_answer) : list event :=
  [EvTime (fst round); EvKill p SIG0 (snd round); EvSleep 100].

Definition rounds (p : Z) (rs : list (Z * kill_answer)) : list event :=
  concat (poll_round p <$> rs).

(** A round is in time when the clock reading is less than [timeout]
    after [start], and alive when the probe says so. *)
Definition round_ok (start timeout : Z) (round : Z * kill_answer) : Prop :=
  fst round - start < timeout /\ alive_answer (snd round) = true.

(** The traces of [terminate_pid p timeout] on a process found alive,
    with the outcome of the call. *)
Inductive escalation (p timeout : Z) : list event -> outcome unit -> Prop :=
| esc_vanished a0 :
    alive_answer a0 = true ->
    escalation p timeout
      [EvKill p SIG0 a0; EvKill p SIGTERM KillNoProcess] (Ret tt)
| esc_refused a0 a1 :
    alive_answer a0 = true ->
    a1 = KillDenied \/ a1 = KillFailed ->
    escalation p timeout
      [EvKill p SIG0 a0; EvKill p SIGTERM a1] (kill_outcome a1)
| esc_stopped a0 start rs now :
    alive_answer a0 = true ->
    Forall (round_ok start timeout) rs ->
    now - start < timeout ->
    escalation p timeout
      ([EvKill p SIG0 a0; EvKill p SIGTERM KillOk; EvTime start]
       ++ rounds p rs ++ [EvTime now; EvKill p SIG0 KillNoProcess])
      (Ret tt)
| esc_probe_failed a0 start rs now :
    alive_answer a0 = true ->
    Forall (round_ok start timeout) rs ->
    now - start < timeout ->
    escalation p timeout
      ([EvKill p SIG0 a0; EvKill p SIGTERM KillOk; EvTime start]
       ++ rounds p rs ++ [EvTime now; EvKill p SIG0 KillFailed])
      (Raise OtherOSError)
| esc_forced a0 start rs now a2 :
    alive_answer a0 = true ->
    Forall (round_ok start timeout) rs ->
    timeout <= now - start ->
    escalation p timeout
      ([EvKill p SIG0 a0; EvKill p SIGTERM KillOk; EvTime start]
       ++ rounds p rs ++ [EvTime now; EvKill p SIGKILL a2])
      (match a2 with KillNoProcess => Ret tt | _ => kill_outcome a2 end).

(** The traces of the wait loop alone, with its result. *)
Definition wait_spec (p start timeout : Z) (d : list event)
    (r : outcome bool) : Prop :=
  exists rs now,
    Forall (round_ok start timeout) rs /\
    ((r = Ret false /\ timeout <= now - start /\
      d = rounds p rs ++ [EvTime now]) \/
     (r = Ret true /\ now - start < timeout /\
      d = rounds p rs ++ [EvTime now; EvKill p SIG0 KillNoProcess]) \/
     (r = Raise OtherOSError /\ now - start < timeout /\
      d = rounds p rs ++ [EvTime now; EvKill p SIG0 KillFailed])).

(** A round of the wait loop on a system that refuses no signal: in
    time, and the probe was accepted. *)
Definition round_alive (start timeout : Z) (round : Z * kill_answer) : Prop :=
  fst round - start < timeout /\ snd round = KillOk.

(** The protocol of [terminate_pid p timeout] on a process found alive,
    where no signal is refused.  The graceful stop comes directly after
    the probe.  If the process is gone by then, that is all.  Otherwise
    the clock is read, and the process is polled in rounds for as long as
    the clock reads less than [timeout] after that first reading; the
    run ends with a poll that finds the process gone, or with a clock
    reading that has reached the timeout, directly followed, without a
    further poll, by the forced kill. *)
Inductive graceful_then_forced (p timeout : Z) : list event -> Prop :=
| gtf_vanished :
    graceful_then_forced p timeout
      [EvKill p SIG0 KillOk; EvKill p SIGTERM KillNoProcess]
| gtf_stopped start rs now :
    Forall (round_alive start timeout) rs ->
    now - start < timeout ->
    graceful_then_forced p timeout
      ([EvKill p SIG0 KillOk; EvKill p SIGTERM KillOk; EvTime start]
       ++ rounds p rs ++ [EvTime now; EvKill p SIG0 KillNoProcess])
| gtf_forced start rs now a2 :
    Forall (round_alive start timeout) rs ->
    timeout <= now - start ->
    a2 = KillOk \/ a2 = KillNoProcess ->
    graceful_then_forced p timeout
      ([EvKill p SIG0 KillOk; EvKill p SIGTERM KillOk; EvTime start]
       ++ rounds p rs ++ [EvTime now; EvKill p SIGKILL a2]).

(** *** Process handles

    A [subprocess.Popen] object, as far as the script uses it, with the
    behaviour of [poll] and [send_signal] in CPython 3.9 and later.  The
    [returncode] attribute is kept in the world, by process identifier, so
    that every holder of the object sees the same value. *)

Record Popen := { pid : Z }.

Definition get_returncode (p : Popen) : M (option Z) :=
  fun w => (Ret (returncode w !! pid p), w).

Definition set_returncode (p : Popen) (status : Z) : M unit :=
  fun w => (Ret tt, with_returncode (<[pid p := status]> (returncode w)) w).

(** The poll behind [poll] and [send_signal]: ask the system only while no
    return code is recorded. *)
Definition internal_poll (p : Popen) : M (option Z) :=
  do rc <- get_returncode p ;;
  match rc with
  | Some c => ret (Some c)
  | None =>
      do a <- Sys.waitpid_nohang (pid p) ;;
      match a with
      | StillRunning => ret None
      | Exited status => do _ <- set_returncode p status ;; ret (Some status)
      end
  end.

Definition poll (p : Popen) : M (option Z) :=
  do rc <- internal_poll p ;;
  do _ <- (fun w => (Ret tt, log (EvPoll (pid p) rc) w)) ;;
  ret rc.

(** [send_signal]: nothing is sent to a process known to have exited, and
    a process that vanished meanwhile is not an error. *)
Definition send_signal (p : Popen) (sig : signal) : M unit :=
  do rc <- internal_poll p ;;
  match rc with
  | Some _ => ret tt
  | None =>
      try_except
        (Sys.os_kill (pid p) sig)
        (fun e => match e with
                  | ProcessLookupError => Some (ret tt)
                  | _ => None
                  end)
  end.

Definition terminate (p : Popen) : M unit :=
  do _ <- (fun w => (Ret tt, log (EvTerminate (pid p)) w)) ;;
  send_signal p SIGTERM.

Definition kill (p : Popen) : M unit :=
  do _ <- (fun w => (Ret tt, log (EvForceKill (pid p)) w)) ;;
  send_signal p SIGKILL.

(** *** Supervisor *)

(** [cwd] and [env] are handed to the child and do not influence the
    script; the directory of the log file is [ROOT], which exists, so that
    [mkdir(parents=True, exist_ok=True)] changes nothing. *)
Definition start_process (name : string) (cmd : list string)
    (cwd : option string) (env : list (string * string)) : M Popen :=
  do log_path <- dict_item LOGS name ;;
  do _ <- Sys.open_append log_path ;;
  do child <- Sys.popen name cmd ;;
  do pid_path <- dict_item PIDS name ;;
  do _ <- Sys.write_text pid_path (py_str child) ;;
  ret {| pid := child |}.

(** *** ShutdownCoordinator *)

Definition stop_event_set : M unit :=
  fun w => (Ret tt, log EvSetStop (with_stop true w)).

(** The body of the second loop of [handle_signal]:
    [if proc.poll() is None: proc.kill()]. *)
Definition second_loop (proc : Popen) : M unit :=
  do rc <- poll proc ;;
  match rc with
  | None => kill proc
  | Some _ => ret tt
  end.

Definition handle_signal (processes : list Popen) : M unit :=
  do _ <- stop_event_set ;;
  do _ <- for_each processes terminate ;;
  do _ <- Sys.time_sleep 1000 ;;
  for_each processes second_loop.

(** *** Configuration *)

Definition env_line (data : gmap string string) (raw : string)
    : gmap string string :=
  let line := strip raw in
  match line with
  | EmptyString => data
  | String "#"%char _ => data
  | _ =>
      match split_once "="%char line with
      | None => data
      | Some (key, value) => <[strip key := strip value]> data
      end
  end.

Definition read_env_file (path : string) : M (gmap string string) :=
  do present <- Sys.path_exists path ;;
  if negb present then ret ∅ else
  do txt <- Sys.read_text path ;;
  ret (foldl env_line ∅ (splitlines txt)).

Definition ensure_website_env_local : M string :=
  let website_env := "website/.env.local" in
  do present <- Sys.path_exists website_env ;;
  if present then ret website_env else
  let fallback := "configs/local/.env.local" in
  do present <- Sys.path_exists fallback ;;
  if present then
    do txt <- Sys.read_text fallback ;;
    do _ <- Sys.write_text website_env txt ;;
    ret website_env
  else
    do _ <- Sys.print_stderr
              "Missing website/.env.local and configs/local/.env.local. Create one first." ;;
    raise (SystemExit 1).

(** [d.get(key, "")] *)
Definition get_or_empty (d : gmap string string) (key : string) : string :=
  default "" (d !! key).

(** [not s] for a string [s] *)
Definition is_empty (s : string) : bool :=
  match s with
  | EmptyString => true
  | _ => false
  end.

(** The parsed command line. *)
Record Args := {
  web_port : Z;
  config_dir : string;
  nodes : Z;
  fresh : bool;
  no_build : bool;
}.

(** [main] runs until it returns an exit code or, with the three services
    started, reaches the point where it installs [handle_signal], starts
    the tailers and waits for the stop flag. *)
Inductive main_result :=
| Exit (code : Z)
| Serving (processes : list Popen).

Definition cleanup_patterns : list string :=
  ["nullspace-simulator"; "nullspace-node"; "start-local-network.sh";
   "tsx src/server.ts"; "node .*vite"; "vite"].

(** [main], lines 147 to 158: clean up what an earlier run left. *)
Definition cleanup : M unit :=
  do _ <- for_each ["website"; "network"; "auth"]
            (fun key => do path <- dict_item PIDS key ;; kill_pidfile path) ;;
  for_each cleanup_patterns kill_by_pattern.

(** [main], lines 160 to 277: check the configuration, then start the
    stack. *)
Definition startup (args : Args) : M main_result :=
  do website_env_path <- ensure_website_env_local ;;
  do website_env <- read_env_file website_env_path ;;
  do convex_env <- read_env_file "docker/convex/.env" ;;
  let vite_identity := get_or_empty website_env "VITE_IDENTITY" in
  let convex_url := get_or_empty website_env "CONVEX_SELF_HOSTED_URL" in
  let convex_admin_key :=
    get_or_empty website_env "CONVEX_SELF_HOSTED_ADMIN_KEY" in
  if is_empty vite_identity then
    do _ <- Sys.print_stderr "Missing VITE_IDENTITY in website/.env.local" ;;
    ret (Exit 1)
  else if is_empty convex_url || is_empty convex_admin_key then
    do _ <- Sys.print_stderr
              "Missing CONVEX_SELF_HOSTED_URL or CONVEX_SELF_HOSTED_ADMIN_KEY in website/.env.local" ;;
    ret (Exit 1)
  else
  let service_token := get_or_empty convex_env "CONVEX_SERVICE_TOKEN" in
  let stripe_secret := get_or_empty convex_env "STRIPE_SECRET_KEY" in
  let stripe_webhook := get_or_empty convex_env "STRIPE_WEBHOOK_SECRET" in
  if is_empty service_token || is_empty stripe_secret
     || is_empty stripe_webhook then
    do _ <- Sys.print_stderr "Missing Convex env vars in docker/convex/.env" ;;
    ret (Exit 1)
  else
  do present <- Sys.path_exists (config_dir args +:+ "/node0.yaml") ;;
  if negb present then
    do _ <- Sys.print_stderr
              ("Missing validator configs in " +:+ config_dir args
               +:+ ". Run generate-keys first.") ;;
    ret (Exit 1)
  else
  do _ <- Sys.run_checked
            ["docker"; "compose"; "--env-file"; "docker/convex/.env"; "-f";
             "docker/convex/docker-compose.yml"; "up"; "-d"; "--wait"] ;;
  do _ <- Sys.run_checked
            ["npx"; "convex"; "env"; "set"; "CONVEX_SERVICE_TOKEN";
             service_token] ;;
  do _ <- Sys.run_checked
            ["npx"; "convex"; "env"; "set"; "STRIPE_SECRET_KEY";
             stripe_secret] ;;
  do _ <- Sys.run_checked
            ["npx"; "convex"; "env"; "set"; "STRIPE_WEBHOOK_SECRET";
             stripe_webhook] ;;
  do _ <- Sys.run_checked ["npx"; "convex"; "dev"; "--once"] ;;
  let port := py_str (web_port args) in
  let allowed_origins :=
    join "," ["http://localhost:" +:+ port; "http://127.0.0.1:" +:+ port;
              "http://localhost:3000"; "http://127.0.0.1:3000"] in
  let network_env :=
    [("ALLOW_HTTP_NO_ORIGIN", "1"); ("ALLOW_WS_NO_ORIGIN", "1");
     ("ALLOWED_HTTP_ORIGINS", allowed_origins);
     ("ALLOWED_WS_ORIGINS", allowed_origins)] in
  let network_cmd :=
    (["scripts/start-local-network.sh"; config_dir args; py_str (nodes args)]
     ++ (if fresh args then ["--fresh"] else [])
     ++ (if no_build args then ["--no-build"] else []))%list in
  do network <- start_process "network" network_cmd None network_env ;;
  do auth <- start_process "auth" ["npm"; "run"; "dev"]
               (Some "services/auth")
               [("AUTH_ALLOWED_ORIGINS", allowed_origins)] ;;
  do website <- start_process "website"
                  ["npm"; "run"; "dev"; "--"; "--host"; "127.0.0.1";
                   "--port"; port]
                  (Some "website") [] ;;
  ret (Serving [network; auth; website]).

Definition main (args : Args) : M main_result :=
  do _ <- cleanup ;;
  startup args.

(** The exit status of the interpreter running
    [raise SystemExit(main())]: the returned code, the code of a
    [sys.exit], or 1 for any other uncaught exception.  [None] while the
    script keeps running. *)
Definition exit_status (r : outcome main_result) : option Z :=
  match r with
  | Ret (Exit code) => Some code
  | Ret (Serving _) => None
  | Raise (SystemExit code) => Some code
  | Raise Diverged => None
  | Raise _ => Some 1
  end.

(** *** Vocabulary of the properties *)

(** The marker files. *)
Definition is_marker (path : string) : Prop :=
  exists name, PIDS !! name = Some path.

(** Events of the clean-up: probes, signals, clock readings, sleeps,
    listings and the removal of a file.  No process is started and no file
    is written. *)
Definition sweep_event (e : event) : Prop :=
  match e with
  | EvKill _ _ _ | EvTime _ | EvSleep _ | EvPgrep _ _ | EvUnlink _ => True
  | _ => False
  end.

(** A computation that only sweeps: its events are clean-up events, and
    the only change to the file system is that marker files may
    disappear. *)
Definition tame {A} (m : M A) : Prop :=
  forall w,
    (exists d, trace (snd (m w)) = trace w ++ d /\ Forall sweep_event d) /\
    (forall p, fs (snd (m w)) !! p = fs w !! p \/
               (is_marker p /\ fs (snd (m w)) !! p = None)).

(** An error that ends the run with a traceback: not a [sys.exit], and
    not the cut-off of the embedding. *)
Definition plain_error (e : exn) : Prop :=
  match e with
  | SystemExit _ | Diverged => False
  | _ => True
  end.

(** A computation that, when it fails, fails with a plain error; in
    particular its loops always come to an end. *)
Definition plain {A} (m : M A) : Prop :=
  forall w e, fst (m w) = Raise e -> plain_error e.

(** The settings as [startup] will read them: [website/.env.local], or
    the fallback it is copied from, and [docker/convex/.env]. *)
Definition parse_env (txt : string) : gmap string string :=
  foldl env_line ∅ (splitlines txt).

Definition website_settings (w : World) : gmap string string :=
  match fs w !! "website/.env.local" with
  | Some txt => parse_env txt
  | None =>
      match fs w !! "configs/local/.env.local" with
      | Some txt => parse_env txt
      | None => ∅
      end
  end.

Definition convex_settings (w : World) : gmap string string :=
  match fs w !! "docker/convex/.env" with
  | Some txt => parse_env txt
  | None => ∅
  end.

(** A required setting is absent. *)
Definition config_incomplete (args : Args) (w : World) : Prop :=
  website_settings w !! "VITE_IDENTITY" = None \/
  website_settings w !! "CONVEX_SELF_HOSTED_URL" = None \/
  website_settings w !! "CONVEX_SELF_HOSTED_ADMIN_KEY" = None \/
  convex_settings w !! "CONVEX_SERVICE_TOKEN" = None \/
  convex_settings w !! "STRIPE_SECRET_KEY" = None \/
  convex_settings w !! "STRIPE_WEBHOOK_SECRET" = None \/
  fs w !! (config_dir args +:+ "/node0.yaml") = None.

(** The steps of the coordinator itself, as opposed to the system calls
    made on its behalf. *)
Definition is_request (e : event) : bool :=
  match e with
  | EvSetStop | EvTerminate _ | EvPoll _ _ | EvForceKill _ | EvSleep _ => true
  | _ => false
  end.

Definition requests (tr : list event) : list event := List.filter is_request tr.

(** What the second loop of [handle_signal] asks for one process, given
    the result of its poll. *)
Definition poll_then_kill (proc : Popen) (rc : option Z) : list event :=
  EvPoll (pid proc) rc ::
  match rc with
  | None => [EvForceKill (pid proc)]
  | Some _ => []
  end.

(** The system lets the script signal its children: [os.kill] answers
    that the signal was delivered or that the process is gone. *)
Definition signals_accepted (e : Env) : Prop :=
  forall i p sig, kill_ans e i p sig = KillOk \/ kill_ans e i p sig = KillNoProcess.

(** The claim that the forced kill is sent only to a process that is
    still alive, as a property of a trace: no forced kill is answered
    with "no such process". *)
Definition forced_kill_finds_process (p : Z) (tr : list event) : Prop :=
  forall a, In (EvKill p SIGKILL a) tr -> a <> KillNoProcess.

(** What [send_signal] does for the process [p], in a system that lets
    the script signal its children, given the exits [rc] recorded
    before it, with the exits recorded after it.  Nothing at all when
    the exit of [p] is recorded.  Otherwise the system is asked whether
    [p] has exited: an exit is recorded and no signal is sent; a process
    still running is sent the signal. *)
Inductive sends (p : Z) (sig : signal) (rc : gmap Z Z)
    : list event -> gmap Z Z -> Prop :=
| sends_recorded c :
    rc !! p = Some c ->
    sends p sig rc [] rc
| sends_exited status :
    rc !! p = None ->
    sends p sig rc [EvWaitpid p (Exited status)] (<[p := status]> rc)
| sends_running a :
    rc !! p = None ->
    a = KillOk \/ a = KillNoProcess ->
    sends p sig rc [EvWaitpid p StillRunning; EvKill p sig a] rc.

(** What [poll] does for the process [p], with its result. *)
Inductive polls (p : Z) (rc : gmap Z Z)
    : list event -> option Z -> gmap Z Z -> Prop :=
| polls_recorded c :
    rc !! p = Some c ->
    polls p rc [EvPoll p (Some c)] (Some c) rc
| polls_exited status :
    rc !! p = None ->
    polls p rc [EvWaitpid p (Exited status); EvPoll p (Some status)]
      (Some status) (<[p := status]> rc)
| polls_running :
    rc !! p = None ->
    polls p rc [EvWaitpid p StillRunning; EvPoll p None] None rc.

(** The first loop of [handle_signal]: one graceful-stop request per
    process, in order. *)
Inductive graceful_stops
    : list Popen -> gmap Z Z -> list event -> gmap Z Z -> Prop :=
| graceful_nil rc :
    graceful_stops [] rc [] rc
| graceful_cons proc ps rc d1 rc1 d2 rc2 :
    sends (pid proc) SIGTERM rc d1 rc1 ->
    graceful_stops ps rc1 d2 rc2 ->
    graceful_stops (proc :: ps) rc (EvTerminate (pid proc) :: d1 ++ d2) rc2.

(** The second loop: one poll per process, in order, followed by a
    force-kill request exactly when the poll reports the process as
    still running. *)
Inductive forced_kills
    : list Popen -> gmap Z Z -> list event -> gmap Z Z -> Prop :=
| forced_nil rc :
    forced_kills [] rc [] rc
| forced_exited proc ps rc d1 c rc1 d2 rc2 :
    polls (pid proc) rc d1 (Some c) rc1 ->
    forced_kills ps rc1 d2 rc2 ->
    forced_kills (proc :: ps) rc (d1 ++ d2) rc2
| forced_running proc ps rc d1 rc1 d3 rc3 d2 rc2 :
    polls (pid proc) rc d1 None rc1 ->
    sends (pid proc) SIGKILL rc1 d3 rc3 ->
    forced_kills ps rc3 d2 rc2 ->
    forced_kills (proc :: ps) rc
      (d1 ++ EvForceKill (pid proc) :: d3 ++ d2) rc2.

(** An event that is no system call about the process [q]. *)
Definition quiet_about (q : Z) (e : event) : Prop :=
  match e with
  | EvWaitpid q' _ | EvKill q' _ _ => q' <> q
  | _ => True
  end.

(** What the system says about its children in a trace is what the
    environment [e] answers. *)
Definition answered (e : Env) (ev : event) : Prop :=
  match ev with
  | EvWaitpid q a => exists i, a = waitpid_ans e i q
  | _ => True
  end.

(** What is kept along a run of the coordinator. *)
Definition same_setting (w w' : World) : Prop :=
  env w' = env w /\ stop_event w' = stop_event w.

(** The claim that a second trigger only sets the flag again, as a
    property of the world [w1] it arrives in. *)
Definition second_trigger_is_noop (processes : list Popen) (w1 : World) : Prop :=
  let w2 := snd (handle_signal processes w1) in
  trace w2 = trace w1 ++ [EvSetStop] /\ clock w2 = clock w1.

(** Events that start nothing, neither a managed process nor a command,
    and write no marker file. *)
Definition no_start (e : event) : Prop :=
  match e with
  | EvPopen _ _ _ | EvRun _ _ => False
  | EvWriteText path _ => ~ is_marker path
  | _ => True
  end.

(** What holds of a computation at a world. *)
Definition post {A} (m : M A) (w : World) (Q : outcome A -> World -> Prop) : Prop :=
  Q (fst (m w)) (snd (m w)).

(** The result of a run that stops at a check: exit code 1, nothing
    started, markers as they were. *)
Definition stopped (w0 : World) (r : outcome main_result) (w : World) : Prop :=
  (exists d, trace w = trace w0 ++ d /\ Forall no_start d) /\
  (r = Ret (Exit 1) \/ r = Raise (SystemExit 1)) /\
  (forall p, is_marker p -> fs w !! p = fs w0 !! p).

End Script.

(** ** LogTailer

    [tail_file] runs in a thread of its own, next to the child that writes
    the log and to the signal handler that sets the stop flag.  It is
    embedded as a machine that executes one statement per [Tick]; between
    two ticks the environment may create the file, append to it, or set
    the flag.  The file is its text as decoded, character by character (a
    byte that does not decode reads as one replacement character), and the
    writer appends whole characters.  The handle is opened in text mode
    with the default [newline=None], so that [readline] ends a line at a
    line feed, at a carriage return, or at a carriage return directly
    followed by a line feed, and hands each of them over as one line
    feed. *)

Module Tailer.

(** Program points, by line of [start.py]. *)
Inductive pc :=
| AtExists                (* 123: path.exists() *)
| AtWaitStop              (* 123: stop_event.is_set() *)
| AtWaitSleep             (* 124: time.sleep(0.2) *)
| AtStopCheck             (* 125: if stop_event.is_set(): return *)
| AtOpen                  (* 127-128: open, seek(0, SEEK_END) *)
| AtLoop                  (* 129: while not stop_event.is_set() *)
| AtRead                  (* 130-131: line = handle.readline(); if line *)
| AtWrite (line : string) (* 132-133: sys.stdout.write, flush *)
| AtSleep                 (* 135: time.sleep(0.2) *)
| Returned
| Failed.                 (* FileNotFoundError raised by open *)

Record config := {
  file : option string;     (* the log sink; None while it does not exist *)
  stop : bool;              (* stop_event *)
  at_pc : pc;
  pos : nat;                (* offset of the handle *)
  attached : option nat;    (* the offset the handle was opened at *)
  stdout : list string;     (* the writes of this tailer, oldest first *)
  naps : nat;               (* sleeps of 0.2 s made so far *)
}.

Definition LF : ascii := "010"%char.
Definition CR : ascii := "013"%char.

Definition nl : string := String LF EmptyString.
Definition cr : string := String CR EmptyString.

(** [skip n s]: [s] without its first [n] characters. *)
Fixpoint skip (n : nat) (s : string) : string :=
  match n, s with
  | O, _ => s
  | S n', String _ s' => skip n' s'
  | S _, EmptyString => EmptyString
  end.

(** What [readline] returns on the rest of the file: the text up to the
    first line ending, with a line feed in the place of that ending, or
    all that is there when no line ending follows. *)
Fixpoint read_line (s : string) : string :=
  match s with
  | EmptyString => EmptyString
  | String c s' =>
      if Ascii.eqb c LF || Ascii.eqb c CR then nl
      else String c (read_line s')
  end.

(** The number of characters of the file that [readline] takes for it: a
    carriage return takes a line feed that directly follows it along.  A
    carriage return at the very end of the file is a line ending of its
    own: [readline] does not wait for what may be written after it. *)
Fixpoint line_span (s : string) : nat :=
  match s with
  | EmptyString => 0
  | String c s' =>
      if Ascii.eqb c LF then 1
      else if Ascii.eqb c CR then
        match s' with
        | String c' _ => if Ascii.eqb c' LF then 2 else 1
        | EmptyString => 1
        end
      else S (line_span s')
  end.

(** [f"[{prefix}] {line}"] *)
Definition tag (prefix line : string) : string :=
  "[" +:+ prefix +:+ "] " +:+ line.

Definition goto (l : pc) (c : config) : config :=
  {| file := file c; stop := stop c; at_pc := l; pos := pos c;
     attached := attached c; stdout := stdout c; naps := naps c |}.

Definition nap (l : pc) (c : config) : config :=
  {| file := file c; stop := stop c; at_pc := l; pos := pos c;
     attached := attached c; stdout := stdout c; naps := S (naps c) |}.

Definition step (prefix : string) (c : config) : config :=
  match at_pc c with
  | AtExists =>
      match file c with
      | Some _ => goto AtStopCheck c
      | None => goto AtWaitStop c
      end
  | AtWaitStop => if stop c then goto AtStopCheck c else goto AtWaitSleep c
  | AtWaitSleep => nap AtExists c
  | AtStopCheck => if stop c then goto Returned c else goto AtOpen c
  | AtOpen =>
      match file c with
      | Some txt =>
          {| file := file c; stop := stop c; at_pc := AtLoop;
             pos := String.length txt; attached := Some (String.length txt);
             stdout := stdout c; naps := naps c |}
      | None => goto Failed c
      end
  | AtLoop => if stop c then goto Returned c else goto AtRead c
  | AtRead =>
      let unread := skip (pos c) (default "" (file c)) in
      let line := read_line unread in
      match line with
      | EmptyString => goto AtSleep c
      | _ =>
          {| file := file c; stop := stop c; at_pc := AtWrite line;
             pos := (pos c + line_span unread)%nat;
             attached := attached c; stdout := stdout c; naps := naps c |}
      end
  | AtWrite line =>
      {| file := file c; stop := stop c; at_pc := AtLoop; pos := pos c;
         attached := attached c;
         stdout := (stdout c ++ [tag prefix line])%list; naps := naps c |}
  | AtSleep => nap AtLoop c
  | Returned => c
  | Failed => c
  end.

(** What happens around the tailer. *)
Inductive move :=
| Tick                  (* the tailer executes its next statement *)
| Create                (* the log file is opened for appending *)
| Append (s : string)   (* the child writes [s] to the log *)
| SetStop.              (* stop_event.set() *)

Definition set_file (f : option string) (c : config) : config :=
  {| file := f; stop := stop c; at_pc := at_pc c; pos := pos c;
     attached := attached c; stdout := stdout c; naps := naps c |}.

Definition apply (prefix : string) (c : config) (m : move) : config :=
  match m with
  | Tick => step prefix c
  | Create =>
      match file c with
      | Some _ => c
      | None => set_file (Some "") c
      end
  | Append s => set_file (Some (default "" (file c) +:+ s)) c
  | SetStop =>
      {| file := file c; stop := true; at_pc := at_pc c; pos := pos c;
         attached := attached c; stdout := stdout c; naps := naps c |}
  end.

Definition run (prefix : string) (ms : list move) (c : config) : config :=
  foldl (apply prefix) c ms.

(** The tailer thread as it is started by [main]. *)
Definition start (f : option string) (stopped : bool) : config :=
  {| file := f; stop := stopped; at_pc := AtExists; pos := 0;
     attached := None; stdout := []; naps := 0 |}.

Definition halted (c : config) : bool :=
  match at_pc c with
  | Returned | Failed => true
  | _ => false
  end.

(** The chunk read and still to be written, when there is one. *)
Definition pending (c : config) : list string :=
  match at_pc c with
  | AtWrite line => [line]
  | _ => []
  end.

(** The lines of a text as [readline] tells them apart, each with a line
    feed for its ending, followed by the unterminated rest when there is
    one. *)
Fixpoint lines_aux (cur : string) (s : string) : list string :=
  match s with
  | EmptyString => match cur with EmptyString => [] | _ => [cur] end
  | String c s' =>
      if Ascii.eqb c LF then (cur +:+ nl) :: lines_aux EmptyString s'
      else if Ascii.eqb c CR then
        (cur +:+ nl) ::
        match s' with
        | String c' s'' =>
            if Ascii.eqb c' LF then lines_aux EmptyString s''
            else lines_aux EmptyString s'
        | EmptyString => []
        end
      else lines_aux (cur +:+ String c EmptyString) s'
  end.

Definition lines (s : string) : list string := lines_aux EmptyString s.

(** The output the specification describes for the text appended after
    attachment: one write per line, each with the prefix. *)
Definition spec_output (prefix appended : string) : list string :=
  tag prefix <$> lines appended.

(** A chunk as [readline] returns it: not empty, and a line feed can only
    be its last character. *)
Fixpoint chunk_ok (s : string) : bool :=
  match s with
  | EmptyString => false
  | String c EmptyString => true
  | String c s' => negb (Ascii.eqb c LF) && chunk_ok s'
  end.

(** All pieces in a row. *)
Fixpoint join_all (chunks : list string) : string :=
  match chunks with
  | [] => EmptyString
  | x :: rest => x +:+ join_all rest
  end.

(** A text without a line ending. *)
Fixpoint no_break (s : string) : bool :=
  match s with
  | EmptyString => true
  | String c s' => negb (Ascii.eqb c LF || Ascii.eqb c CR) && no_break s'
  end.

Definition starts_with_lf (s : string) : bool :=
  match s with
  | String c _ => Ascii.eqb c LF
  | EmptyString => false
  end.

(** Reading one line, as the documentation of text files describes it.
    [first_line unread raw chunk]: from the text [unread] that lies
    beyond the handle, one [readline] takes the characters [raw] and
    returns [chunk].  The line goes up to the first line ending, which is
    a line feed, a carriage return with the line feed that directly
    follows it, or a carriage return alone, and is returned with a line
    feed for its ending; when [unread] holds no line ending, all of it
    is taken and returned as it is. *)
Inductive first_line : string -> string -> string -> Prop :=
| line_lf body rest :
    no_break body = true ->
    first_line (body +:+ nl +:+ rest) (body +:+ nl) (body +:+ nl)
| line_crlf body rest :
    no_break body = true ->
    first_line (body +:+ cr +:+ nl +:+ rest) (body +:+ cr +:+ nl) (body +:+ nl)
| line_cr body rest :
    no_break body = true ->
    starts_with_lf rest = false ->
    first_line (body +:+ cr +:+ rest) (body +:+ cr) (body +:+ nl)
| line_open body :
    no_break body = true ->
    body <> EmptyString ->
    first_line body body body.

(** [chunk] is what one [readline] made of the characters [raw]. *)
Definition line_text (raw chunk : string) : Prop :=
  exists unread, first_line unread raw chunk.

(** Statements still to execute, at most, once the flag is set. *)
Definition steps_left (l : pc) : nat :=
  match l with
  | Returned | Failed => 0
  | AtLoop | AtStopCheck => 1
  | AtWrite _ | AtSleep | AtOpen | AtWaitStop => 2
  | AtRead | AtExists => 3
  | AtWaitSleep => 4
  end.

(** Writes and sleeps still possible, at most, once the flag is set. *)
Definition writes_left (l : pc) : nat :=
  match l with
  | AtRead | AtWrite _ => 1
  | _ => 0
  end.

Definition naps_left (l : pc) : nat :=
  match l with
  | AtRead | AtSleep | AtWaitSleep => 1
  | _ => 0
  end.

(** What holds along every run: before the file is opened nothing has
    been written; afterwards the file is [before], of the length found
    when it was opened, followed by the pieces read so far, one per
    chunk written or about to be, and the part not yet read. *)
Definition consistent (prefix : string) (c : config) : Prop :=
  match attached c with
  | None =>
      stdout c = [] /\
      match at_pc c with
      | AtLoop | AtRead | AtWrite _ | AtSleep => False
      | _ => True
      end
  | Some a =>
      (exists before raws chunks rest,
         file c = Some (before +:+ join_all raws +:+ rest) /\
         String.length before = a /\
         pos c = (a + String.length (join_all raws))%nat /\
         stdout c = tag prefix <$> chunks /\
         Forall2 line_text raws (chunks ++ pending c)) /\
      match at_pc c with
      | AtLoop | AtRead | AtSleep | Returned => True
      | AtWrite line => chunk_ok line = true
      | _ => False
      end
  end.

(** Everything after the first [a] characters of the file has been
    read and written. *)
Definition caught_up (prefix : string) (a : nat) (c : config) : Prop :=
  exists before raws chunks,
    file c = Some (before +:+ join_all raws) /\
    String.length before = a /\
    stdout c = tag prefix <$> chunks /\
    Forall2 line_text raws chunks.

(** A run in which the child writes a line in two pieces. *)
Definition two_piece_run : list move :=
  [Create; Tick; Tick; Tick;
   Append "par"; Tick; Tick; Tick;
   Append ("tial" +:+ nl); Tick; Tick; Tick].

(** The number of statements the tailer executes during [ms]. *)
Fixpoint count_ticks (ms : list move) : nat :=
  match ms with
  | [] => 0
  | Tick :: ms' => S (count_ticks ms')
  | _ :: ms' => count_ticks ms'
  end.

End Tailer.

(** ** Sample environments and worlds *)

Module Sample.

(** No process exists, [pgrep] runs and finds nothing, every command and
    every spawn succeeds, and no call takes extra time. *)
Definition calm : Env :=
  {| lag := fun _ => 0%nat;
     kill_ans := fun _ _ _ => KillNoProcess;
     pgrep_ans := fun _ _ => PgrepExit 1 "";
     popen_ans := fun i _ => Spawned (4000 + Z.of_nat i);
     popen_err := fun _ _ => SpawnMissing;
     run_ans := fun _ _ => true;
     waitpid_ans := fun _ _ => StillRunning |}.

Definition with_kill (k : nat -> Z -> signal -> kill_answer) (e : Env)
    : Env :=
  {| lag := lag e; kill_ans := k; pgrep_ans := pgrep_ans e;
     popen_ans := popen_ans e; popen_err := popen_err e;
     run_ans := run_ans e;
     waitpid_ans := waitpid_ans e |}.

Definition with_pgrep (g : nat -> string -> pgrep_answer) (e : Env) : Env :=
  {| lag := lag e; kill_ans := kill_ans e; pgrep_ans := g;
     popen_ans := popen_ans e; popen_err := popen_err e;
     run_ans := run_ans e;
     waitpid_ans := waitpid_ans e |}.

Definition with_waitpid (a : nat -> Z -> waitpid_answer) (e : Env) : Env :=
  {| lag := lag e; kill_ans := kill_ans e; pgrep_ans := pgrep_ans e;
     popen_ans := popen_ans e; popen_err := popen_err e;
     run_ans := run_ans e;
     waitpid_ans := a |}.

(** Every process exists and belongs to someone else. *)
Definition foreign : Env := with_kill (fun _ _ _ => KillDenied) calm.

(** Every process exists, accepts every signal and keeps running. *)
Definition stubborn : Env := with_kill (fun _ _ _ => KillOk) calm.

(** The children run until they are asked to stop and have exited, killed
    by the signal, when they are polled after that: the first two calls
    find a child running, later calls find it gone. *)
Definition obedient : Env :=
  with_waitpid
    (fun i _ => if (i <? 2)%nat then StillRunning else Exited (-15))
    stubborn.

(** [pgrep] is not installed. *)
Definition no_pgrep : Env := with_pgrep (fun _ _ => PgrepMissing) calm.

(** The world at the start of a run, with the given files. *)
Definition boot (e : Env) (files : list (string * string)) : World :=
  {| env := e; tick := 0; clock := 0; fs := list_to_map files;
     stop_event := false; returncode := ∅; trace := [] |}.

(** A complete configuration. *)
Definition website_env_text : string :=
  "VITE_IDENTITY=abc
CONVEX_SELF_HOSTED_URL=http://127.0.0.1:3210
CONVEX_SELF_HOSTED_ADMIN_KEY=key
".

Definition convex_env_text : string :=
  "# convex
CONVEX_SERVICE_TOKEN = token
STRIPE_SECRET_KEY=sk
STRIPE_WEBHOOK_SECRET=wh
".

Definition config_files : list (string * string) :=
  [("website/.env.local", website_env_text);
   ("docker/convex/.env", convex_env_text);
   ("configs/local/node0.yaml", "")].

Definition default_args : Script.Args :=
  {| Script.web_port := 5173; Script.config_dir := "configs/local";
     Script.nodes := 4; Script.fresh := false; Script.no_build := false |}.

(** A configuration without the Stripe secret. *)
Definition incomplete_files : list (string * string) :=
  [("website/.env.local", website_env_text);
   ("docker/convex/.env", "CONVEX_SERVICE_TOKEN=token
STRIPE_WEBHOOK_SECRET=wh
");
   ("configs/local/node0.yaml", "")].

(** A tailer that has attached and read a chunk when the flag is set. *)
Definition stopping_tailer : Tailer.config :=
  Tailer.run "auth"
    [Tailer.Create; Tailer.Tick; Tailer.Tick; Tailer.Tick;
     Tailer.Append "ready"; Tailer.Tick; Tailer.Tick; Tailer.SetStop]
    (Tailer.start None false).

End Sample.

(** ** What a computation can touch *)

Module Footprint.

Import PyText Script.

(** *** Reach of a computation *)

(** Every event that the computation adds to the trace satisfies [Q]. *)
Definition emits {A} (Q : event -> Prop) (m : M A) : Prop :=
  forall w, exists d, trace (snd (m w)) = trace w ++ d /\ Forall Q d.

(** The computation leaves the component [f] of the world as it found
    it. *)
Definition keeps {A X} (f : World -> X) (m : M A) : Prop :=
  forall w, f (snd (m w)) = f w.

(** What the script itself holds: the files, the stop flag and the
    recorded return codes, as opposed to the clock and the trace. *)
Definition held (w : World) : gmap string string * bool * gmap Z Z :=
  (fs w, stop_event w, returncode w).

(** The computation raises nothing but errors that satisfy [P]. *)
Definition raises_only {A} (P : exn -> Prop) (m : M A) : Prop :=
  forall w e, fst (m w) = Raise e -> P e.

(** Under the assumption [I] on the environment, the computation returns
    normally. *)
Definition sure (I : Env -> Prop) {A} (m : M A) : Prop :=
  forall w, I (env w) -> exists a, fst (m w) = Ret a.

(** *** Terminator and registry *)

(** What [terminate_pid pid] does to the outside: signals to [pid], clock
    readings, and sleeps of 100 ms. *)
Definition terminator_event (pid : Z) (e : event) : Prop :=
  match e with
  | EvKill q _ _ => q = pid
  | EvTime _ => True
  | EvSleep ms => ms = 100
  | _ => False
  end.

(** The number of sleeps in a trace. *)
Fixpoint count_sleeps (tr : list event) : nat :=
  match tr with
  | [] => 0%nat
  | EvSleep _ :: tr' => S (count_sleeps tr')
  | _ :: tr' => count_sleeps tr'
  end.

(** The marker file [path] holds the text of the integer [n]. *)
Definition recorded (w : World) (path : string) (n : Z) : Prop :=
  exists txt, fs w !! path = Some txt /\ py_int (strip txt) = Some n.

(** What [kill_pidfile path] does to the outside, started in [w]: it
    removes [path], and terminates the process recorded there. *)
Definition registry_event (w : World) (path : string) (e : event) : Prop :=
  e = EvUnlink path \/
  exists n, recorded w path n /\ n <> 0 /\ terminator_event n e.

(** *** Pattern sweep *)

(** The listing [out] of [pgrep] names the process [n]: one of its
    tokens is made of digits and reads as [n]. *)
Definition listed (out : string) (n : Z) : Prop :=
  exists token, In token (split out) /\ isdigit token = true /\
                py_int token = Some n.

(** What [kill_by_pattern] does after the listing [out]: it terminates
    processes that the listing names. *)
Definition sweep_target_event (out : string) (e : event) : Prop :=
  exists n, listed out n /\ 0 <= n /\ terminator_event n e.

(** A listing that [kill_by_pattern] can work through: [pgrep] ran, and
    every token made of digits reads as an integer. *)
Definition listing_ok (a : pgrep_answer) : Prop :=
  match a with
  | PgrepMissing => False
  | PgrepExit _ out =>
      forall token, In token (split out) -> isdigit token = true ->
                    py_int token <> None
  end.

(** The system the clean-up hopes for: it lets the script signal what it
    finds, and [pgrep] is installed. *)
Definition cooperative (e : Env) : Prop :=
  signals_accepted e /\ forall i pattern, listing_ok (pgrep_ans e i pattern).

(** *** Settings files *)

(** Text without a line boundary. *)
Definition one_line (s : string) : bool :=
  all_chars (fun c => negb (is_linebreak c)) s.

(** Text in which the character [ch] does not occur. *)
Definition has_no (ch : ascii) (s : string) : bool :=
  all_chars (fun c => negb (Ascii.eqb c ch)) s.

(** [line.startswith("#")] *)
Definition is_comment (line : string) : bool :=
  match line with
  | String c _ => Ascii.eqb c "#"
  | EmptyString => false
  end.

(** The text of a file whose lines are [ls], each ended by a line feed. *)
Fixpoint unlines (ls : list string) : string :=
  match ls with
  | [] => EmptyString
  | l :: ls' => l +:+ String "010" (unlines ls')
  end.

(** Every required setting has a value, and the validator configuration
    exists. *)
Definition config_complete (args : Args) (w : World) : Prop :=
  is_empty (get_or_empty (website_settings w) "VITE_IDENTITY") = false /\
  is_empty (get_or_empty (website_settings w) "CONVEX_SELF_HOSTED_URL") = false /\
  is_empty (get_or_empty (website_settings w) "CONVEX_SELF_HOSTED_ADMIN_KEY")
  = false /\
  is_empty (get_or_empty (convex_settings w) "CONVEX_SERVICE_TOKEN") = false /\
  is_empty (get_or_empty (convex_settings w) "STRIPE_SECRET_KEY") = false /\
  is_empty (get_or_empty (convex_settings w) "STRIPE_WEBHOOK_SECRET") = false /\
  is_Some (fs w !! (config_dir args +:+ "/node0.yaml")).

(** What [startup] may write before the commands: the copy of the
    fallback settings, when [website/.env.local] was missing. *)
Definition settings_copy (w : World) : list event :=
  match fs w !! "website/.env.local", fs w !! "configs/local/.env.local" with
  | None, Some txt => [EvWriteText "website/.env.local" txt]
  | _, _ => []
  end.

(** *** The commands of a start *)

(** The commands that [main] runs, lines 186 to 224, with the values of
    the settings as their arguments. *)
Definition convex_commands (convex_env : gmap string string)
    : list (list string) :=
  [["docker"; "compose"; "--env-file"; "docker/convex/.env"; "-f";
    "docker/convex/docker-compose.yml"; "up"; "-d"; "--wait"];
   ["npx"; "convex"; "env"; "set"; "CONVEX_SERVICE_TOKEN";
    get_or_empty convex_env "CONVEX_SERVICE_TOKEN"];
   ["npx"; "convex"; "env"; "set"; "STRIPE_SECRET_KEY";
    get_or_empty convex_env "STRIPE_SECRET_KEY"];
   ["npx"; "convex"; "env"; "set"; "STRIPE_WEBHOOK_SECRET";
    get_or_empty convex_env "STRIPE_WEBHOOK_SECRET"];
   ["npx"; "convex"; "dev"; "--once"]].

(** The commands of the three services, lines 246 to 277. *)
Definition network_cmd (args : Args) : list string :=
  (["scripts/start-local-network.sh"; config_dir args; py_str (nodes args)]
   ++ (if fresh args then ["--fresh"] else [])
   ++ (if no_build args then ["--no-build"] else []))%list.

Definition auth_cmd : list string := ["npm"; "run"; "dev"].

Definition website_cmd (args : Args) : list string :=
  ["npm"; "run"; "dev"; "--"; "--host"; "127.0.0.1"; "--port";
   py_str (web_port args)].

(** What a successful start adds to the trace, after the settings are
    read: the five commands, then the three services in the order
    network, auth, website, each followed by the write of its marker. *)
Definition launch_events (args : Args) (convex_env : gmap string string)
    (network auth website : Z) : list event :=
  ((fun cmd => EvRun cmd true) <$> convex_commands convex_env)
  ++ [EvPopen "network" (network_cmd args) (Spawned network);
      EvWriteText "network.pid" (py_str network);
      EvPopen "auth" auth_cmd (Spawned auth);
      EvWriteText "auth.pid" (py_str auth);
      EvPopen "website" (website_cmd args) (Spawned website);
      EvWriteText "website.pid" (py_str website)].

(** *** The handler *)

(** The processes started this run. *)
Definition managed (processes : list Popen) (q : Z) : Prop :=
  exists proc, In proc processes /\ pid proc = q.

(** What [handle_signal] does to the outside: it sets the flag, sleeps one
    second, and polls and signals the processes it was given; a signal is
    a real one, never the probe. *)
Definition coordinator_event (processes : list Popen) (e : event) : Prop :=
  match e with
  | EvSetStop => True
  | EvSleep ms => ms = 1000
  | EvTerminate q | EvForceKill q | EvPoll q _ | EvWaitpid q _ =>
      managed processes q
  | EvKill q sig _ => managed processes q /\ sig <> SIG0
  | _ => False
  end.

(** The errors that refusing a signal can cause. *)
Definition signal_error (e : exn) : Prop :=
  e = PermissionError \/ e = OtherOSError.

(** *** The tailer and whole lines *)

(** The text ends with a line feed. *)
Fixpoint ends_with_lf (s : string) : bool :=
  match s with
  | EmptyString => false
  | String c EmptyString => Ascii.eqb c Tailer.LF
  | String _ s' => ends_with_lf s'
  end.

(** The writer of the log writes whole lines: what it appends in one
    piece is empty or ends with a line feed. *)
Definition whole_lines (m : Tailer.move) : bool :=
  match m with
  | Tailer.Append EmptyString => true
  | Tailer.Append s => ends_with_lf s
  | _ => true
  end.

(** A write of the tailer that is one line, ended by its line feed, with
    the prefix in front. *)
Definition line_write (prefix out : string) : Prop :=
  exists line, out = Tailer.tag prefix line /\
               Tailer.chunk_ok line = true /\ ends_with_lf line = true.

(** Nothing or whole lines. *)
Definition lf_tail (r : string) : Prop :=
  r = EmptyString \/ ends_with_lf r = true.

(** What holds of an attached tailer while the writer writes whole
    lines: the part of the file not yet read is made of whole lines, and
    so is all that was written or is about to be. *)
Definition reads_whole_lines (prefix : string) (c : Tailer.config) : Prop :=
  match Tailer.attached c with
  | None => True
  | Some _ =>
      exists txt,
        Tailer.file c = Some txt /\
        (Tailer.pos c <= String.length txt)%nat /\
        lf_tail (Tailer.skip (Tailer.pos c) txt) /\
        Forall (line_write prefix) (Tailer.stdout c) /\
        match Tailer.at_pc c with
        | Tailer.AtWrite line => ends_with_lf line = true
        | _ => True
        end
  end.

End Footprint.

(** ** The main thread once the stack is up

    [main], lines 279 to 307: the stop flag is created, [handle_signal] is
    installed for [SIGINT] and [SIGTERM], the tailer threads are started,
    and the main thread sleeps half a second at a time until the flag is
    set; a [finally] clause sets the flag on every way out of the loop.
    The main thread is a machine that executes one statement per
    [Statement]; a [Signal] is a termination signal that arrives between
    two statements, and whose handler runs to its end in the main thread
    before the next statement, as Python runs signal handlers.  The
    tailer threads are the machine [Tailer]; the banner printed on
    standard output is not part of the world of the embedding. *)

Module Serve.

Import Script.

(** Program points, by line of [start.py]. *)
Inductive place :=
| InBanner          (* 293-300: start the tailer threads, print the banner *)
| InCheck           (* 303: while not stop_event.is_set() *)
| InSleep           (* 304: time.sleep(0.5) *)
| InFinally         (* 306: stop_event.set() *)
| InReturn          (* 307: return 0 *)
| Done (code : Z)   (* raise SystemExit(main()) *)
| Crashed (e : exn). (* an exception left main *)

Record state := {
  world : World;
  place_now : place;
}.

(** Line 279: the flag is new, and clear. *)
Definition init (w : World) : state :=
  {| world := with_stop false w; place_now := InBanner |}.

Definition advance (c : state) : state :=
  match place_now c with
  | InBanner => {| world := world c; place_now := InCheck |}
  | InCheck =>
      {| world := world c;
         place_now := if stop_event (world c) then InFinally else InSleep |}
  | InSleep =>
      {| world := snd (Sys.time_sleep 500 (world c)); place_now := InCheck |}
  | InFinally =>
      {| world := snd (stop_event_set (world c)); place_now := InReturn |}
  | InReturn => {| world := world c; place_now := Done 0 |}
  | Done _ | Crashed _ => c
  end.

(** The statements inside [try:]. *)
Definition in_try (l : place) : bool :=
  match l with
  | InCheck | InSleep => true
  | _ => false
  end.

(** A termination signal arrives: [handle_signal] runs; an exception
    that it raises leaves [main], through the [finally] clause when the
    main thread is inside [try:]. *)
Definition deliver (processes : list Popen) (c : state) : state :=
  match place_now c with
  | Done _ | Crashed _ => c
  | l =>
      match handle_signal processes (world c) with
      | (Ret _, w') => {| world := w'; place_now := l |}
      | (Raise e, w') =>
          {| world := if in_try l then snd (stop_event_set w') else w';
             place_now := Crashed e |}
      end
  end.

Inductive input :=
| Statement   (* the main thread executes its next statement *)
| Signal.     (* SIGINT or SIGTERM arrives *)

Definition react (processes : list Popen) (c : state) (m : input) : state :=
  match m with
  | Statement => advance c
  | Signal => deliver processes c
  end.

Definition play (processes : list Popen) (ms : list input) (c : state)
    : state :=
  foldl (react processes) c ms.

Definition ended (c : state) : bool :=
  match place_now c with
  | Done _ | Crashed _ => true
  | _ => false
  end.

(** The exit status of the script, once the main thread has ended. *)
Definition exit_code (c : state) : option Z :=
  match place_now c with
  | Done code => Some code
  | Crashed (SystemExit code) => Some code
  | Crashed _ => Some 1
  | _ => None
  end.

Definition is_signal (m : input) : bool :=
  match m with
  | Signal => true
  | Statement => false
  end.

(** What holds along every run: a flag that is set was set by a signal
    (when [signalled] is false, none has arrived) or by the [finally]
    clause; the main thread leaves the loop only with the flag set, and
    ends only with the flag set. *)
Definition flagged (signalled : bool) (c : state) : Prop :=
  match place_now c with
  | InBanner | InCheck | InSleep =>
      stop_event (world c) = true -> signalled = true
  | InFinally => stop_event (world c) = true /\ signalled = true
  | InReturn => stop_event (world c) = true /\ signalled = true
  | Done code =>
      code = 0 /\ stop_event (world c) = true /\ signalled = true
  | Crashed e =>
      (e = PermissionError \/ e = OtherOSError) /\
      stop_event (world c) = true /\ signalled = true
  end.

End Serve.

(** ** Further sample environments *)

Module Scenario.

(** A quiet system on which every command fails, as when the container
    runtime is not running. *)
Definition docker_down : Env :=
  {| lag := lag Sample.calm; kill_ans := kill_ans Sample.calm;
     pgrep_ans := pgrep_ans Sample.calm; popen_ans := popen_ans Sample.calm;
     popen_err := popen_err Sample.calm;
     run_ans := fun _ _ => false; waitpid_ans := waitpid_ans Sample.calm |}.

(** A quiet system on which [npm] is not installed: no child can be
    started. *)
Definition no_npm : Env :=
  {| lag := lag Sample.calm; kill_ans := kill_ans Sample.calm;
     pgrep_ans := pgrep_ans Sample.calm; popen_ans := fun _ _ => SpawnFailed;
     popen_err := fun _ _ => SpawnMissing;
     run_ans := run_ans Sample.calm; waitpid_ans := waitpid_ans Sample.calm |}.

(** A process that is alive whenever it is probed, accepts the graceful
    stop, and is gone when the forced kill arrives: it has exited during
    the last sleep of the wait loop. *)
Definition exits_late : Env :=
  Sample.with_kill
    (fun _ _ sig => match sig with SIGKILL => KillNoProcess | _ => KillOk end)
    Sample.calm.
(** The writer appends two lines in one piece, then a third, while the
    tailer runs. *)
Definition line_writer : list Tailer.move :=
  [Tailer.Create; Tailer.Tick; Tailer.Tick; Tailer.Tick;
   Tailer.Append ("one" +:+ Tailer.nl +:+ "two" +:+ Tailer.nl);
   Tailer.Tick; Tailer.Tick; Tailer.Tick; Tailer.Tick;
   Tailer.Append ("three" +:+ Tailer.nl);
   Tailer.Tick; Tailer.Tick; Tailer.Tick; Tailer.Tick; Tailer.Tick].

(** The main thread, two statements into serving one child on a system
    that accepts every signal. *)
Definition serving : Serve.state :=
  Serve.play [{| Script.pid := 4001 |}] [Serve.Statement; Serve.Statement]
    (Serve.init (Sample.boot Sample.stubborn [])).

End Scenario.

(** * Properties *)

Import PyText Script.

(** ** The embedding on small inputs *)

Example py_int_accepts :
  py_int " 4711 " = Some 4711 /\ py_int "-12" = Some (-12) /\
  py_int "+7" = Some 7 /\ py_int "007" = Some 7 /\ py_int "1_000" = Some 1000.
Proof. repeat split; reflexivity. Qed.

Example py_int_rejects :
  py_int "" = None /\ py_int "12a" = None /\ py_int "+" = None /\
  py_int "1__0" = None /\ py_int "_1" = None /\ py_int "1_" = None /\
  py_int "1 2" = None.
Proof. repeat split; reflexivity. Qed.

Example py_str_prints :
  py_str 0 = "0" /\ py_str 120 = "120" /\ py_str (-35) = "-35".
Proof. repeat split; reflexivity. Qed.

Example split_tokens : split " 12  345 6 " = ["12"; "345"; "6"].
Proof. reflexivity. Qed.

Example env_file_parses :
  parse_env Sample.convex_env_text !! "CONVEX_SERVICE_TOKEN" = Some "token" /\
  parse_env Sample.convex_env_text !! "# convex" = None /\
  parse_env "A=1=2" !! "A" = Some "1=2".
Proof. repeat split; vm_compute; reflexivity. Qed.

(** A process that ignores the graceful stop is polled for two seconds
    and then killed. *)
Example terminate_stubborn :
  deliveries (trace (snd (terminate_pid 12 2000 (Sample.boot Sample.stubborn []))))
  = [(12, SIGTERM); (12, SIGKILL)] /\
  clock (snd (terminate_pid 12 2000 (Sample.boot Sample.stubborn []))) = 2000.
Proof. split; vm_compute; reflexivity. Qed.

(** With a complete configuration and a quiet system, [main] starts the three
    services and records them. *)
Example main_starts_stack :
  fst (main Sample.default_args (Sample.boot Sample.calm Sample.config_files))
  = Ret (Serving [{| pid := 4021 |}; {| pid := 4024 |}; {| pid := 4027 |}]) /\
  fs (snd (main Sample.default_args
             (Sample.boot Sample.calm Sample.config_files))) !! "auth.pid"
  = Some "4024".
Proof. split; vm_compute; reflexivity. Qed.

(** ** Decimal text *)

Section Text.

Lemma digit_not_space c : is_ascii_digit c = true -> is_space c = false.
Proof.
  unfold is_ascii_digit, digit_val, is_space.
  destruct (48 <=? nat_of_ascii c)%nat eqn:H1; [|discriminate].
  destruct (nat_of_ascii c <=? 57)%nat eqn:H2; [|discriminate].
  intros _. apply Nat.leb_le in H1, H2.
  repeat match goal with
  | |- context [(?a <=? ?b)%nat] => destruct (Nat.leb_spec a b); try lia
  | |- context [(?a =? ?b)%nat] => destruct (Nat.eqb_spec a b); try lia
  end; reflexivity.
Qed.

Lemma rstrip_no_space s : all_chars (fun c => negb (is_space c)) s = true -> rstrip s = s.
Proof.
  induction s as [|c s IH]; [reflexivity|].
  simpl. intros H. apply andb_prop in H as [Hc Hs].
  rewrite (IH Hs). destruct s; [|reflexivity].
  apply negb_true_iff in Hc. rewrite Hc. reflexivity.
Qed.

Lemma lstrip_no_space s : all_chars (fun c => negb (is_space c)) s = true -> lstrip s = s.
Proof.
  destruct s as [|c s]; [reflexivity|]. simpl. intros H.
  apply andb_prop in H as [Hc _]. apply negb_true_iff in Hc. rewrite Hc. reflexivity.
Qed.

Lemma strip_no_space s : all_chars (fun c => negb (is_space c)) s = true -> strip s = s.
Proof.
  intros H. unfold strip. rewrite (lstrip_no_space s H). apply rstrip_no_space, H.
Qed.

Lemma uint_digits d : all_chars is_ascii_digit (NilEmpty.string_of_uint d) = true.
Proof. induction d; simpl; auto. Qed.

Lemma all_chars_impl (P Q : ascii -> bool) s :
  (forall c, P c = true -> Q c = true) -> all_chars P s = true -> all_chars Q s = true.
Proof.
  intros HPQ. induction s as [|c s IH]; [reflexivity|]. simpl.
  intros H. apply andb_prop in H as [Hc Hs]. rewrite (HPQ c Hc), (IH Hs). reflexivity.
Qed.

(** One digit of [parse_digits] on the text of a decimal number. *)
Ltac parse_digit :=
  cbn [NilEmpty.string_of_uint parse_digits Pos.of_uint Pos.of_uint_acc];
  match goal with
  | |- context [digit_val ?c] =>
      change (digit_val c) with (Some (Z.of_nat (nat_of_ascii c - 48)))
  end;
  cbv iota beta.

Lemma parse_uint_acc d : forall acc prev,
  d <> Decimal.Nil \/ prev = true ->
  parse_digits prev (Z.pos acc) (NilEmpty.string_of_uint d)
  = Some (Z.pos (Pos.of_uint_acc d acc)).
Proof.
  induction d; intros acc prev Hne;
    try (parse_digit;
         match goal with
         | |- parse_digits true ?v _ = Some (Z.pos (Pos.of_uint_acc _ ?a)) =>
             replace v with (Z.pos a)
               by (simpl nat_of_ascii; simpl Z.of_nat; lia)
         end;
         apply IHd; right; reflexivity).
  simpl. destruct Hne as [Hne | ->]; [congruence | reflexivity].
Qed.

Lemma parse_uint d : forall prev,
  d <> Decimal.Nil \/ prev = true ->
  parse_digits prev 0 (NilEmpty.string_of_uint d) = Some (Z.of_N (Pos.of_uint d)).
Proof.
  induction d; intros prev Hne;
    try (parse_digit;
         match goal with
         | |- parse_digits true ?v _
              = Some (Z.of_N (N.pos (Pos.of_uint_acc _ ?a))) =>
             change v with (Z.pos a);
             rewrite parse_uint_acc by (right; reflexivity); reflexivity
         | |- _ => apply IHd; right; reflexivity
         end).
  simpl. destruct Hne as [Hne | ->]; [congruence | reflexivity].
Qed.

Lemma py_str_unsigned p :
  NilZero.string_of_uint (Pos.to_uint p) = NilEmpty.string_of_uint (Pos.to_uint p).
Proof.
  unfold NilZero.string_of_uint.
  destruct (Pos.to_uint p) eqn:E; try reflexivity.
  exfalso. exact (Unsigned.to_uint_nonnil p E).
Qed.

Lemma py_str_no_space n : all_chars (fun c => negb (is_space c)) (py_str n) = true.
Proof.
  assert (Hd : forall d, all_chars (fun c => negb (is_space c))
                           (NilEmpty.string_of_uint d) = true).
  { intros d. apply (all_chars_impl is_ascii_digit); [|apply uint_digits].
    intros c Hc. rewrite (digit_not_space c Hc). reflexivity. }
  unfold py_str. destruct n as [|p|p]; cbn [Z.to_int NilZero.string_of_int].
  - reflexivity.
  - rewrite py_str_unsigned. apply Hd.
  - rewrite py_str_unsigned. cbn [all_chars]. rewrite Hd. reflexivity.
Qed.

Lemma strip_py_str n : strip (py_str n) = py_str n.
Proof. apply strip_no_space, py_str_no_space. Qed.

Lemma uint_head_digit d c r :
  NilEmpty.string_of_uint d = String c r -> is_ascii_digit c = true.
Proof. destruct d; simpl; intros H; inversion H; reflexivity. Qed.

Lemma py_int_py_str n : py_int (py_str n) = Some n.
Proof.
  unfold py_int. rewrite strip_py_str. unfold py_str.
  destruct n as [|p|p]; cbn [Z.to_int NilZero.string_of_int].
  - reflexivity.
  - rewrite py_str_unsigned.
    assert (Hp : parse_digits false 0 (NilEmpty.string_of_uint (Pos.to_uint p))
                 = Some (Z.pos p)).
    { rewrite parse_uint by (left; apply Unsigned.to_uint_nonnil).
      rewrite Unsigned.of_to. reflexivity. }
    destruct (NilEmpty.string_of_uint (Pos.to_uint p)) as [|c r] eqn:E; [exact Hp|].
    pose proof (uint_head_digit _ _ _ E) as Hc.
    destruct (Ascii.eqb_spec c "+") as [->|H1]; [discriminate Hc|].
    destruct (Ascii.eqb_spec c "-") as [->|H2]; [discriminate Hc|].
    destruct c as [[] [] [] [] [] [] [] []]; try exact Hp; congruence.
  - rewrite py_str_unsigned.
    rewrite parse_uint by (left; apply Unsigned.to_uint_nonnil).
    rewrite Unsigned.of_to. reflexivity.
Qed.

End Text.

(** ** Terminator *)

Section Terminator.

Lemma trace_log e w : trace (log e w) = trace w ++ [e].
Proof. reflexivity. Qed.

Lemma trace_call ms w : trace (call ms w) = trace w.
Proof. reflexivity. Qed.

Lemma pid_exists_spec p w :
  pid_exists p w =
  (let a := kill_ans (env w) (tick w) p SIG0 in
   (match a with
    | KillOk | KillDenied => Ret true
    | KillNoProcess => Ret false
    | KillFailed => Raise OtherOSError
    end, log (EvKill p SIG0 a) (call 0 w))).
Proof.
  unfold pid_exists, try_except, bind, Sys.os_kill, ret. simpl.
  destruct (kill_ans (env w) (tick w) p SIG0); reflexivity.
Qed.

Lemma wait_spec_round p start timeout now a d r :
  now - start < timeout -> alive_answer a = true ->
  wait_spec p start timeout d r ->
  wait_spec p start timeout (EvTime now :: EvKill p SIG0 a :: EvSleep 100 :: d) r.
Proof.
  intros Hlt Ha (rs & now' & Hrs & Hc).
  exists ((now, a) :: rs), now'. split.
  - constructor; [split; assumption | assumption].
  - unfold rounds. cbn [fmap list_fmap concat poll_round fst snd app].
    fold (rounds p rs).
    destruct Hc as [(-> & ? & ->) | [(-> & ? & ->) | (-> & ? & ->)]]; auto 10.
Qed.

Lemma wait_loop_trace n p start timeout : forall w r w',
  wait_loop n p start timeout w = (r, w') ->
  r <> Raise Diverged ->
  exists d, trace w' = trace w ++ d /\ wait_spec p start timeout d r.
Proof.
  induction n as [|n IH]; intros w r w' Hrun Hnd.
  - simpl in Hrun. inversion Hrun; subst. congruence.
  - cbn [wait_loop] in Hrun. unfold bind at 1 in Hrun.
    unfold Sys.time_time at 1 in Hrun.
    set (w1 := log (EvTime (clock (call 0 w))) (call 0 w)) in *.
    set (now := clock (call 0 w)) in *.
    destruct (now - start <? timeout) eqn:Hlt.
    + apply Z.ltb_lt in Hlt.
      unfold bind at 1 in Hrun. rewrite pid_exists_spec in Hrun. cbn zeta in Hrun.
      set (a := kill_ans (env w1) (tick w1) p SIG0) in *.
      set (w2 := log (EvKill p SIG0 a) (call 0 w1)) in *.
      assert (Hw2 : trace w2 = trace w ++ [EvTime now; EvKill p SIG0 a]).
      { subst w2 w1. simpl. rewrite <- app_assoc. reflexivity. }
      destruct a eqn:Ha; cbn [negb] in Hrun.
      * unfold bind at 1 in Hrun. unfold Sys.time_sleep at 1 in Hrun.
        set (w3 := log (EvSleep 100) (call 100 w2)) in *.
        destruct (IH w3 r w' Hrun Hnd) as (d & Htr & Hspec).
        exists (EvTime now :: EvKill p SIG0 KillOk :: EvSleep 100 :: d). split.
        { rewrite Htr. subst w3. rewrite trace_log, trace_call, Hw2.
          rewrite <- !app_assoc. reflexivity. }
        apply wait_spec_round; auto.
      * inversion Hrun; subst r w'. eexists. split; [exact Hw2|].
        exists [], now. split; [constructor|]. right; left. auto.
      * unfold bind at 1 in Hrun. unfold Sys.time_sleep at 1 in Hrun.
        set (w3 := log (EvSleep 100) (call 100 w2)) in *.
        destruct (IH w3 r w' Hrun Hnd) as (d & Htr & Hspec).
        exists (EvTime now :: EvKill p SIG0 KillDenied :: EvSleep 100 :: d). split.
        { rewrite Htr. subst w3. rewrite trace_log, trace_call, Hw2.
          rewrite <- !app_assoc. reflexivity. }
        apply wait_spec_round; auto.
      * inversion Hrun; subst r w'. eexists. split; [exact Hw2|].
        exists [], now. split; [constructor|]. right; right. auto.
    + apply Z.ltb_ge in Hlt. inversion Hrun; subst r w'.
      exists [EvTime now]. split; [reflexivity|].
      exists [], now. split; [constructor|]. left. auto.
Qed.

(** The loop is over before its iteration bound. *)
Lemma wait_loop_finishes n p start timeout : forall w,
  timeout - (clock w - start) <= 100 * (Z.of_nat n - 1) ->
  (0 < n)%nat ->
  fst (wait_loop n p start timeout w) <> Raise Diverged.
Proof.
  induction n as [|n IH]; intros w Hb Hn; [lia|].
  cbn [wait_loop]. unfold bind at 1. unfold Sys.time_time at 1.
  set (w1 := log (EvTime (clock (call 0 w))) (call 0 w)).
  assert (Hc1 : clock w <= clock (call 0 w)) by (simpl; lia).
  destruct (clock (call 0 w) - start <? timeout) eqn:Hlt.
  - apply Z.ltb_lt in Hlt.
    unfold bind at 1. rewrite pid_exists_spec. cbn zeta.
    set (a := kill_ans (env w1) (tick w1) p SIG0).
    set (w2 := log (EvKill p SIG0 a) (call 0 w1)).
    assert (Hc2 : clock (call 0 w) <= clock w2) by (subst w2 w1; simpl; lia).
    destruct a; cbn [negb]; try (simpl; congruence).
    + unfold bind at 1. unfold Sys.time_sleep at 1.
      apply IH; [simpl; fold w2; lia | lia].
    + unfold bind at 1. unfold Sys.time_sleep at 1.
      apply IH; [simpl; fold w2; lia | lia].
  - simpl. congruence.
Qed.

Lemma terminate_pid_unfold p timeout w :
  terminate_pid p timeout w =
  let a0 := kill_ans (env w) (tick w) p SIG0 in
  let w1 := log (EvKill p SIG0 a0) (call 0 w) in
  if alive_answer a0 then
    let a1 := kill_ans (env w1) (tick w1) p SIGTERM in
    let w2 := log (EvKill p SIGTERM a1) (call 0 w1) in
    match a1 with
    | KillOk =>
        let start := clock (call 0 w2) in
        let w3 := log (EvTime start) (call 0 w2) in
        match wait_loop (wait_bound timeout) p start timeout w3 with
        | (Ret true, w4) => (Ret tt, w4)
        | (Ret false, w4) =>
            let a2 := kill_ans (env w4) (tick w4) p SIGKILL in
            (match a2 with KillNoProcess => Ret tt | _ => kill_outcome a2 end,
             log (EvKill p SIGKILL a2) (call 0 w4))
        | (Raise e, w4) => (Raise e, w4)
        end
    | KillNoProcess => (Ret tt, w2)
    | _ => (kill_outcome a1, w2)
    end
  else (match a0 with KillNoProcess => Ret tt | _ => kill_outcome a0 end, w1).
Proof.
  unfold terminate_pid. unfold bind at 1. rewrite pid_exists_spec. cbn zeta.
  destruct (kill_ans (env w) (tick w) p SIG0) eqn:Ha0; cbn [alive_answer negb];
    try reflexivity.
  all: unfold bind at 1; unfold try_except at 1; unfold bind at 1;
    unfold Sys.os_kill at 1; cbn zeta;
    match goal with |- context [kill_ans ?e ?t ?q SIGTERM] =>
      destruct (kill_ans e t q SIGTERM) eqn:Ha1 end; cbn [negb ret kill_outcome]; try reflexivity.
  all: unfold bind at 1; unfold Sys.time_time at 1; unfold bind at 1;
    match goal with |- context [wait_loop ?n ?q ?s ?tm ?w3] =>
      destruct (wait_loop n q s tm w3) as [[[|]|e] w4] end; try reflexivity.
  all: unfold try_except, Sys.os_kill; cbn zeta;
    match goal with |- context [kill_ans ?e ?t ?q SIGKILL] =>
      destruct (kill_ans e t q SIGKILL) end; reflexivity.
Qed.

Lemma terminate_pid_finishes p timeout w :
  fst (terminate_pid p timeout w) <> Raise Diverged.
Proof.
  rewrite terminate_pid_unfold. cbn zeta.
  destruct (alive_answer _).
  2:{ destruct (kill_ans (env w) (tick w) p SIG0); simpl; congruence. }
  match goal with |- context [kill_ans ?e ?t ?q SIGTERM] =>
      destruct (kill_ans e t q SIGTERM) end; try (simpl; congruence).
  match goal with |- context [wait_loop ?n ?q ?s ?tm ?w3] =>
    pose proof (wait_loop_finishes n q s tm w3) as Hf;
    destruct (wait_loop n q s tm w3) as [[[|]|e] w4] end.
  - simpl; congruence.
  - match goal with |- context [kill_ans ?e ?t ?q SIGKILL] =>
      destruct (kill_ans e t q SIGKILL) end; simpl; congruence.
  - simpl in *. intros Heq. apply Hf; [| |congruence].
    + unfold wait_bound.
      assert (H100 := Z.mod_pos_bound timeout 100 ltac:(lia)).
      assert (Hd := Z.div_mod timeout 100 ltac:(lia)).
      destruct (Z.le_gt_cases 0 timeout).
      * assert (0 <= timeout / 100) by (apply Z.div_pos; lia).
        rewrite Nat2Z.inj_add, Z2Nat.id by lia. lia.
      * rewrite Nat2Z.inj_add. lia.
    + unfold wait_bound. lia.
Qed.

Lemma deliveries_app a b : deliveries (a ++ b) = deliveries a ++ deliveries b.
Proof.
  induction a as [|e a IH]; [reflexivity|].
  destruct e; simpl; try exact IH. destruct sig; simpl; rewrite IH; reflexivity.
Qed.

Lemma deliveries_rounds p rs : deliveries (rounds p rs) = [].
Proof.
  induction rs as [|r rs IH]; [reflexivity|].
  unfold rounds in *. simpl. exact IH.
Qed.

Lemma escalation_deliveries p timeout d r :
  escalation p timeout d r ->
  deliveries d = [(p, SIGTERM)] \/ deliveries d = [(p, SIGTERM); (p, SIGKILL)].
Proof.
  intros H. destruct H; simpl; rewrite ?deliveries_app, ?deliveries_rounds; simpl; auto.
Qed.

(** C3. On an identifier that is not alive, that is, when [pid_exists]
    returns [False], [terminate_pid] returns at once: its only effect is
    the probe itself, and it asks for no signal to be delivered.  The
    probe counts a process as alive both when signal 0 is accepted and
    when it is refused for lack of permission. *)
Theorem terminate_pid_not_alive p timeout w :
  fst (pid_exists p w) = Ret false ->
  terminate_pid p timeout w = (Ret tt, snd (pid_exists p w)) /\
  trace (snd (terminate_pid p timeout w)) = trace w ++ [EvKill p SIG0 KillNoProcess] /\
  deliveries (trace (snd (terminate_pid p timeout w))) = deliveries (trace w) /\
  (forall p' w', fst (pid_exists p' w') =
     match kill_ans (env w') (tick w') p' SIG0 with
     | KillOk | KillDenied => Ret true
     | KillNoProcess => Ret false
     | KillFailed => Raise OtherOSError
     end).
Proof.
  intros Hdead. rewrite terminate_pid_unfold. rewrite pid_exists_spec in *.
  cbn zeta in *. cbn [fst snd] in *.
  destruct (kill_ans (env w) (tick w) p SIG0) eqn:Ha; try discriminate.
  cbn [alive_answer fst snd]. rewrite trace_log, trace_call, deliveries_app.
  simpl. rewrite app_nil_r. repeat split.
  intros p' w'. rewrite pid_exists_spec. reflexivity.
Qed.

(** X25. The traces of [terminate_pid] on any system.  On an identifier
    found alive, whatever the system answers, the trace of
    [terminate_pid] is one of the five shapes of [escalation], with the
    outcome that goes with it.  The process is gone when the graceful
    stop arrives, and the call returns.  The graceful stop is refused,
    and the call raises that error at once, [PermissionError] or another
    [OSError], without a poll and without a forced kill.  A poll finds
    the process gone, and the call returns.  A poll fails, and the call
    raises.  Or the clock reaches the timeout with every poll before it
    having found the process alive, and the forced kill is sent, whose
    refusal is raised.  The signals asked for are the graceful stop
    alone, or the graceful stop followed by the forced kill, and the
    call always comes to an end. *)
Theorem terminate_pid_escalation p timeout w :
  fst (pid_exists p w) = Ret true ->
  exists d,
    trace (snd (terminate_pid p timeout w)) = trace w ++ d /\
    escalation p timeout d (fst (terminate_pid p timeout w)) /\
    (deliveries d = [(p, SIGTERM)] \/
     deliveries d = [(p, SIGTERM); (p, SIGKILL)]) /\
    fst (terminate_pid p timeout w) <> Raise Diverged.
Proof.
  intros Halive.
  assert (Hfin := terminate_pid_finishes p timeout w).
  cut (exists d, trace (snd (terminate_pid p timeout w)) = trace w ++ d /\
                 escalation p timeout d (fst (terminate_pid p timeout w))).
  { intros (d & Htr & Hesc). exists d. split; [exact Htr|]. split; [exact Hesc|].
    split; [eapply escalation_deliveries; eauto | exact Hfin]. }
  revert Hfin. rewrite terminate_pid_unfold. rewrite pid_exists_spec in Halive.
  cbn zeta in *. cbn [fst] in Halive.
  set (a0 := kill_ans (env w) (tick w) p SIG0) in *.
  assert (Ha0 : alive_answer a0 = true) by (destruct a0; simpl; congruence).
  rewrite Ha0.
  set (w1 := log (EvKill p SIG0 a0) (call 0 w)).
  set (a1 := kill_ans (env w1) (tick w1) p SIGTERM).
  set (w2 := log (EvKill p SIGTERM a1) (call 0 w1)).
  assert (Hw2 : trace w2 = trace w ++ [EvKill p SIG0 a0; EvKill p SIGTERM a1]).
  { subst w2 w1. cbn [trace log call]. rewrite <- app_assoc. reflexivity. }
  destruct a1 eqn:Ha1.
  - set (start := clock (call 0 w2)).
    set (w3 := log (EvTime start) (call 0 w2)).
    destruct (wait_loop (wait_bound timeout) p start timeout w3) as [r w4] eqn:Hw.
    intros Hfin.
    assert (Hnd : r <> Raise Diverged).
    { destruct r as [[|]|e]; try congruence. simpl in Hfin. congruence. }
    destruct (wait_loop_trace _ _ _ _ _ _ _ Hw Hnd) as (d & Htr & rs & now & Hrs & Hc).
    assert (Hw4 : trace w4 = trace w ++ [EvKill p SIG0 a0; EvKill p SIGTERM KillOk; EvTime start] ++ d).
    { rewrite Htr. subst w3. rewrite trace_log, trace_call, Hw2, <- !app_assoc. reflexivity. }
    destruct Hc as [(-> & Hto & ->) | [(-> & Hlt & ->) | (-> & Hlt & ->)]].
    + eexists. split.
      * cbn [snd]. rewrite trace_log, trace_call, Hw4. rewrite <- !app_assoc. reflexivity.
      * cbn [fst]. simpl app.
        apply (esc_forced p timeout a0 start rs now); auto.
    + eexists. split; [exact Hw4|]. apply esc_stopped; auto.
    + eexists. split; [exact Hw4|]. apply esc_probe_failed; auto.
  - intros _. eexists. split; [exact Hw2|]. apply esc_vanished; auto.
  - intros _. eexists. split; [exact Hw2|]. apply (esc_refused p timeout a0 KillDenied); auto.
  - intros _. eexists. split; [exact Hw2|]. apply (esc_refused p timeout a0 KillFailed); auto.
Qed.

Lemma wait_loop_alive n p start timeout : forall w r w',
  signals_accepted (env w) ->
  wait_loop n p start timeout w = (r, w') ->
  r <> Raise Diverged ->
  env w' = env w /\
  exists d rs now,
    trace w' = trace w ++ d /\
    Forall (round_alive start timeout) rs /\
    ((r = Ret false /\ timeout <= now - start /\
      d = rounds p rs ++ [EvTime now]) \/
     (r = Ret true /\ now - start < timeout /\
      d = rounds p rs ++ [EvTime now; EvKill p SIG0 KillNoProcess])).
Proof.
  induction n as [|n IH]; intros w r w' Hacc Hrun Hnd.
  - cbn in Hrun. inversion Hrun; subst. congruence.
  - cbn [wait_loop] in Hrun. unfold bind at 1 in Hrun.
    unfold Sys.time_time at 1 in Hrun.
    set (now := clock (call 0 w)) in *.
    set (w1 := log (EvTime now) (call 0 w)) in *.
    destruct (now - start <? timeout) eqn:Hlt.
    + apply Z.ltb_lt in Hlt.
      unfold bind at 1 in Hrun. rewrite pid_exists_spec in Hrun. cbn zeta in Hrun.
      set (a := kill_ans (env w1) (tick w1) p SIG0) in *.
      set (w2 := log (EvKill p SIG0 a) (call 0 w1)) in *.
      assert (Hw2 : trace w2 = trace w ++ [EvTime now; EvKill p SIG0 a]).
      { subst w2 w1. cbn [trace log call]. rewrite <- app_assoc. reflexivity. }
      assert (Hok : a = KillOk \/ a = KillNoProcess) by exact (Hacc (tick w1) p SIG0).
      destruct a eqn:Ha; cbn [negb] in Hrun;
        [| |destruct Hok; discriminate|destruct Hok; discriminate].
      * unfold bind at 1 in Hrun. unfold Sys.time_sleep at 1 in Hrun.
        set (w3 := log (EvSleep 100) (call 100 w2)) in *.
        destruct (IH w3 r w' Hacc Hrun Hnd) as (He & d & rs & now' & Htr & Hrs & Hc).
        split; [exact He|].
        exists (EvTime now :: EvKill p SIG0 KillOk :: EvSleep 100 :: d),
               ((now, KillOk) :: rs), now'.
        split.
        { rewrite Htr. subst w3. rewrite trace_log, trace_call, Hw2.
          rewrite <- !app_assoc. reflexivity. }
        split; [constructor; [split; [exact Hlt | reflexivity] | exact Hrs]|].
        unfold rounds. cbn [fmap list_fmap concat poll_round fst snd app].
        fold (rounds p rs).
        destruct Hc as [(-> & ? & ->) | (-> & ? & ->)]; auto.
      * inversion Hrun; subst r w'. split; [reflexivity|].
        exists [EvTime now; EvKill p SIG0 KillNoProcess], [], now.
        split; [exact Hw2|]. split; [constructor|]. right. auto.
    + apply Z.ltb_ge in Hlt. inversion Hrun; subst r w'. split; [reflexivity|].
      exists [EvTime now], [], now. split; [reflexivity|].
      split; [constructor|]. left. auto.
Qed.

Lemma graceful_then_forced_deliveries p timeout d :
  graceful_then_forced p timeout d ->
  deliveries d = [(p, SIGTERM)] \/ deliveries d = [(p, SIGTERM); (p, SIGKILL)].
Proof.
  intros H. destruct H; cbn [app deliveries];
    rewrite ?deliveries_app, ?deliveries_rounds; cbn [app deliveries]; auto.
Qed.

(** C2, as amended.  On an identifier found alive, by a system that
    refuses none of the signals of the script, [terminate_pid] returns
    normally and its trace follows [graceful_then_forced]: the
    graceful-stop signal is sent first, directly after the probe; if it
    is delivered, the process is polled in rounds that each end with a
    sleep of 100 ms, as long as the clock reads less than [timeout]
    after the first reading; the call returns as soon as a poll finds
    the process gone; the forced-kill signal is sent only as the last
    step, after a clock reading that has reached the timeout and with
    every poll before it having found the process alive.  No poll is
    made at that moment: a process that exits during the last sleep is
    still sent the forced kill, which finds no process and is ignored.
    The signals asked for are the graceful stop alone, or the graceful
    stop followed by the forced kill, never the reverse. *)
Theorem terminate_pid_protocol p timeout w :
  signals_accepted (env w) ->
  fst (pid_exists p w) = Ret true ->
  fst (terminate_pid p timeout w) = Ret tt /\
  exists d,
    trace (snd (terminate_pid p timeout w)) = trace w ++ d /\
    graceful_then_forced p timeout d /\
    (deliveries d = [(p, SIGTERM)] \/
     deliveries d = [(p, SIGTERM); (p, SIGKILL)]).
Proof.
  intros Hacc Halive.
  assert (Hfin := terminate_pid_finishes p timeout w).
  cut (fst (terminate_pid p timeout w) = Ret tt /\
       exists d, trace (snd (terminate_pid p timeout w)) = trace w ++ d /\
                 graceful_then_forced p timeout d).
  { intros (Hr & d & Htr & Hg). split; [exact Hr|]. exists d.
    split; [exact Htr|]. split; [exact Hg|].
    eapply graceful_then_forced_deliveries, Hg. }
  revert Hfin. rewrite terminate_pid_unfold. rewrite pid_exists_spec in Halive.
  cbn zeta in *. cbn [fst] in Halive.
  destruct (Hacc (tick w) p SIG0) as [Ha0 | Ha0]; rewrite Ha0 in *;
    [|discriminate Halive].
  cbn [alive_answer].
  set (w1 := log (EvKill p SIG0 KillOk) (call 0 w)).
  set (w2 := fun a1 => log (EvKill p SIGTERM a1) (call 0 w1)).
  assert (Hw2 : forall a1,
    trace (w2 a1) = trace w ++ [EvKill p SIG0 KillOk; EvKill p SIGTERM a1]).
  { intros a1. subst w2 w1. cbn [trace log call]. rewrite <- app_assoc. reflexivity. }
  destruct (Hacc (tick w1) p SIGTERM) as [Ha1 | Ha1];
    change (env w1) with (env w); rewrite Ha1.
  2:{ intros _. split; [reflexivity|]. eexists. split; [exact (Hw2 _)|].
      apply gtf_vanished. }
  fold (w2 KillOk).
  set (start := clock (call 0 (w2 KillOk))).
  set (w3 := log (EvTime start) (call 0 (w2 KillOk))).
  destruct (wait_loop (wait_bound timeout) p start timeout w3) as [r w4] eqn:Hw.
  intros Hfin.
  assert (Hnd : r <> Raise Diverged).
  { destruct r as [[|]|e]; try congruence. cbn in Hfin. congruence. }
  destruct (wait_loop_alive _ _ _ _ w3 _ _ Hacc Hw Hnd)
    as (He & d & rs & now & Htr & Hrs & Hc).
  assert (Hw4 : trace w4
    = trace w ++ [EvKill p SIG0 KillOk; EvKill p SIGTERM KillOk; EvTime start] ++ d).
  { rewrite Htr. subst w3. rewrite trace_log, trace_call, Hw2, <- !app_assoc.
    reflexivity. }
  destruct Hc as [(-> & Hto & ->) | (-> & Hlt & ->)].
  - cbn [fst snd]. rewrite trace_log, trace_call, Hw4.
    destruct (Hacc (tick w4) p SIGKILL) as [Ha2 | Ha2];
      rewrite He; change (env w3) with (env w); rewrite Ha2;
      (split; [reflexivity|]); eexists;
      (split; [rewrite <- !app_assoc; reflexivity|]);
      cbn [app]; apply (gtf_forced p timeout start rs now); auto.
  - cbn [fst snd]. split; [reflexivity|]. eexists. split; [exact Hw4|].
    apply gtf_stopped; auto.
Qed.

(** C2, as stated, fails.  In the first run the process is alive at
    every poll, the last one 1900 ms after the graceful stop, and exits
    during the sleep that follows.  At 2000 ms the loop is over and the
    forced kill is sent without a further poll: it is sent to a process
    that is not alive at the timeout, and finds none.  In the second run
    the process belongs to someone else: the probe counts it as alive,
    the graceful stop is refused, and the call ends there with
    [PermissionError], without a single poll. *)
Lemma terminate_pid_kills_after_exit :
  let w := Sample.boot Scenario.exits_late [] in
  let v := Sample.boot Sample.foreign [] in
  fst (pid_exists 12 w) = Ret true /\
  fst (terminate_pid 12 2000 w) = Ret tt /\
  drop 60 (trace (snd (terminate_pid 12 2000 w)))
  = [EvTime 1900; EvKill 12 SIG0 KillOk; EvSleep 100;
     EvTime 2000; EvKill 12 SIGKILL KillNoProcess] /\
  ~ forced_kill_finds_process 12 (trace (snd (terminate_pid 12 2000 w))) /\
  fst (pid_exists 1 v) = Ret true /\
  fst (terminate_pid 1 2000 v) = Raise PermissionError /\
  trace (snd (terminate_pid 1 2000 v))
  = [EvKill 1 SIG0 KillDenied; EvKill 1 SIGTERM KillDenied].
Proof.
  cbv zeta. split; [reflexivity|]. split; [vm_compute; reflexivity|].
  split; [vm_compute; reflexivity|]. split.
  - intros H. apply (H KillNoProcess); [|reflexivity].
    vm_compute. do 64 right. left. reflexivity.
  - repeat split; vm_compute; reflexivity.
Qed.

End Terminator.

(** ** Registry *)

Section Registry.

(** [terminate_pid] leaves the file system alone. *)
Lemma wait_loop_fs n p start timeout : forall w,
  fs (snd (wait_loop n p start timeout w)) = fs w.
Proof.
  induction n as [|n IH]; intros w; [reflexivity|].
  cbn [wait_loop]. unfold bind at 1. unfold Sys.time_time at 1.
  destruct (_ <? timeout); [|reflexivity].
  unfold bind at 1. rewrite pid_exists_spec. cbn zeta.
  match goal with |- context [kill_ans ?e ?t ?q SIG0] =>
    destruct (kill_ans e t q SIG0) end; cbn [negb]; try reflexivity.
  all: unfold bind at 1; unfold Sys.time_sleep at 1; rewrite IH; reflexivity.
Qed.

Lemma terminate_pid_fs p timeout w :
  fs (snd (terminate_pid p timeout w)) = fs w.
Proof.
  rewrite terminate_pid_unfold. cbn zeta.
  destruct (alive_answer _); [|reflexivity].
  match goal with |- context [kill_ans ?e ?t ?q SIGTERM] =>
    destruct (kill_ans e t q SIGTERM) end; try reflexivity.
  match goal with |- context [wait_loop ?n ?q ?s ?tm ?w3] =>
    pose proof (wait_loop_fs n q s tm w3) as Hf;
    destruct (wait_loop n q s tm w3) as [[[|]|e] w4] end; cbn [snd] in *;
    rewrite ?Hf; try reflexivity.
  cbn [fs log call]. rewrite Hf. reflexivity.
Qed.

Lemma read_pid_spec path w txt :
  fs w !! path = Some txt ->
  read_pid path w = (Ret (py_int (strip txt)), call 0 w).
Proof.
  intros Hf. unfold read_pid, try_except, bind, Sys.read_text. rewrite Hf.
  destruct (py_int (strip txt)); reflexivity.
Qed.

Lemma clear_marker_spec path w :
  fst (clear_marker path w) = Ret tt /\
  fs (snd (clear_marker path w)) !! path = None /\
  (forall txt, fs w !! path = Some txt ->
     trace (snd (clear_marker path w)) = trace w ++ [EvUnlink path]).
Proof.
  unfold clear_marker, try_except, Sys.unlink.
  destruct (fs w !! path) eqn:Hf; cbn [fst snd].
  - cbn [fs log with_fs]. rewrite lookup_delete_eq. auto.
  - cbn. split; [reflexivity|]. split; [exact Hf|]. intros; discriminate.
Qed.

Lemma kill_pidfile_unfold path w txt :
  fs w !! path = Some txt ->
  kill_pidfile path w =
  let w2 := call 0 (call 0 w) in
  match py_int (strip txt) with
  | Some n =>
      if negb (n =? 0) then
        match terminate_pid n default_timeout w2 with
        | (Ret _, w3) => clear_marker path w3
        | (Raise e, w3) => (Raise e, w3)
        end
      else clear_marker path w2
  | None => clear_marker path w2
  end.
Proof.
  intros Hf. unfold kill_pidfile. unfold bind at 1. unfold Sys.path_exists at 1.
  rewrite bool_decide_eq_true_2 by (rewrite Hf; eauto). cbn [negb].
  unfold bind at 1. rewrite (read_pid_spec path (call 0 w) txt) by exact Hf.
  cbn zeta. destruct (py_int (strip txt)) as [n|]; [|reflexivity].
  destruct (negb (n =? 0)); [|reflexivity].
  unfold bind at 1. destruct (terminate_pid n default_timeout _) as [[[]|e] w3]; reflexivity.
Qed.

(** Whether the marker survives is decided by [terminate_pid] alone. *)
Lemma kill_pidfile_cases path w txt :
  fs w !! path = Some txt ->
  (fst (kill_pidfile path w) = Ret tt /\
   fs (snd (kill_pidfile path w)) !! path = None) \/
  (exists n e,
     py_int (strip txt) = Some n /\ n <> 0 /\
     fst (terminate_pid n default_timeout (call 0 (call 0 w))) = Raise e /\
     fst (kill_pidfile path w) = Raise e /\
     fs (snd (kill_pidfile path w)) !! path = Some txt).
Proof.
  intros Hf. rewrite (kill_pidfile_unfold path w txt Hf). cbn zeta.
  destruct (py_int (strip txt)) as [n|].
  2:{ left. destruct (clear_marker_spec path (call 0 (call 0 w))) as (? & ? & _); auto. }
  destruct (Z.eqb_spec n 0) as [->|Hn]; cbn [negb].
  { left. destruct (clear_marker_spec path (call 0 (call 0 w))) as (? & ? & _); auto. }
  pose proof (terminate_pid_fs n default_timeout (call 0 (call 0 w))) as Hfs.
  destruct (terminate_pid n default_timeout _) as [[[]|e] w3] eqn:Ht; cbn [fst snd] in *.
  - left. destruct (clear_marker_spec path w3) as (? & ? & _); auto.
  - right. exists n, e. rewrite Hfs. cbn [fs call]. repeat split; auto.
    rewrite Ht. reflexivity.
Qed.

Lemma kill_pidfile_malformed path w txt :
  fs w !! path = Some txt ->
  py_int (strip txt) = None ->
  fst (kill_pidfile path w) = Ret tt /\
  fs (snd (kill_pidfile path w)) !! path = None /\
  trace (snd (kill_pidfile path w)) = trace w ++ [EvUnlink path].
Proof.
  intros Hf Hp. rewrite (kill_pidfile_unfold path w txt Hf), Hp. cbn zeta.
  destruct (clear_marker_spec path (call 0 (call 0 w))) as (H1 & H2 & H3).
  repeat split; auto. apply (H3 txt). exact Hf.
Qed.

Lemma kill_pidfile_dead path w txt n :
  fs w !! path = Some txt ->
  py_int (strip txt) = Some n -> n <> 0 ->
  kill_ans (env w) (S (S (tick w))) n SIG0 = KillNoProcess ->
  fst (kill_pidfile path w) = Ret tt /\
  fs (snd (kill_pidfile path w)) !! path = None /\
  trace (snd (kill_pidfile path w))
  = trace w ++ [EvKill n SIG0 KillNoProcess; EvUnlink path].
Proof.
  intros Hf Hp Hn Hk. rewrite (kill_pidfile_unfold path w txt Hf), Hp. cbn zeta.
  destruct (Z.eqb_spec n 0) as [|_]; [contradiction|]. cbn [negb].
  rewrite terminate_pid_unfold. cbn zeta. cbn [env tick call]. rewrite Hk.
  cbn [alive_answer].
  set (w3 := log _ _).
  destruct (clear_marker_spec path w3) as (H1 & H2 & H3).
  repeat split; auto. rewrite (H3 txt) by (subst w3; exact Hf).
  subst w3. cbn [trace log call]. rewrite <- app_assoc. reflexivity.
Qed.

(** C10. When the marker file holds the text "0", [kill_pidfile] parses it
    to the integer 0, which [if pid:] treats like no identifier: there is
    no probe and no signal, the only effect is the removal of the marker
    file, and the call returns normally. *)
Theorem kill_pidfile_zero path w :
  fs w !! path = Some "0" ->
  fst (read_pid path (call 0 w)) = Ret (Some 0) /\
  fst (kill_pidfile path w) = Ret tt /\
  trace (snd (kill_pidfile path w)) = trace w ++ [EvUnlink path] /\
  fs (snd (kill_pidfile path w)) !! path = None.
Proof.
  intros Hf. split.
  { rewrite (read_pid_spec path (call 0 w) "0") by exact Hf. reflexivity. }
  rewrite (kill_pidfile_unfold path w "0" Hf).
  change (py_int (strip "0")) with (Some 0). cbn zeta. cbn [Z.eqb negb].
  destruct (clear_marker_spec path (call 0 (call 0 w))) as (H1 & H2 & H3).
  repeat split; auto. apply (H3 "0"). exact Hf.
Qed.

End Registry.

(** ** Clean-up: what it can and cannot do *)

Section Sweeping.

Lemma tame_intro {A} (m : M A) :
  (forall w, exists d, trace (snd (m w)) = trace w ++ d /\ Forall sweep_event d) ->
  (forall w p, fs (snd (m w)) !! p = fs w !! p \/
               (is_marker p /\ fs (snd (m w)) !! p = None)) ->
  tame m.
Proof. intros H1 H2 w. split; [apply H1 | apply H2]. Qed.

Lemma tame_ret {A} (a : A) : tame (ret a).
Proof.
  intros w. split; [exists []; rewrite app_nil_r; split; [reflexivity|constructor] | auto].
Qed.

Lemma tame_raise {A} e : tame (@raise A e).
Proof.
  intros w. split; [exists []; rewrite app_nil_r; split; [reflexivity|constructor] | auto].
Qed.

Lemma tame_bind {A B} (m : M A) (k : A -> M B) :
  tame m -> (forall a, tame (k a)) -> tame (bind m k).
Proof.
  intros Hm Hk w. unfold bind. destruct (Hm w) as [(d1 & Ht1 & Hd1) Hf1].
  destruct (m w) as [[a|e] w1]; cbn [snd] in *.
  - destruct (Hk a w1) as [(d2 & Ht2 & Hd2) Hf2]. split.
    + exists (d1 ++ d2). rewrite Ht2, Ht1, app_assoc. split; [reflexivity|].
      apply Forall_app; auto.
    + intros p. destruct (Hf2 p) as [H|H]; [rewrite H; apply Hf1 | auto].
  - split; [exists d1; auto | exact Hf1].
Qed.

Lemma tame_try {A} (m : M A) h :
  tame m -> (forall e k, h e = Some k -> tame k) -> tame (try_except m h).
Proof.
  intros Hm Hh w. unfold try_except. destruct (Hm w) as [(d1 & Ht1 & Hd1) Hf1].
  destruct (m w) as [[a|e] w1]; cbn [snd] in *.
  - split; [exists d1; auto | exact Hf1].
  - destruct (h e) as [k|] eqn:He.
    + destruct (Hh e k He w1) as [(d2 & Ht2 & Hd2) Hf2]. split.
      * exists (d1 ++ d2). rewrite Ht2, Ht1, app_assoc. split; [reflexivity|].
        apply Forall_app; auto.
      * intros p. destruct (Hf2 p) as [H|H]; [rewrite H; apply Hf1 | auto].
    + split; [exists d1; auto | exact Hf1].
Qed.

Lemma tame_for_each {A} (xs : list A) body :
  (forall x, tame (body x)) -> tame (for_each xs body).
Proof.
  intros Hb. induction xs as [|x xs IH]; cbn [for_each].
  - apply tame_ret.
  - apply tame_bind; [apply Hb | intros _; exact IH].
Qed.

Lemma tame_if {A} (b : bool) (m1 m2 : M A) :
  tame m1 -> tame m2 -> tame (if b then m1 else m2).
Proof. destruct b; auto. Qed.

(** One event, file system untouched. *)
Lemma tame_event {A} (m : M A) :
  (forall w, exists e, sweep_event e /\ trace (snd (m w)) = trace w ++ [e]
                       /\ fs (snd (m w)) = fs w) ->
  tame m.
Proof.
  intros H w. destruct (H w) as (e & He & Ht & Hf). split.
  - exists [e]. split; [exact Ht | constructor; [exact He | constructor]].
  - intros p. rewrite Hf. auto.
Qed.

Lemma tame_os_kill p sig : tame (Sys.os_kill p sig).
Proof.
  apply tame_event. intros w. unfold Sys.os_kill. cbn zeta.
  exists (EvKill p sig (kill_ans (env w) (tick w) p sig)).
  destruct (kill_ans (env w) (tick w) p sig); cbn; auto.
Qed.

Lemma tame_time_time : tame Sys.time_time.
Proof. apply tame_event. intros w. eexists. cbn. split; [|split; reflexivity]. exact I. Qed.

Lemma tame_time_sleep ms : tame (Sys.time_sleep ms).
Proof. apply tame_event. intros w. eexists. cbn. split; [|split; reflexivity]. exact I. Qed.

Lemma tame_run_pgrep pattern : tame (Sys.run_pgrep pattern).
Proof.
  apply tame_event. intros w. unfold Sys.run_pgrep. cbn zeta.
  exists (EvPgrep pattern (pgrep_ans (env w) (tick w) pattern)).
  destruct (pgrep_ans (env w) (tick w) pattern); cbn; auto.
Qed.

Lemma tame_path_exists path : tame (Sys.path_exists path).
Proof.
  intros w. cbn. split; [exists []; rewrite app_nil_r; split; [reflexivity|constructor] | auto].
Qed.

Lemma tame_read_text path : tame (Sys.read_text path).
Proof.
  intros w. unfold Sys.read_text. destruct (fs w !! path); cbn;
    (split; [exists []; rewrite app_nil_r; split; [reflexivity|constructor] | auto]).
Qed.

Lemma tame_unlink path : is_marker path -> tame (Sys.unlink path).
Proof.
  intros Hm w. unfold Sys.unlink. destruct (fs w !! path) eqn:Hf; cbn.
  - split; [exists [EvUnlink path]; split; [reflexivity | repeat constructor]|].
    intros p. destruct (decide (path = p)) as [<-|Hne].
    + right. split; [exact Hm | apply lookup_delete_eq].
    + left. apply lookup_delete_ne. exact Hne.
  - split; [exists []; rewrite app_nil_r; split; [reflexivity|constructor] | auto].
Qed.

(** The clauses of a handler, one by one. *)
Ltac each_clause tac :=
  let e := fresh "e" in
  let k := fresh "k" in
  let H := fresh "H" in
  intros e k; destruct e; intros H; inversion H; tac.

Lemma tame_pid_exists p : tame (pid_exists p).
Proof.
  unfold pid_exists. apply tame_try.
  - apply tame_bind; [apply tame_os_kill | intros; apply tame_ret].
  - each_clause ltac:(apply tame_ret).
Qed.

Lemma tame_wait_loop n p start timeout : tame (wait_loop n p start timeout).
Proof.
  induction n as [|n IH]; cbn [wait_loop]; [apply tame_raise|].
  apply tame_bind; [apply tame_time_time|]. intros now.
  apply tame_if; [|apply tame_ret].
  apply tame_bind; [apply tame_pid_exists|]. intros alive.
  apply tame_if; [apply tame_ret|].
  apply tame_bind; [apply tame_time_sleep | intros _; exact IH].
Qed.

Lemma tame_terminate_pid p timeout : tame (terminate_pid p timeout).
Proof.
  unfold terminate_pid.
  apply tame_bind; [apply tame_pid_exists|]. intros alive.
  apply tame_if; [apply tame_ret|].
  apply tame_bind.
  { apply tame_try.
    - apply tame_bind; [apply tame_os_kill | intros; apply tame_ret].
    - each_clause ltac:(apply tame_ret). }
  intros sent. apply tame_if; [apply tame_ret|].
  apply tame_bind; [apply tame_time_time|]. intros start.
  apply tame_bind; [apply tame_wait_loop|]. intros returned.
  apply tame_if; [apply tame_ret|].
  apply tame_try; [apply tame_os_kill|].
  each_clause ltac:(apply tame_ret).
Qed.

Lemma tame_read_pid path : tame (read_pid path).
Proof.
  unfold read_pid. apply tame_try.
  - apply tame_bind; [apply tame_read_text|]. intros txt.
    destruct (py_int (strip txt)); [apply tame_ret | apply tame_raise].
  - each_clause ltac:(apply tame_ret).
Qed.

Lemma tame_kill_pidfile path : is_marker path -> tame (kill_pidfile path).
Proof.
  intros Hm. unfold kill_pidfile.
  apply tame_bind; [apply tame_path_exists|]. intros present.
  apply tame_if; [apply tame_ret|].
  apply tame_bind; [apply tame_read_pid|]. intros pid.
  apply tame_bind.
  { destruct pid as [n|]; [|apply tame_ret].
    apply tame_if; [apply tame_terminate_pid | apply tame_ret]. }
  intros _. apply tame_try; [apply tame_unlink; exact Hm|].
  each_clause ltac:(apply tame_ret).
Qed.

Lemma tame_kill_by_pattern pattern : tame (kill_by_pattern pattern).
Proof.
  unfold kill_by_pattern.
  apply tame_bind; [apply tame_run_pgrep|]. intros result.
  apply tame_if; [apply tame_ret|].
  apply tame_for_each. intros token.
  apply tame_if; [apply tame_ret|].
  destruct (py_int token); [apply tame_terminate_pid | apply tame_raise].
Qed.

Lemma tame_dict_item d key : tame (dict_item d key).
Proof. unfold dict_item. destruct (d !! key); [apply tame_ret | apply tame_raise]. Qed.

Lemma tame_cleanup : tame cleanup.
Proof.
  unfold cleanup. apply tame_bind.
  - apply tame_for_each. intros key. unfold dict_item.
    destruct (PIDS !! key) as [path|] eqn:Hk.
    + change (tame (kill_pidfile path)). apply tame_kill_pidfile. exists key. exact Hk.
    + intros w. cbn. split; [exists []; rewrite app_nil_r; split; [reflexivity|constructor] | auto].
  - intros _. apply tame_for_each. intros; apply tame_kill_by_pattern.
Qed.

End Sweeping.

(** ** Failures of the clean-up are plain errors *)

Section Plain.

Lemma plain_ret {A} (a : A) : plain (ret a).
Proof. intros w e H. discriminate H. Qed.

Lemma plain_raise {A} e : plain_error e -> plain (@raise A e).
Proof. intros He w e' H. inversion H; subst. exact He. Qed.

Lemma plain_bind {A B} (m : M A) (k : A -> M B) :
  plain m -> (forall a, plain (k a)) -> plain (bind m k).
Proof.
  intros Hm Hk w e. unfold bind. specialize (Hm w).
  destruct (m w) as [[a|e1] w1]; cbn [fst] in *; [apply Hk | intros H; apply Hm; congruence].
Qed.

Lemma plain_try {A} (m : M A) h :
  plain m -> (forall e k, h e = Some k -> plain k) -> plain (try_except m h).
Proof.
  intros Hm Hh w e. unfold try_except. specialize (Hm w).
  destruct (m w) as [[a|e1] w1]; cbn [fst] in *; [discriminate|].
  destruct (h e1) as [k|] eqn:He; [apply (Hh e1 k He) | intros H; apply Hm; exact H].
Qed.

Lemma plain_for_each {A} (xs : list A) body :
  (forall x, plain (body x)) -> plain (for_each xs body).
Proof.
  intros Hb. induction xs as [|x xs IH]; cbn [for_each].
  - apply plain_ret.
  - apply plain_bind; [apply Hb | intros _; exact IH].
Qed.

Lemma plain_if {A} (b : bool) (m1 m2 : M A) :
  plain m1 -> plain m2 -> plain (if b then m1 else m2).
Proof. destruct b; auto. Qed.

Lemma plain_terminate_pid p timeout : plain (terminate_pid p timeout).
Proof.
  intros w e. assert (Hfin := terminate_pid_finishes p timeout w). revert Hfin.
  rewrite terminate_pid_unfold. cbn zeta.
  destruct (alive_answer _).
  2:{ destruct (kill_ans (env w) (tick w) p SIG0); cbn; intros _ H;
      inversion H; exact I. }
  match goal with |- context [kill_ans ?e ?t ?q SIGTERM] =>
      destruct (kill_ans e t q SIGTERM) end;
    try (cbn; intros _ H; inversion H; exact I).
  match goal with |- context [wait_loop ?n ?q ?s ?tm ?w3] =>
    pose proof (wait_loop_trace n q s tm w3) as Ht;
    destruct (wait_loop n q s tm w3) as [[[|]|e1] w4] end.
  - cbn. intros _ H. discriminate H.
  - match goal with |- context [kill_ans ?e ?t ?q SIGKILL] =>
      destruct (kill_ans e t q SIGKILL) end; cbn; intros _ H; inversion H; exact I.
  - cbn. intros Hnd H. inversion H; subst e1.
    destruct (Ht (Raise e) w4 eq_refl) as (d & _ & rs & now & _ & Hc).
    { congruence. }
    destruct Hc as [(Hr & _) | [(Hr & _) | (Hr & _)]]; inversion Hr. exact I.
Qed.

Lemma plain_read_pid path : plain (read_pid path).
Proof.
  intros w e. unfold read_pid, try_except, bind, Sys.read_text.
  destruct (fs w !! path); [|cbn; intros H; inversion H; exact I].
  destruct (py_int (strip s)); cbn; intros H; inversion H.
Qed.

Lemma plain_clear_marker path : plain (clear_marker path).
Proof. intros w e. rewrite (proj1 (clear_marker_spec path w)). discriminate. Qed.

Lemma plain_kill_pidfile path : plain (kill_pidfile path).
Proof.
  unfold kill_pidfile.
  apply plain_bind; [intros w e H; discriminate H|]. intros present.
  apply plain_if; [apply plain_ret|].
  apply plain_bind; [apply plain_read_pid|]. intros pid.
  apply plain_bind.
  { destruct pid as [n|]; [|apply plain_ret].
    apply plain_if; [apply plain_terminate_pid | apply plain_ret]. }
  intros _. apply plain_clear_marker.
Qed.

Lemma plain_kill_by_pattern pattern : plain (kill_by_pattern pattern).
Proof.
  unfold kill_by_pattern. apply plain_bind.
  { intros w e. unfold Sys.run_pgrep. cbn zeta.
    destruct (pgrep_ans (env w) (tick w) pattern); cbn; intros H; inversion H; exact I. }
  intros result. apply plain_if; [apply plain_ret|].
  apply plain_for_each. intros token.
  apply plain_if; [apply plain_ret|].
  destruct (py_int token); [apply plain_terminate_pid | apply plain_raise; exact I].
Qed.

Lemma plain_cleanup : plain cleanup.
Proof.
  unfold cleanup. apply plain_bind.
  - apply plain_for_each. intros key. apply plain_bind.
    + unfold dict_item. destruct (PIDS !! key); [apply plain_ret | apply plain_raise; exact I].
    + intros; apply plain_kill_pidfile.
  - intros _. apply plain_for_each. intros; apply plain_kill_by_pattern.
Qed.

End Plain.

(** ** Start-up checks *)

Section Startup.

Lemma is_marker_cases path :
  is_marker path <->
  path = "network.pid" \/ path = "auth.pid" \/ path = "website.pid".
Proof.
  unfold is_marker, PIDS. cbn [list_to_map foldr]. split.
  - intros (name & H).
    destruct (decide (name = "network")) as [->|H1].
    { rewrite lookup_insert_eq in H. inversion H. auto. }
    rewrite lookup_insert_ne in H by done.
    destruct (decide (name = "auth")) as [->|H2].
    { rewrite lookup_insert_eq in H. inversion H. auto. }
    rewrite lookup_insert_ne in H by done.
    destruct (decide (name = "website")) as [->|H3].
    { rewrite lookup_insert_eq in H. inversion H. auto. }
    rewrite lookup_insert_ne in H by done.
    rewrite lookup_empty in H. discriminate.
  - intros [-> | [-> | ->]]; [exists "network" | exists "auth" | exists "website"]; reflexivity.
Qed.

Lemma website_env_not_marker : ~ is_marker "website/.env.local".
Proof. rewrite is_marker_cases. intros [H|[H|H]]; discriminate H. Qed.

Lemma get_or_empty_absent (d : gmap string string) key :
  d !! key = None -> is_empty (get_or_empty d key) = true.
Proof. intros H. unfold get_or_empty. rewrite H. reflexivity. Qed.

Lemma post_bind {A B} (m : M A) (k : A -> M B) w Q :
  post m w (fun r w1 => match r with
                        | Ret a => post (k a) w1 Q
                        | Raise e => Q (Raise e) w1
                        end) ->
  post (bind m k) w Q.
Proof. unfold post, bind. destruct (m w) as [[a|e] w1]; auto. Qed.

Lemma read_env_file_spec path w :
  read_env_file path w =
  match fs w !! path with
  | Some txt => (Ret (parse_env txt), call 0 (call 0 w))
  | None => (Ret ∅, call 0 w)
  end.
Proof.
  unfold read_env_file, bind, Sys.path_exists, Sys.read_text.
  destruct (fs w !! path) eqn:Hf.
  - rewrite bool_decide_eq_true_2 by eauto. cbn. rewrite Hf. reflexivity.
  - rewrite bool_decide_eq_false_2 by (intros [? ?]; discriminate). reflexivity.
Qed.


Lemma length_append (a b : string) :
  String.length (a +:+ b) = (String.length a + String.length b)%nat.
Proof. induction a as [|c a IH]; simpl; [reflexivity | f_equal; exact IH]. Qed.

Lemma node0_not_website_env dir : dir +:+ "/node0.yaml" <> "website/.env.local".
Proof.
  intros H. assert (Hl := f_equal String.length H). rewrite length_append in Hl.
  cbn in Hl.
  do 8 (destruct dir as [|? dir]; cbn in Hl; try lia; try discriminate H).
Qed.

Lemma stopped_exit w0 w msg :
  (exists d, trace w = trace w0 ++ d /\ Forall no_start d) ->
  (forall p, is_marker p -> fs w !! p = fs w0 !! p) ->
  post (do _ <- Sys.print_stderr msg ;; ret (Exit 1)) w (stopped w0).
Proof.
  intros (d & Ht & Hd) Hf. unfold post, stopped, bind, Sys.print_stderr, ret. cbn.
  split; [|split; [auto | exact Hf]].
  exists (d ++ [EvStderr msg]). rewrite Ht, app_assoc. split; [reflexivity|].
  apply Forall_app. split; [exact Hd | repeat constructor].
Qed.

(** The checks, once both files are loaded. *)
Lemma startup_checks args w0 w website_env convex_env rest :
  (website_env !! "VITE_IDENTITY" = None \/
   website_env !! "CONVEX_SELF_HOSTED_URL" = None \/
   website_env !! "CONVEX_SELF_HOSTED_ADMIN_KEY" = None \/
   convex_env !! "CONVEX_SERVICE_TOKEN" = None \/
   convex_env !! "STRIPE_SECRET_KEY" = None \/
   convex_env !! "STRIPE_WEBHOOK_SECRET" = None \/
   fs w !! (config_dir args +:+ "/node0.yaml") = None) ->
  (exists d, trace w = trace w0 ++ d /\ Forall no_start d) ->
  (forall p, is_marker p -> fs w !! p = fs w0 !! p) ->
  post
    (if is_empty (get_or_empty website_env "VITE_IDENTITY") then
       do _ <- Sys.print_stderr "Missing VITE_IDENTITY in website/.env.local" ;;
       ret (Exit 1)
     else if is_empty (get_or_empty website_env "CONVEX_SELF_HOSTED_URL")
             || is_empty (get_or_empty website_env "CONVEX_SELF_HOSTED_ADMIN_KEY") then
       do _ <- Sys.print_stderr
                 "Missing CONVEX_SELF_HOSTED_URL or CONVEX_SELF_HOSTED_ADMIN_KEY in website/.env.local" ;;
       ret (Exit 1)
     else
     if is_empty (get_or_empty convex_env "CONVEX_SERVICE_TOKEN")
        || is_empty (get_or_empty convex_env "STRIPE_SECRET_KEY")
        || is_empty (get_or_empty convex_env "STRIPE_WEBHOOK_SECRET") then
       do _ <- Sys.print_stderr "Missing Convex env vars in docker/convex/.env" ;;
       ret (Exit 1)
     else
     do present <- Sys.path_exists (config_dir args +:+ "/node0.yaml") ;;
     if negb present then
       do _ <- Sys.print_stderr
                 ("Missing validator configs in " +:+ config_dir args
                  +:+ ". Run generate-keys first.") ;;
       ret (Exit 1)
     else rest)
    w (stopped w0).
Proof.
  intros Hmiss Ht Hf.
  destruct (is_empty (get_or_empty website_env "VITE_IDENTITY")) eqn:E1.
  { apply stopped_exit; assumption. }
  destruct (is_empty (get_or_empty website_env "CONVEX_SELF_HOSTED_URL")) eqn:E2.
  { apply stopped_exit; assumption. }
  destruct (is_empty (get_or_empty website_env "CONVEX_SELF_HOSTED_ADMIN_KEY")) eqn:E3.
  { apply stopped_exit; assumption. }
  destruct (is_empty (get_or_empty convex_env "CONVEX_SERVICE_TOKEN")) eqn:E4.
  { apply stopped_exit; assumption. }
  destruct (is_empty (get_or_empty convex_env "STRIPE_SECRET_KEY")) eqn:E5.
  { apply stopped_exit; assumption. }
  destruct (is_empty (get_or_empty convex_env "STRIPE_WEBHOOK_SECRET")) eqn:E6.
  { apply stopped_exit; assumption. }
  cbn [orb].
  destruct Hmiss as [H|[H|[H|[H|[H|[H|H]]]]]];
    try (apply get_or_empty_absent in H; congruence).
  apply post_bind. unfold post at 1, Sys.path_exists. cbn [fst snd].
  rewrite bool_decide_eq_false_2 by (rewrite H; intros [? ?]; discriminate).
  cbn [negb]. apply stopped_exit; [|exact Hf].
  destruct Ht as (d & Ht & Hd). exists d. split; [exact Ht | exact Hd].
Qed.

Lemma startup_incomplete args w :
  config_incomplete args w ->
  post (startup args) w (stopped w).
Proof.
  intros Hmiss. unfold startup.
  apply post_bind. unfold post at 1.
  unfold ensure_website_env_local, bind, Sys.path_exists, Sys.read_text,
    Sys.write_text, Sys.print_stderr, raise, ret.
  unfold config_incomplete, website_settings, convex_settings in Hmiss.
  destruct (fs w !! "website/.env.local") as [wtxt|] eqn:Hw.
  - rewrite bool_decide_eq_true_2 by eauto. cbn [fst snd].
    apply post_bind. unfold post at 1. rewrite read_env_file_spec.
    cbn [fs call]. rewrite Hw. cbn [fst snd].
    apply post_bind. unfold post at 1. rewrite read_env_file_spec.
    cbn [fs call].
    destruct (fs w !! "docker/convex/.env") as [ctxt|] eqn:Hcv; cbn [fst snd];
      apply startup_checks; cbn [fs trace call]; auto;
      exists []; rewrite app_nil_r; auto.
  - rewrite bool_decide_eq_false_2 by (intros [? ?]; discriminate).
    destruct (fs w !! "configs/local/.env.local") as [ftxt|] eqn:Hfb.
    + cbn [fs call]. rewrite bool_decide_eq_true_2 by (rewrite Hfb; eauto).
      cbn [fs call]. rewrite Hfb. cbn [fst snd].
      assert (Hframe : forall p, is_marker p ->
                <["website/.env.local" := ftxt]> (fs w) !! p = fs w !! p).
      { intros p Hp. apply lookup_insert_ne. intros <-.
        exact (website_env_not_marker Hp). }
      assert (Htr : exists d, trace w ++ [EvWriteText "website/.env.local" ftxt]
                              = trace w ++ d /\ Forall no_start d).
      { eexists. split; [reflexivity|]. constructor; [|constructor].
        exact website_env_not_marker. }
      apply post_bind. unfold post at 1. rewrite read_env_file_spec.
      cbn [fs log with_fs call]. rewrite lookup_insert_eq. cbn [fst snd].
      apply post_bind. unfold post at 1. rewrite read_env_file_spec.
      cbn [fs log with_fs call]. rewrite lookup_insert_ne by done.
      destruct (fs w !! "docker/convex/.env") as [ctxt|] eqn:Hcv; cbn [fst snd];
        apply startup_checks; cbn [fs trace log with_fs call]; auto.
      all: destruct Hmiss as [H|[H|[H|[H|[H|[H|H]]]]]]; auto 10.
      all: do 6 right; rewrite lookup_insert_ne; [exact H|].
      all: intros E; symmetry in E; exact (node0_not_website_env _ E).
    + cbn [fs call]. rewrite bool_decide_eq_false_2
        by (rewrite Hfb; intros [? ?]; discriminate).
      cbn [fst snd]. unfold stopped. cbn [trace fs log call]. split; [|split].
      * eexists. split; [reflexivity|]. repeat constructor.
      * right. reflexivity.
      * auto.
Qed.

End Startup.

(** ** Fail-fast start *)

Section Main.

Lemma sweep_no_start e : sweep_event e -> no_start e.
Proof. destruct e; cbn; auto; contradiction. Qed.

Lemma config_incomplete_after_cleanup args w w' :
  (forall p, fs w' !! p = fs w !! p \/ (is_marker p /\ fs w' !! p = None)) ->
  config_incomplete args w -> config_incomplete args w'.
Proof.
  intros Hdel. unfold config_incomplete, website_settings, convex_settings.
  assert (Hkeep : forall p, ~ is_marker p -> fs w' !! p = fs w !! p).
  { intros p Hp. destruct (Hdel p) as [E|[Hm _]]; [exact E | contradiction]. }
  assert (H1 : ~ is_marker "website/.env.local").
  { rewrite is_marker_cases. intros [H|[H|H]]; discriminate H. }
  assert (H2 : ~ is_marker "configs/local/.env.local").
  { rewrite is_marker_cases. intros [H|[H|H]]; discriminate H. }
  assert (H3 : ~ is_marker "docker/convex/.env").
  { rewrite is_marker_cases. intros [H|[H|H]]; discriminate H. }
  rewrite (Hkeep _ H1), (Hkeep _ H2), (Hkeep _ H3).
  intros [H|[H|[H|[H|[H|[H|H]]]]]]; auto 10.
  do 6 right. destruct (Hdel (config_dir args +:+ "/node0.yaml")) as [E|[_ E]];
    [rewrite E; exact H | exact E].
Qed.

(** C7. When a required setting is absent (one of the keys of
    [website/.env.local] or [docker/convex/.env], or the validator
    configuration), [main] ends the run with a non-zero exit status, the
    trace of the run contains no start of a managed process or of any
    other command and no write of a marker file, and no marker file that
    was absent exists afterwards. *)
Theorem main_fails_fast args w :
  config_incomplete args w ->
  (exists code, exit_status (fst (main args w)) = Some code /\ code <> 0) /\
  (exists d, trace (snd (main args w)) = trace w ++ d /\ Forall no_start d) /\
  (forall p, is_marker p -> fs w !! p = None ->
             fs (snd (main args w)) !! p = None).
Proof.
  intros Hmiss. unfold main, bind.
  destruct (tame_cleanup w) as [(d1 & Ht1 & Hd1) Hf1].
  pose proof (plain_cleanup w) as Hp.
  destruct (cleanup w) as [[[]|e] w1]; cbn [fst snd] in *.
  - pose proof (startup_incomplete args w1
                  (config_incomplete_after_cleanup args w w1 Hf1 Hmiss))
      as ((d2 & Ht2 & Hd2) & Hr & Hf2).
    split; [|split].
    + exists 1. destruct Hr as [-> | ->]; cbn; split; [reflexivity | lia | reflexivity | lia].
    + exists (d1 ++ d2). rewrite Ht2, Ht1, app_assoc. split; [reflexivity|].
      apply Forall_app. split; [|exact Hd2].
      eapply Forall_impl; [exact Hd1 | exact sweep_no_start].
    + intros p Hm Hnone. rewrite (Hf2 p Hm).
      destruct (Hf1 p) as [E|[_ E]]; [rewrite E; exact Hnone | exact E].
  - split; [|split].
    + exists 1. specialize (Hp e eq_refl). destruct e; cbn in *; try contradiction;
        (split; [reflexivity | lia]).
    + exists d1. split; [exact Ht1|].
      eapply Forall_impl; [exact Hd1 | exact sweep_no_start].
    + intros p Hm Hnone. destruct (Hf1 p) as [E|[_ E]]; [rewrite E; exact Hnone | exact E].
Qed.

End Main.

(** ** Supervisor and pattern sweep *)

Section Supervisor.

Lemma marker_has_log name path :
  PIDS !! name = Some path -> exists log_path, LOGS !! name = Some log_path.
Proof.
  unfold PIDS, LOGS. cbn [list_to_map foldr]. intros H.
  destruct (decide (name = "network")) as [->|H1]; [eexists; reflexivity|].
  rewrite lookup_insert_ne in H by done.
  destruct (decide (name = "auth")) as [->|H2]; [eexists; reflexivity|].
  rewrite lookup_insert_ne in H by done.
  destruct (decide (name = "website")) as [->|H3]; [eexists; reflexivity|].
  rewrite lookup_insert_ne in H by done.
  rewrite lookup_empty in H. discriminate.
Qed.

(** C9. Round trip of the registry: when [start_process] starts a child
    for a managed service (the answer to its [Popen], the second call
    it makes, is the identifier [child]), the marker file of the service
    holds the decimal text of that identifier, and reading the marker
    back the way [kill_pidfile] does, as the integer value of its
    stripped text, gives the identifier again.  This holds for every
    integer [child]. *)
Theorem registry_round_trip name cmd cwd child_env child path w :
  PIDS !! name = Some path ->
  popen_ans (env w) (S (tick w)) cmd = Spawned child ->
  fst (start_process name cmd cwd child_env w) = Ret {| pid := child |} /\
  fs (snd (start_process name cmd cwd child_env w)) !! path
    = Some (py_str child) /\
  py_int (strip (py_str child)) = Some child /\
  fst (read_pid path (snd (start_process name cmd cwd child_env w)))
    = Ret (Some child).
Proof.
  intros Hpid Hspawn. destruct (marker_has_log name path Hpid) as (log_path & Hlog).
  assert (Hparse : py_int (strip (py_str child)) = Some child).
  { rewrite strip_py_str. apply py_int_py_str. }
  unfold start_process, bind, dict_item. rewrite Hlog, Hpid. cbn [ret].
  unfold Sys.open_append.
  assert (Hrun : forall w1, env w1 = env w -> tick w1 = S (tick w) ->
    let r := match Sys.popen name cmd w1 with
             | (Ret a, w') =>
                 match Sys.write_text path (py_str a) w' with
                 | (Ret _, w'0) => (Ret {| pid := a |}, w'0)
                 | (Raise e, w'0) => (Raise e, w'0)
                 end
             | (Raise e, w') => (Raise e, w')
             end in
    fst r = Ret {| pid := child |} /\
    fs (snd r) !! path = Some (py_str child) /\
    py_int (strip (py_str child)) = Some child /\
    fst (read_pid path (snd r)) = Ret (Some child)).
  { intros w1 He Ht. unfold Sys.popen. rewrite He, Ht, Hspawn. cbn zeta.
    unfold Sys.write_text. cbn [fst snd fs log with_fs].
    assert (Hl : <[path := py_str child]> (fs (call 0 w1)) !! path = Some (py_str child))
      by apply lookup_insert_eq.
    repeat split; auto.
    erewrite read_pid_spec; [|cbn [fs log with_fs]; exact Hl].
    cbn [fst]. rewrite Hparse. reflexivity. }
  destruct (fs w !! log_path); apply Hrun; reflexivity.
Qed.

End Supervisor.

Section Sweep.

Lemma kill_by_pattern_missing pattern w :
  pgrep_ans (env w) (tick w) pattern = PgrepMissing ->
  fst (kill_by_pattern pattern w) = Raise FileNotFoundError.
Proof.
  intros H. unfold kill_by_pattern, bind, Sys.run_pgrep. rewrite H. reflexivity.
Qed.

(** A listing that runs and reports failure is skipped without a trace
    beyond the listing itself. *)
Lemma kill_by_pattern_failed pattern w rc out :
  pgrep_ans (env w) (tick w) pattern = PgrepExit rc out -> rc <> 0 ->
  kill_by_pattern pattern w
  = (Ret tt, log (EvPgrep pattern (PgrepExit rc out)) (call 0 w)).
Proof.
  intros H Hrc. unfold kill_by_pattern, bind, Sys.run_pgrep. rewrite H.
  cbn [fst snd]. destruct (Z.eqb_spec rc 0); [contradiction | reflexivity].
Qed.

(** C1 (the code departs from the claim). With [pgrep] not installed,
    [kill_by_pattern] raises [FileNotFoundError] instead of skipping
    the sweep, and the run of [main] ends there with exit status 1,
    although the configuration is complete. *)
Theorem kill_by_pattern_without_pgrep :
  fst (kill_by_pattern "vite" (Sample.boot Sample.no_pgrep []))
    = Raise FileNotFoundError /\
  fst (main Sample.default_args (Sample.boot Sample.no_pgrep Sample.config_files))
    = Raise FileNotFoundError /\
  exit_status
    (fst (main Sample.default_args
            (Sample.boot Sample.no_pgrep Sample.config_files))) = Some 1 /\
  (exists procs,
     fst (main Sample.default_args (Sample.boot Sample.calm Sample.config_files))
       = Ret (Serving procs)).
Proof.
  split; [reflexivity|]. split; [vm_compute; reflexivity|].
  split; [vm_compute; reflexivity|]. eexists. vm_compute. reflexivity.
Qed.

(** C4 (the code departs from the claim). The marker file holds the
    identifier of a live process of another user: the probe and the
    graceful-stop request are both refused, [terminate_pid] raises
    [PermissionError], and [kill_pidfile] ends there: the marker file is
    still present with its content. *)
Theorem kill_pidfile_keeps_marker_when_refused :
  let w := Sample.boot Sample.foreign [("network.pid", "1")] in
  fst (kill_pidfile "network.pid" w) = Raise PermissionError /\
  trace (snd (kill_pidfile "network.pid" w))
    = [EvKill 1 SIG0 KillDenied; EvKill 1 SIGTERM KillDenied] /\
  fs (snd (kill_pidfile "network.pid" w)) !! "network.pid" = Some "1".
Proof. vm_compute. repeat split; reflexivity. Qed.

End Sweep.

(** ** ShutdownCoordinator *)

Section Shutdown.

Lemma requests_app a b : requests (a ++ b) = requests a ++ requests b.
Proof. unfold requests. apply List.filter_app. Qed.

Lemma internal_poll_spec p w :
  internal_poll p w =
  match returncode w !! pid p with
  | Some c => (Ret (Some c), w)
  | None =>
      let a := waitpid_ans (env w) (tick w) (pid p) in
      let w1 := log (EvWaitpid (pid p) a) (call 0 w) in
      match a with
      | StillRunning => (Ret None, w1)
      | Exited status =>
          (Ret (Some status),
           with_returncode (<[pid p := status]> (returncode w1)) w1)
      end
  end.
Proof.
  unfold internal_poll, bind, get_returncode. cbn [fst snd].
  destruct (returncode w !! pid p); [reflexivity|].
  unfold Sys.waitpid_nohang. cbn zeta.
  destruct (waitpid_ans (env w) (tick w) (pid p)); reflexivity.
Qed.

Lemma internal_poll_quiet p w :
  exists rc w', internal_poll p w = (Ret rc, w') /\
    requests (trace w') = requests (trace w) /\ same_setting w w'.
Proof.
  rewrite internal_poll_spec. destruct (returncode w !! pid p).
  - eexists _, _. split; [reflexivity|]. split; [reflexivity | split; reflexivity].
  - cbn zeta. destruct (waitpid_ans (env w) (tick w) (pid p));
      (eexists _, _; split; [reflexivity|]; split; [|split; reflexivity]);
      cbn [trace log call with_returncode]; rewrite requests_app, app_nil_r; reflexivity.
Qed.

Lemma send_signal_quiet p sig w :
  signals_accepted (env w) ->
  exists w', send_signal p sig w = (Ret tt, w') /\
    requests (trace w') = requests (trace w) /\ same_setting w w'.
Proof.
  intros Hacc. unfold send_signal, bind.
  destruct (internal_poll_quiet p w) as (rc & w1 & -> & Hr & He & Hs).
  destruct rc as [c|].
  - eexists. split; [reflexivity|]. split; [exact Hr | split; assumption].
  - unfold try_except, Sys.os_kill. cbn zeta.
    destruct (Hacc (tick w1) (pid p) sig) as [Hk|Hk]; rewrite He, Hk;
      (eexists; split; [reflexivity|]; split; [|split; assumption]);
      cbn [trace log call ret snd]; rewrite requests_app, app_nil_r; exact Hr.
Qed.

Lemma terminate_requests p w :
  signals_accepted (env w) ->
  exists w', terminate p w = (Ret tt, w') /\
    requests (trace w') = requests (trace w) ++ [EvTerminate (pid p)] /\
    same_setting w w'.
Proof.
  intros Hacc. unfold terminate, bind. cbn [fst snd].
  destruct (send_signal_quiet p SIGTERM (log (EvTerminate (pid p)) w) Hacc)
    as (w' & -> & Hr & He & Hs).
  exists w'. split; [reflexivity|]. split; [|split; assumption].
  rewrite Hr. cbn [trace log]. apply requests_app.
Qed.

Lemma terminate_all_requests ps : forall w,
  signals_accepted (env w) ->
  exists w', for_each ps terminate w = (Ret tt, w') /\
    requests (trace w')
    = requests (trace w) ++ ((fun p => EvTerminate (pid p)) <$> ps) /\
    same_setting w w'.
Proof.
  induction ps as [|p ps IH]; intros w Hacc.
  - exists w. cbn. rewrite app_nil_r. repeat split.
  - cbn [for_each]. unfold bind.
    destruct (terminate_requests p w Hacc) as (w1 & -> & Hr1 & He1 & Hs1).
    destruct (IH w1) as (w2 & -> & Hr2 & He2 & Hs2); [rewrite He1; exact Hacc|].
    exists w2. split; [reflexivity|]. split.
    + rewrite Hr2, Hr1, <- app_assoc. reflexivity.
    + split; congruence.
Qed.

Lemma poll_requests p w :
  exists rc w', poll p w = (Ret rc, w') /\
    requests (trace w') = requests (trace w) ++ [EvPoll (pid p) rc] /\
    same_setting w w'.
Proof.
  unfold poll, bind.
  destruct (internal_poll_quiet p w) as (rc & w1 & -> & Hr & He & Hs).
  exists rc. eexists. split; [reflexivity|]. cbn [trace log].
  rewrite requests_app, Hr. repeat split; assumption.
Qed.

Lemma kill_requests p w :
  signals_accepted (env w) ->
  exists w', kill p w = (Ret tt, w') /\
    requests (trace w') = requests (trace w) ++ [EvForceKill (pid p)] /\
    same_setting w w'.
Proof.
  intros Hacc. unfold kill, bind. cbn [fst snd].
  destruct (send_signal_quiet p SIGKILL (log (EvForceKill (pid p)) w) Hacc)
    as (w' & -> & Hr & He & Hs).
  exists w'. split; [reflexivity|]. split; [|split; assumption].
  rewrite Hr. cbn [trace log]. apply requests_app.
Qed.

Lemma second_loop_requests ps : forall w,
  signals_accepted (env w) ->
  exists rcs w',
    for_each ps second_loop w = (Ret tt, w') /\
    length rcs = length ps /\
    requests (trace w')
    = requests (trace w)
      ++ concat (zip_with poll_then_kill ps rcs) /\
    same_setting w w'.
Proof.
  induction ps as [|p ps IH]; intros w Hacc.
  - exists [], w. cbn. rewrite app_nil_r. repeat split.
  - cbn [for_each]. unfold bind at 1. unfold second_loop at 1. unfold bind at 1.
    destruct (poll_requests p w) as (rc & w1 & -> & Hr1 & He1 & Hs1).
    assert (Hstep : exists w2,
      match rc with None => kill p | Some _ => ret tt end w1 = (Ret tt, w2) /\
      requests (trace w2) = requests (trace w) ++ poll_then_kill p rc /\
      same_setting w w2).
    { destruct rc as [c|].
      - exists w1. split; [reflexivity|]. split; [exact Hr1 | split; assumption].
      - destruct (kill_requests p w1) as (w2 & -> & Hr2 & He2 & Hs2);
          [rewrite He1; exact Hacc|].
        exists w2. split; [reflexivity|]. split.
        + rewrite Hr2, Hr1, <- app_assoc. reflexivity.
        + split; congruence. }
    destruct Hstep as (w2 & -> & Hr2 & He2 & Hs2).
    destruct (IH w2) as (rcs & w3 & -> & Hlen & Hr3 & He3 & Hs3);
      [rewrite He2; exact Hacc|].
    exists (rc :: rcs), w3. split; [reflexivity|]. split; [cbn; congruence|]. split.
    + rewrite Hr3, Hr2. cbn [zip_with concat]. rewrite <- app_assoc. reflexivity.
    + split; congruence.
Qed.


(** When the exit of every process is already recorded, the handler makes
    no system call at all. *)
Lemma terminate_recorded p w c :
  returncode w !! pid p = Some c ->
  terminate p w = (Ret tt, log (EvTerminate (pid p)) w).
Proof.
  intros H. unfold terminate, bind, send_signal, bind. cbn [fst snd].
  rewrite internal_poll_spec. cbn [returncode log]. rewrite H. reflexivity.
Qed.

Lemma second_loop_recorded p w c :
  returncode w !! pid p = Some c ->
  second_loop p w = (Ret tt, log (EvPoll (pid p) (Some c)) w).
Proof.
  intros H. unfold second_loop, poll, bind. rewrite internal_poll_spec, H. reflexivity.
Qed.

Lemma terminate_all_recorded ps : forall w,
  (forall p, In p ps -> is_Some (returncode w !! pid p)) ->
  exists w', for_each ps terminate w = (Ret tt, w') /\
    trace w' = trace w ++ ((fun p => EvTerminate (pid p)) <$> ps) /\
    returncode w' = returncode w /\ clock w' = clock w.
Proof.
  induction ps as [|p ps IH]; intros w Hrec.
  - exists w. cbn. rewrite app_nil_r. repeat split.
  - destruct (Hrec p (or_introl eq_refl)) as [c Hc].
    cbn [for_each]. unfold bind. rewrite (terminate_recorded p w c Hc).
    destruct (IH (log (EvTerminate (pid p)) w)) as (w' & -> & Ht & Hr & Hcl).
    { intros q Hq. apply Hrec. right. exact Hq. }
    exists w'. split; [reflexivity|]. rewrite Ht, Hr, Hcl. cbn [trace log fmap list_fmap].
    rewrite <- app_assoc. repeat split.
Qed.

Lemma second_loop_recorded_all ps : forall w,
  (forall p, In p ps -> is_Some (returncode w !! pid p)) ->
  exists w', for_each ps second_loop w = (Ret tt, w') /\
    trace w' = trace w
      ++ ((fun p => EvPoll (pid p) (returncode w !! pid p)) <$> ps) /\
    returncode w' = returncode w /\ clock w' = clock w.
Proof.
  induction ps as [|p ps IH]; intros w Hrec.
  - exists w. cbn. rewrite app_nil_r. repeat split.
  - destruct (Hrec p (or_introl eq_refl)) as [c Hc].
    cbn [for_each]. unfold bind. rewrite (second_loop_recorded p w c Hc).
    destruct (IH (log (EvPoll (pid p) (Some c)) w)) as (w' & -> & Ht & Hr & Hcl).
    { intros q Hq. apply Hrec. right. exact Hq. }
    exists w'. split; [reflexivity|]. rewrite Ht, Hr, Hcl.
    cbn [trace log fmap list_fmap returncode]. rewrite Hc, <- app_assoc. repeat split.
Qed.

Lemma handle_signal_recorded ps w :
  (forall p, In p ps -> is_Some (returncode w !! pid p)) ->
  fst (handle_signal ps w) = Ret tt /\
  trace (snd (handle_signal ps w))
  = trace w ++ [EvSetStop] ++ ((fun p => EvTerminate (pid p)) <$> ps)
      ++ [EvSleep 1000]
      ++ ((fun p => EvPoll (pid p) (returncode w !! pid p)) <$> ps).
Proof.
  intros Hrec.
  cut (exists w2, handle_signal ps w = (Ret tt, w2) /\
         trace w2 = trace w ++ [EvSetStop]
           ++ ((fun p => EvTerminate (pid p)) <$> ps) ++ [EvSleep 1000]
           ++ ((fun p => EvPoll (pid p) (returncode w !! pid p)) <$> ps)).
  { intros (w2 & -> & Ht). split; [reflexivity | exact Ht]. }
  unfold handle_signal. unfold bind at 1. unfold stop_event_set at 1.
  unfold bind at 1.
  destruct (terminate_all_recorded ps (log EvSetStop (with_stop true w)) Hrec)
    as (w1 & -> & Ht1 & Hr1 & _).
  unfold bind at 1. unfold Sys.time_sleep at 1.
  destruct (second_loop_recorded_all ps (log (EvSleep 1000) (call 1000 w1)))
    as (w2 & -> & Ht2 & _).
  { intros q Hq. cbn [returncode log call]. rewrite Hr1. apply Hrec, Hq. }
  exists w2. split; [reflexivity|]. rewrite Ht2. cbn [trace log call returncode].
  rewrite Ht1, Hr1. cbn [trace log with_stop returncode].
  rewrite <- !app_assoc. reflexivity.
Qed.

Lemma send_signal_protocol p sig w :
  signals_accepted (env w) ->
  exists w' d,
    send_signal p sig w = (Ret tt, w') /\
    trace w' = trace w ++ d /\
    sends (pid p) sig (returncode w) d (returncode w') /\
    Forall (answered (env w)) d /\
    same_setting w w'.
Proof.
  intros Hacc. unfold send_signal, bind. rewrite internal_poll_spec.
  destruct (returncode w !! pid p) as [c|] eqn:Hrc.
  { exists w, []. rewrite app_nil_r. split; [reflexivity|]. split; [reflexivity|].
    split; [apply (sends_recorded _ _ _ c Hrc)|]. split; [constructor|].
    split; reflexivity. }
  cbn zeta. destruct (waitpid_ans (env w) (tick w) (pid p)) as [|status] eqn:Ha.
  - unfold try_except, Sys.os_kill. cbn zeta. cbn [env tick log call].
    destruct (Hacc (S (tick w)) (pid p) sig) as [Hk | Hk]; rewrite Hk;
      (eexists _, _; split; [reflexivity|]);
      cbn [trace log call returncode ret snd]; rewrite <- app_assoc;
      (split; [reflexivity|]);
      (split; [apply sends_running; auto|]);
      (split; [|split; reflexivity]);
      (constructor; [exists (tick w); auto | constructor; [exact I | constructor]]).
  - eexists _, _. split; [reflexivity|].
    cbn [trace log call returncode with_returncode].
    split; [reflexivity|]. split; [apply sends_exited; exact Hrc|].
    split; [|split; reflexivity].
    constructor; [exists (tick w); auto | constructor].
Qed.

Lemma poll_protocol p w :
  exists rc w' d,
    poll p w = (Ret rc, w') /\
    trace w' = trace w ++ d /\
    polls (pid p) (returncode w) d rc (returncode w') /\
    Forall (answered (env w)) d /\
    same_setting w w'.
Proof.
  unfold poll, bind. rewrite internal_poll_spec.
  destruct (returncode w !! pid p) as [c|] eqn:Hrc.
  { eexists _, _, _. split; [reflexivity|]. cbn [trace log returncode].
    split; [reflexivity|]. split; [apply polls_recorded; exact Hrc|].
    split; [repeat constructor | split; reflexivity]. }
  cbn zeta. destruct (waitpid_ans (env w) (tick w) (pid p)) as [|status] eqn:Ha;
    (eexists _, _, _; split; [reflexivity|]);
    cbn [trace log call returncode with_returncode]; rewrite <- app_assoc;
    (split; [reflexivity|]).
  - split; [apply polls_running; exact Hrc|]. split; [|split; reflexivity].
    constructor; [exists (tick w); auto | repeat constructor].
  - split; [apply polls_exited; exact Hrc|]. split; [|split; reflexivity].
    constructor; [exists (tick w); auto | repeat constructor].
Qed.

Lemma terminate_all_protocol ps : forall w,
  signals_accepted (env w) ->
  exists w' d,
    for_each ps terminate w = (Ret tt, w') /\
    trace w' = trace w ++ d /\
    graceful_stops ps (returncode w) d (returncode w') /\
    Forall (answered (env w)) d /\
    same_setting w w'.
Proof.
  induction ps as [|p ps IH]; intros w Hacc.
  - exists w, []. rewrite app_nil_r. split; [reflexivity|]. split; [reflexivity|].
    split; [constructor|]. split; [constructor | split; reflexivity].
  - cbn [for_each]. unfold bind at 1. unfold terminate at 1. unfold bind at 1.
    destruct (send_signal_protocol p SIGTERM (log (EvTerminate (pid p)) w) Hacc)
      as (w1 & d1 & -> & Ht1 & Hs1 & Hq1 & He1 & Hf1).
    cbn [env log stop_event trace returncode] in *.
    destruct (IH w1) as (w2 & d2 & -> & Ht2 & Hs2 & Hq2 & He2 & Hf2);
      [rewrite He1; exact Hacc|].
    exists w2, (EvTerminate (pid p) :: d1 ++ d2). split; [reflexivity|].
    split; [rewrite Ht2, Ht1; cbn [trace log]; rewrite <- !app_assoc; reflexivity|].
    split; [econstructor; eassumption|].
    split.
    + constructor; [exact I|]. apply Forall_app. split; [exact Hq1|].
      rewrite He1 in Hq2. exact Hq2.
    + split; congruence.
Qed.

Lemma second_loop_protocol ps : forall w,
  signals_accepted (env w) ->
  exists w' d,
    for_each ps second_loop w = (Ret tt, w') /\
    trace w' = trace w ++ d /\
    forced_kills ps (returncode w) d (returncode w') /\
    Forall (answered (env w)) d /\
    same_setting w w'.
Proof.
  induction ps as [|p ps IH]; intros w Hacc.
  - exists w, []. rewrite app_nil_r. split; [reflexivity|]. split; [reflexivity|].
    split; [constructor|]. split; [constructor | split; reflexivity].
  - cbn [for_each]. unfold bind at 1. unfold second_loop at 1. unfold bind at 1.
    destruct (poll_protocol p w) as (rc & w1 & d1 & -> & Ht1 & Hs1 & Hq1 & He1 & Hf1).
    destruct rc as [c|].
    + unfold ret at 1. cbv beta iota.
      destruct (IH w1) as (w2 & d2 & -> & Ht2 & Hs2 & Hq2 & He2 & Hf2);
        [rewrite He1; exact Hacc|].
      exists w2, (d1 ++ d2). split; [reflexivity|].
      split; [rewrite Ht2, Ht1, <- app_assoc; reflexivity|].
      split; [eapply forced_exited; eassumption|].
      split; [|split; congruence].
      apply Forall_app. split; [exact Hq1|]. rewrite He1 in Hq2. exact Hq2.
    + unfold kill at 1. unfold bind at 1. cbv beta iota.
      destruct (send_signal_protocol p SIGKILL (log (EvForceKill (pid p)) w1))
        as (w3 & d3 & -> & Ht3 & Hs3 & Hq3 & He3 & Hf3);
        [cbn [env log]; rewrite He1; exact Hacc|].
      cbn [env log stop_event trace returncode] in *.
      destruct (IH w3) as (w2 & d2 & -> & Ht2 & Hs2 & Hq2 & He2 & Hf2);
        [rewrite He3, He1; exact Hacc|].
      exists w2, (d1 ++ EvForceKill (pid p) :: d3 ++ d2). split; [reflexivity|].
      split; [rewrite Ht2, Ht3, Ht1, <- !app_assoc; reflexivity|].
      split; [eapply forced_running; eassumption|].
      split; [|split; congruence].
      apply Forall_app. split; [exact Hq1|]. constructor; [exact I|].
      apply Forall_app. rewrite He1 in Hq3. split; [exact Hq3|].
      rewrite He3, He1 in Hq2. exact Hq2.
Qed.

(** *** What the two loops mean *)

Lemma sends_recorded_other p sig rc d rc' q c :
  sends p sig rc d rc' -> rc !! q = Some c ->
  rc' !! q = Some c /\ Forall (quiet_about q) d.
Proof.
  intros H Hq. destruct H as [c' Hp | status Hp | a Hp Ha].
  - split; [exact Hq | constructor].
  - assert (p <> q) by congruence.
    split; [rewrite lookup_insert_ne by assumption; exact Hq|].
    constructor; [assumption | constructor].
  - assert (p <> q) by congruence.
    split; [exact Hq|]. repeat constructor; assumption.
Qed.

Lemma polls_recorded_other p rc d r rc' q c :
  polls p rc d r rc' -> rc !! q = Some c ->
  rc' !! q = Some c /\ Forall (quiet_about q) d.
Proof.
  intros H Hq. destruct H as [c' Hp | status Hp | Hp].
  - split; [exact Hq | repeat constructor].
  - assert (p <> q) by congruence.
    split; [rewrite lookup_insert_ne by assumption; exact Hq|].
    repeat constructor; assumption.
  - assert (p <> q) by congruence.
    split; [exact Hq|]. repeat constructor; assumption.
Qed.

(** For a process whose exit is recorded, no system call is made. *)
Lemma graceful_stops_quiet ps rc d rc' q c :
  graceful_stops ps rc d rc' -> rc !! q = Some c ->
  rc' !! q = Some c /\ Forall (quiet_about q) d.
Proof.
  intros H. induction H as [rc | proc ps rc d1 rc1 d2 rc2 Hs Hg IH]; intros Hq.
  - split; [exact Hq | constructor].
  - destruct (sends_recorded_other _ _ _ _ _ q c Hs Hq) as (Hq1 & Hd1).
    destruct (IH Hq1) as (Hq2 & Hd2).
    split; [exact Hq2|]. constructor; [exact I|]. apply Forall_app. auto.
Qed.

Lemma forced_kills_quiet ps rc d rc' q c :
  forced_kills ps rc d rc' -> rc !! q = Some c ->
  rc' !! q = Some c /\ Forall (quiet_about q) d.
Proof.
  intros H. induction H as [rc | proc ps rc d1 c' rc1 d2 rc2 Hp Hg IH
                              | proc ps rc d1 rc1 d3 rc3 d2 rc2 Hp Hs Hg IH];
    intros Hq.
  - split; [exact Hq | constructor].
  - destruct (polls_recorded_other _ _ _ _ _ q c Hp Hq) as (Hq1 & Hd1).
    destruct (IH Hq1) as (Hq2 & Hd2).
    split; [exact Hq2|]. apply Forall_app. auto.
  - destruct (polls_recorded_other _ _ _ _ _ q c Hp Hq) as (Hq1 & Hd1).
    destruct (sends_recorded_other _ _ _ _ _ q c Hs Hq1) as (Hq3 & Hd3).
    destruct (IH Hq3) as (Hq2 & Hd2).
    split; [exact Hq2|]. apply Forall_app. split; [exact Hd1|].
    constructor; [exact I|]. apply Forall_app. auto.
Qed.

(** A process that is still running is sent the signal. *)
Lemma sends_running_other e p sig rc d rc' q :
  sends p sig rc d rc' -> Forall (answered e) d ->
  (forall i, waitpid_ans e i q = StillRunning) ->
  rc !! q = None ->
  rc' !! q = None /\ (p = q -> In (q, sig) (deliveries d) \/ sig = SIG0).
Proof.
  intros H Hans Hrun Hq. destruct H as [c' Hp | status Hp | a Hp Ha].
  - split; [exact Hq|]. intros ->. congruence.
  - destruct (decide (p = q)) as [->|Hne].
    + destruct (Forall_inv Hans) as (i & Hi). rewrite Hrun in Hi. discriminate Hi.
    + split; [rewrite lookup_insert_ne by assumption; exact Hq|]. contradiction.
  - split; [exact Hq|]. intros ->. destruct sig; [right; reflexivity | |];
      left; cbn [deliveries]; left; reflexivity.
Qed.

Lemma polls_running_other e p rc d r rc' q :
  polls p rc d r rc' -> Forall (answered e) d ->
  (forall i, waitpid_ans e i q = StillRunning) ->
  rc !! q = None ->
  rc' !! q = None /\ (p = q -> r = None).
Proof.
  intros H Hans Hrun Hq. destruct H as [c' Hp | status Hp | Hp].
  - split; [exact Hq|]. intros ->. congruence.
  - destruct (decide (p = q)) as [->|Hne].
    + destruct (Forall_inv Hans) as (i & Hi). rewrite Hrun in Hi. discriminate Hi.
    + split; [rewrite lookup_insert_ne by assumption; exact Hq|]. contradiction.
  - split; [exact Hq|]. reflexivity.
Qed.

Lemma in_deliveries_app_l x a b : In x (deliveries a) -> In x (deliveries (a ++ b)).
Proof. rewrite deliveries_app. intros H. apply in_or_app. left. exact H. Qed.

Lemma in_deliveries_app_r x a b : In x (deliveries b) -> In x (deliveries (a ++ b)).
Proof. rewrite deliveries_app. intros H. apply in_or_app. right. exact H. Qed.

Lemma graceful_stops_running e ps rc d rc' q :
  graceful_stops ps rc d rc' -> Forall (answered e) d ->
  (forall i, waitpid_ans e i q = StillRunning) ->
  rc !! q = None ->
  rc' !! q = None /\
  ((exists proc, In proc ps /\ pid proc = q) -> In (q, SIGTERM) (deliveries d)).
Proof.
  intros H Hans Hrun. induction H as [rc | proc ps rc d1 rc1 d2 rc2 Hs Hg IH];
    intros Hq.
  - split; [exact Hq|]. intros (proc & [] & _).
  - inversion Hans as [|? ? _ Hans']. subst.
    apply Forall_app in Hans' as (Hans1 & Hans2).
    destruct (sends_running_other e _ _ _ _ _ q Hs Hans1 Hrun Hq) as (Hq1 & Hd1).
    destruct (IH Hans2 Hq1) as (Hq2 & Hd2).
    split; [exact Hq2|]. intros (proc' & [-> | Hin] & Hpid).
    + change (EvTerminate (pid proc') :: d1 ++ d2)
        with ([EvTerminate (pid proc')] ++ d1 ++ d2).
      apply in_deliveries_app_r, in_deliveries_app_l.
      destruct (Hd1 Hpid) as [H | H]; [exact H | discriminate H].
    + change (EvTerminate (pid proc) :: d1 ++ d2)
        with ([EvTerminate (pid proc)] ++ d1 ++ d2).
      apply in_deliveries_app_r, in_deliveries_app_r, Hd2. eauto.
Qed.

Lemma forced_kills_running e ps rc d rc' q :
  forced_kills ps rc d rc' -> Forall (answered e) d ->
  (forall i, waitpid_ans e i q = StillRunning) ->
  rc !! q = None ->
  rc' !! q = None /\
  ((exists proc, In proc ps /\ pid proc = q) -> In (q, SIGKILL) (deliveries d)).
Proof.
  intros H Hans Hrun.
  induction H as [rc | proc ps rc d1 c' rc1 d2 rc2 Hp Hg IH
                     | proc ps rc d1 rc1 d3 rc3 d2 rc2 Hp Hs Hg IH];
    intros Hq.
  - split; [exact Hq|]. intros (proc & [] & _).
  - apply Forall_app in Hans as (Hans1 & Hans2).
    destruct (polls_running_other e _ _ _ _ _ q Hp Hans1 Hrun Hq) as (Hq1 & Hd1).
    destruct (IH Hans2 Hq1) as (Hq2 & Hd2).
    split; [exact Hq2|]. intros (proc' & [-> | Hin] & Hpid).
    + specialize (Hd1 Hpid). discriminate Hd1.
    + apply in_deliveries_app_r, Hd2. eauto.
  - apply Forall_app in Hans as (Hans1 & Hans').
    inversion Hans' as [|? ? _ Hans'']. subst.
    apply Forall_app in Hans'' as (Hans3 & Hans2).
    destruct (polls_running_other e _ _ _ _ _ q Hp Hans1 Hrun Hq) as (Hq1 & _).
    destruct (sends_running_other e _ _ _ _ _ q Hs Hans3 Hrun Hq1) as (Hq3 & Hd3).
    destruct (IH Hans2 Hq3) as (Hq2 & Hd2).
    split; [exact Hq2|]. intros (proc' & [-> | Hin] & Hpid).
    + apply in_deliveries_app_r.
      change (EvForceKill (pid proc') :: d3 ++ d2)
        with ([EvForceKill (pid proc')] ++ d3 ++ d2).
      apply in_deliveries_app_r, in_deliveries_app_l.
      destruct (Hd3 Hpid) as [H | H]; [exact H | discriminate H].
    + apply in_deliveries_app_r.
      change (EvForceKill (pid proc) :: d3 ++ d2)
        with ([EvForceKill (pid proc)] ++ d3 ++ d2).
      apply in_deliveries_app_r, in_deliveries_app_r, Hd2. eauto.
Qed.

(** The steps of the coordinator itself in the two loops. *)
Lemma sends_requests p sig rc d rc' : sends p sig rc d rc' -> requests d = [].
Proof. intros H. destruct H; reflexivity. Qed.

Lemma polls_requests p rc d r rc' :
  polls p rc d r rc' -> requests d = [EvPoll p r].
Proof. intros H. destruct H; reflexivity. Qed.

Lemma graceful_stops_requests ps rc d rc' :
  graceful_stops ps rc d rc' ->
  requests d = (fun p => EvTerminate (pid p)) <$> ps.
Proof.
  intros H. induction H as [rc | proc ps rc d1 rc1 d2 rc2 Hs Hg IH]; [reflexivity|].
  change (EvTerminate (pid proc) :: d1 ++ d2)
    with ([EvTerminate (pid proc)] ++ d1 ++ d2).
  rewrite !requests_app, (sends_requests _ _ _ _ _ Hs), IH. reflexivity.
Qed.

Lemma forced_kills_requests ps rc d rc' :
  forced_kills ps rc d rc' ->
  exists rcs, length rcs = length ps /\
              requests d = concat (zip_with poll_then_kill ps rcs).
Proof.
  intros H.
  induction H as [rc | proc ps rc d1 c' rc1 d2 rc2 Hp Hg (rcs & Hlen & IH)
                     | proc ps rc d1 rc1 d3 rc3 d2 rc2 Hp Hs Hg (rcs & Hlen & IH)].
  - exists []. split; reflexivity.
  - exists (Some c' :: rcs). split; [cbn; congruence|].
    rewrite requests_app, (polls_requests _ _ _ _ _ Hp), IH. reflexivity.
  - exists (None :: rcs). split; [cbn; congruence|].
    change (EvForceKill (pid proc) :: d3 ++ d2)
      with ([EvForceKill (pid proc)] ++ d3 ++ d2).
    rewrite !requests_app, (polls_requests _ _ _ _ _ Hp),
      (sends_requests _ _ _ _ _ Hs), IH. reflexivity.
Qed.

(** When every exit is recorded, the requests are all that happens. *)
Lemma graceful_stops_recorded ps rc d rc' :
  graceful_stops ps rc d rc' ->
  (forall p, In p ps -> is_Some (rc !! pid p)) ->
  d = ((fun p => EvTerminate (pid p)) <$> ps) /\ rc' = rc.
Proof.
  intros H. induction H as [rc | proc ps rc d1 rc1 d2 rc2 Hs Hg IH]; intros Hrec.
  - split; reflexivity.
  - destruct (Hrec proc (or_introl eq_refl)) as [c Hc].
    destruct Hs as [c' Hp | status Hp | a Hp Ha]; try congruence.
    destruct IH as (-> & ->); [intros q Hq; apply Hrec; right; exact Hq|].
    split; reflexivity.
Qed.

Lemma forced_kills_recorded ps rc d rc' :
  forced_kills ps rc d rc' ->
  (forall p, In p ps -> is_Some (rc !! pid p)) ->
  d = ((fun p => EvPoll (pid p) (rc !! pid p)) <$> ps) /\ rc' = rc.
Proof.
  intros H.
  induction H as [rc | proc ps rc d1 c' rc1 d2 rc2 Hp Hg IH
                     | proc ps rc d1 rc1 d3 rc3 d2 rc2 Hp Hs Hg IH];
    intros Hrec.
  - split; reflexivity.
  - destruct (Hrec proc (or_introl eq_refl)) as [c Hc].
    inversion Hp as [c'' Hp' | status Hp' | Hp']; subst; try congruence.
    destruct IH as (-> & ->); [intros q Hq; apply Hrec; right; exact Hq|].
    split; [|reflexivity]. cbn [fmap list_fmap app]. rewrite Hp'. reflexivity.
  - destruct (Hrec proc (or_introl eq_refl)) as [c Hc].
    inversion Hp; subst; congruence.
Qed.

(** C6, as amended.  At every trigger, the first or a later one, in a
    world that lets the script signal its children, [handle_signal]
    returns normally with the stop flag set.  Its trace is: the flag is
    set; then the first loop [graceful_stops], one graceful-stop request
    per process of the run; then one sleep of one second; then the
    second loop [forced_kills], for each process one poll, followed by a
    force-kill request exactly when that poll reports the process as
    still running.  A request asks the system whether the process has
    exited, records an exit it learns of, and sends the signal,
    [SIGTERM] for a graceful stop and [SIGKILL] for a forced kill, to a
    process still running; a poll asks in the same way.  For a process
    whose exit is already recorded nothing is asked and nothing is sent,
    whatever holds of the other processes.  A process of the run that
    the system reports as running whenever it is asked is sent both
    signals, at a second trigger as at the first: a later trigger is not
    a no-op, it goes through the same steps again.  When the exit of
    every process is recorded, the requests and polls are all that
    happens. *)
Theorem handle_signal_protocol ps w :
  signals_accepted (env w) ->
  exists rcs d1 rc1 d2,
    length rcs = length ps /\
    fst (handle_signal ps w) = Ret tt /\
    stop_event (snd (handle_signal ps w)) = true /\
    trace (snd (handle_signal ps w))
    = trace w ++ [EvSetStop] ++ d1 ++ [EvSleep 1000] ++ d2 /\
    graceful_stops ps (returncode w) d1 rc1 /\
    forced_kills ps rc1 d2 (returncode (snd (handle_signal ps w))) /\
    requests (trace (snd (handle_signal ps w)))
    = requests (trace w) ++ [EvSetStop]
        ++ ((fun p => EvTerminate (pid p)) <$> ps)
        ++ [EvSleep 1000]
        ++ concat (zip_with poll_then_kill ps rcs) /\
    (forall q c,
       returncode w !! q = Some c ->
       Forall (quiet_about q) (d1 ++ d2)) /\
    (forall proc,
       In proc ps ->
       returncode w !! pid proc = None ->
       (forall i, waitpid_ans (env w) i (pid proc) = StillRunning) ->
       In (pid proc, SIGTERM) (deliveries d1) /\
       In (pid proc, SIGKILL) (deliveries d2)) /\
    ((forall p, In p ps -> is_Some (returncode w !! pid p)) ->
     d1 = ((fun p => EvTerminate (pid p)) <$> ps) /\
     d2 = ((fun p => EvPoll (pid p) (returncode w !! pid p)) <$> ps)).
Proof.
  intros Hacc.
  cut (exists w2 d1 rc1 d2,
         handle_signal ps w = (Ret tt, w2) /\ stop_event w2 = true /\
         trace w2 = trace w ++ [EvSetStop] ++ d1 ++ [EvSleep 1000] ++ d2 /\
         graceful_stops ps (returncode w) d1 rc1 /\
         forced_kills ps rc1 d2 (returncode w2) /\
         Forall (answered (env w)) d1 /\ Forall (answered (env w)) d2).
  { intros (w2 & d1 & rc1 & d2 & -> & Hs & Ht & Hg & Hf & Ha1 & Ha2).
    destruct (forced_kills_requests _ _ _ _ Hf) as (rcs & Hlen & Hr2).
    exists rcs, d1, rc1, d2. cbn [fst snd].
    split; [exact Hlen|]. split; [reflexivity|]. split; [exact Hs|].
    split; [exact Ht|]. split; [exact Hg|]. split; [exact Hf|].
    split; [|split; [|split]].
    - rewrite Ht, !requests_app, (graceful_stops_requests _ _ _ _ Hg), Hr2.
      reflexivity.
    - intros q c Hq.
      destruct (graceful_stops_quiet _ _ _ _ q c Hg Hq) as (Hq1 & Hd1).
      destruct (forced_kills_quiet _ _ _ _ q c Hf Hq1) as (_ & Hd2).
      apply Forall_app. auto.
    - intros proc Hin Hq Hrun.
      destruct (graceful_stops_running _ _ _ _ _ (pid proc) Hg Ha1 Hrun Hq)
        as (Hq1 & Hd1).
      destruct (forced_kills_running _ _ _ _ _ (pid proc) Hf Ha2 Hrun Hq1)
        as (_ & Hd2).
      split; [apply Hd1 | apply Hd2]; eauto.
    - intros Hrec.
      destruct (graceful_stops_recorded _ _ _ _ Hg Hrec) as (-> & ->).
      destruct (forced_kills_recorded _ _ _ _ Hf Hrec) as (-> & _).
      split; reflexivity. }
  unfold handle_signal. unfold bind at 1. unfold stop_event_set at 1.
  unfold bind at 1.
  destruct (terminate_all_protocol ps (log EvSetStop (with_stop true w)) Hacc)
    as (w1 & d1 & -> & Ht1 & Hg & Ha1 & He1 & Hs1).
  unfold bind at 1. unfold Sys.time_sleep at 1.
  destruct (second_loop_protocol ps (log (EvSleep 1000) (call 1000 w1)))
    as (w2 & d2 & -> & Ht2 & Hf & Ha2 & He2 & Hs2).
  { cbn [env log call]. rewrite He1. exact Hacc. }
  cbn [env log call with_stop stop_event trace returncode] in *.
  exists w2, d1, (returncode w1), d2. split; [reflexivity|].
  split; [rewrite Hs2, Hs1; reflexivity|].
  split; [rewrite Ht2, Ht1, <- !app_assoc; reflexivity|].
  split; [exact Hg|]. split; [exact Hf|]. split; [exact Ha1|].
  rewrite He1 in Ha2. exact Ha2.
Qed.

(** C6, as stated, fails. Two runs of one process, each followed by a
    second trigger.  Where the child has exited by the time it is polled,
    the second trigger still goes through its steps and waits another
    second.  Where the child is still running, the second trigger
    delivers both signals once more. *)
Lemma second_trigger_repeats :
  let ps := [{| pid := 4001 |}] in
  let w1 := snd (handle_signal ps (Sample.boot Sample.obedient [])) in
  let v1 := snd (handle_signal ps (Sample.boot Sample.stubborn [])) in
  returncode w1 !! 4001 = Some (-15) /\
  ~ second_trigger_is_noop ps w1 /\
  clock (snd (handle_signal ps w1)) = clock w1 + 1000 /\
  ~ second_trigger_is_noop ps v1 /\
  deliveries (trace v1) = [(4001, SIGTERM); (4001, SIGKILL)] /\
  deliveries (trace (snd (handle_signal ps v1)))
  = [(4001, SIGTERM); (4001, SIGKILL); (4001, SIGTERM); (4001, SIGKILL)].
Proof.
  cbv zeta. unfold second_trigger_is_noop.
  split; [vm_compute; reflexivity|].
  split; [intros [_ H]; vm_compute in H; discriminate H|].
  split; [vm_compute; reflexivity|].
  split; [intros [_ H]; vm_compute in H; discriminate H|].
  split; vm_compute; reflexivity.
Qed.

End Shutdown.

(** ** LogTailer *)

Import Tailer.

Section TailerFacts.

Variable prefix : string.

(** *** Shutdown latency *)

Lemma step_after_stop c :
  stop c = true ->
  stop (step prefix c) = true /\
  (steps_left (at_pc (step prefix c)) <= steps_left (at_pc c) - 1)%nat /\
  (length (stdout (step prefix c)) + writes_left (at_pc (step prefix c))
   <= length (stdout c) + writes_left (at_pc c))%nat /\
  (naps (step prefix c) + naps_left (at_pc (step prefix c))
   <= naps c + naps_left (at_pc c))%nat.
Proof.
  intros Hs. unfold step.
  destruct (at_pc c) eqn:Hpc; rewrite ?Hs; cbn;
    try (destruct (file c); cbn);
    try (destruct (read_line _); cbn);
    rewrite ?length_app, ?Hpc; cbn; repeat split; auto; lia.
Qed.

Lemma apply_after_stop c m :
  stop c = true ->
  stop (apply prefix c m) = true /\
  (steps_left (at_pc (apply prefix c m))
   <= steps_left (at_pc c) - count_ticks [m])%nat /\
  (length (stdout (apply prefix c m)) + writes_left (at_pc (apply prefix c m))
   <= length (stdout c) + writes_left (at_pc c))%nat /\
  (naps (apply prefix c m) + naps_left (at_pc (apply prefix c m))
   <= naps c + naps_left (at_pc c))%nat.
Proof.
  intros Hs. destruct m; cbn [apply count_ticks].
  - apply step_after_stop, Hs.
  - destruct (file c); cbn; rewrite ?Hs; repeat split; lia.
  - cbn; rewrite ?Hs; repeat split; lia.
  - cbn; repeat split; lia.
Qed.

Lemma count_ticks_cons m ms :
  count_ticks (m :: ms) = (count_ticks [m] + count_ticks ms)%nat.
Proof. destruct m; reflexivity. Qed.

Lemma run_after_stop ms : forall c,
  stop c = true ->
  stop (run prefix ms c) = true /\
  (steps_left (at_pc (run prefix ms c))
   <= steps_left (at_pc c) - count_ticks ms)%nat /\
  (length (stdout (run prefix ms c)) + writes_left (at_pc (run prefix ms c))
   <= length (stdout c) + writes_left (at_pc c))%nat /\
  (naps (run prefix ms c) + naps_left (at_pc (run prefix ms c))
   <= naps c + naps_left (at_pc c))%nat.
Proof.
  induction ms as [|m ms IH]; intros c Hs.
  - cbn. repeat split; auto; lia.
  - unfold run. cbn [foldl]. fold (run prefix ms (apply prefix c m)).
    destruct (apply_after_stop c m Hs) as (Hs1 & Hd1 & Hw1 & Hn1).
    destruct (IH _ Hs1) as (Hs2 & Hd2 & Hw2 & Hn2).
    rewrite count_ticks_cons. repeat split; auto; lia.
Qed.

(** C8. Once the stop flag is set, whatever else happens around the
    tailer, it sleeps at most one more polling interval, writes at most
    one more line (the one it had already read), and has left
    [tail_file] after at most four of its own statements; it neither
    writes nor sleeps after that. *)
Theorem tail_file_stops ms c :
  stop c = true ->
  (naps (run prefix ms c) <= naps c + 1)%nat /\
  (length (stdout (run prefix ms c)) <= length (stdout c) + 1)%nat /\
  ((4 <= count_ticks ms)%nat -> halted (run prefix ms c) = true) /\
  (halted c = true ->
   stdout (run prefix ms c) = stdout c /\ naps (run prefix ms c) = naps c).
Proof.
  intros Hs. destruct (run_after_stop ms c Hs) as (_ & Hd & Hw & Hn).
  split; [|split; [|split]].
  - assert (naps_left (at_pc c) <= 1)%nat by (destruct (at_pc c); cbn; lia). lia.
  - assert (writes_left (at_pc c) <= 1)%nat by (destruct (at_pc c); cbn; lia). lia.
  - intros Ht. assert (steps_left (at_pc c) <= 4)%nat by (destruct (at_pc c); cbn; lia).
    unfold halted. destruct (at_pc (run prefix ms c)); cbn in Hd; try lia; reflexivity.
  - intros Hh. clear Hd Hw Hn Hs. revert c Hh.
    induction ms as [|m ms IH]; intros c Hh; [split; reflexivity|].
    unfold run. cbn [foldl]. fold (run prefix ms (apply prefix c m)).
    assert (Hm : halted (apply prefix c m) = true /\
                 stdout (apply prefix c m) = stdout c /\
                 naps (apply prefix c m) = naps c).
    { unfold halted in *. destruct m; cbn [apply].
      - unfold step. destruct (at_pc c) eqn:Hpc; try discriminate Hh;
          rewrite Hpc; auto.
      - destruct (file c); cbn; auto.
      - cbn; auto.
      - cbn; auto. }
    destruct Hm as (Hh1 & Ho1 & Hn1). destruct (IH _ Hh1) as (Ho2 & Hn2).
    split; congruence.
Qed.


(** *** Emission *)

Lemma app_cons_str ch (a b : string) : String ch a +:+ b = String ch (a +:+ b).
Proof. reflexivity. Qed.

Lemma app_nil_l_str (b : string) : "" +:+ b = b.
Proof. reflexivity. Qed.

Lemma app_nil_r_str (a : string) : a +:+ "" = a.
Proof.
  induction a as [|ch a IH]; [reflexivity|]. rewrite app_cons_str, IH. reflexivity.
Qed.

Lemma app_assoc_str (a b c : string) : (a +:+ b) +:+ c = a +:+ b +:+ c.
Proof.
  induction a as [|ch a IH]; [reflexivity|]. rewrite !app_cons_str, IH. reflexivity.
Qed.

Lemma length_app_str (a b : string) :
  String.length (a +:+ b) = (String.length a + String.length b)%nat.
Proof.
  induction a as [|ch a IH]; [reflexivity|].
  rewrite app_cons_str. cbn [String.length Nat.add]. rewrite IH. reflexivity.
Qed.

Lemma skip_app (a r : string) : skip (String.length a) (a +:+ r) = r.
Proof.
  induction a as [|ch a IH]; [destruct r; reflexivity|].
  rewrite app_cons_str. cbn [String.length skip]. exact IH.
Qed.

Lemma skip_app_plus (a b r : string) n :
  n = (String.length a + String.length b)%nat ->
  skip n (a +:+ b +:+ r) = r.
Proof.
  intros ->. rewrite <- length_app_str, <- app_assoc_str. apply skip_app.
Qed.

(** Two texts of the same length that begin the same text are equal. *)
Lemma app_same_length (a : string) : forall b r s,
  a +:+ r = b +:+ s -> String.length a = String.length b -> a = b.
Proof.
  induction a as [|ch a IH]; intros [|ch' b] r s E L; try discriminate L.
  - reflexivity.
  - rewrite !app_cons_str in E. inversion E. subst ch'. f_equal.
    eapply IH; [eassumption|]. cbn [String.length] in L. lia.
Qed.

Lemma first_line_cons ch unread raw chunk :
  Ascii.eqb ch LF || Ascii.eqb ch CR = false ->
  first_line unread raw chunk ->
  first_line (String ch unread) (String ch raw) (String ch chunk).
Proof.
  intros Hch H.
  assert (Hb : forall body, no_break body = true ->
                            no_break (String ch body) = true).
  { intros body Hbody. cbn [no_break]. rewrite Hch, Hbody. reflexivity. }
  destruct H as [body rest H | body rest H | body rest H Hr | body H Hne].
  - exact (line_lf (String ch body) rest (Hb _ H)).
  - exact (line_crlf (String ch body) rest (Hb _ H)).
  - exact (line_cr (String ch body) rest (Hb _ H) Hr).
  - apply (line_open (String ch body) (Hb _ H)). discriminate.
Qed.

(** [read_line] and [line_span] read one line, as [first_line] describes
    it. *)
Lemma read_line_first r :
  r <> "" ->
  exists raw rest,
    r = raw +:+ rest /\ String.length raw = line_span r /\
    first_line r raw (read_line r).
Proof.
  induction r as [|ch r IH]; [congruence|]. intros _.
  cbn [read_line line_span].
  destruct (Ascii.eqb ch LF) eqn:Hlf.
  { apply Ascii.eqb_eq in Hlf. subst ch. cbn [orb].
    exists nl, r. split; [reflexivity|]. split; [reflexivity|].
    exact (line_lf "" r eq_refl). }
  destruct (Ascii.eqb ch CR) eqn:Hcr.
  { apply Ascii.eqb_eq in Hcr. subst ch. cbn [orb].
    destruct r as [|ch' r'].
    - exists cr, "". split; [reflexivity|]. split; [reflexivity|].
      exact (line_cr "" "" eq_refl eq_refl).
    - destruct (Ascii.eqb ch' LF) eqn:Hlf'.
      + apply Ascii.eqb_eq in Hlf'. subst ch'.
        exists (cr +:+ nl), r'. split; [reflexivity|]. split; [reflexivity|].
        exact (line_crlf "" r' eq_refl).
      + exists cr, (String ch' r'). split; [reflexivity|]. split; [reflexivity|].
        exact (line_cr "" (String ch' r') eq_refl Hlf'). }
  cbn [orb].
  destruct r as [|ch' r'].
  { exists (String ch ""), "". split; [reflexivity|]. split; [reflexivity|].
    apply line_open; [|discriminate]. cbn [no_break]. rewrite Hlf, Hcr. reflexivity. }
  destruct IH as (raw & rest & Hr & Hlen & Hfirst); [discriminate|].
  exists (String ch raw), rest. split; [rewrite app_cons_str, <- Hr; reflexivity|].
  split; [cbn [String.length]; rewrite Hlen; reflexivity|].
  apply first_line_cons; [rewrite Hlf, Hcr; reflexivity | exact Hfirst].
Qed.

Lemma read_line_empty r : read_line r = "" -> r = "".
Proof.
  destruct r as [|ch r]; [reflexivity|]. cbn [read_line].
  destruct (Ascii.eqb ch LF || Ascii.eqb ch CR); discriminate.
Qed.

Lemma read_line_ok r : read_line r <> "" -> chunk_ok (read_line r) = true.
Proof.
  induction r as [|ch r IH]; [intros H; contradiction|]. intros _.
  cbn [read_line].
  destruct (Ascii.eqb ch LF) eqn:E; [reflexivity|]. cbn [orb].
  destruct (Ascii.eqb ch CR); [reflexivity|].
  destruct (read_line r) as [|ch2 l] eqn:Hr; [reflexivity|].
  cbn [chunk_ok]. rewrite E. cbn [negb andb]. apply IH. discriminate.
Qed.

Lemma join_all_snoc chunks x : join_all (chunks ++ [x]) = join_all chunks +:+ x.
Proof.
  induction chunks as [|y chunks IH]; cbn [app join_all]; [apply app_nil_r_str|].
  rewrite IH, app_assoc_str. reflexivity.
Qed.

Lemma consistent_start f s : consistent prefix (start f s).
Proof. cbn. auto. Qed.

Lemma consistent_step c : consistent prefix c -> consistent prefix (step prefix c).
Proof.
  unfold consistent, step, pending. destruct (attached c) as [a|] eqn:Ha.
  - intros ((before & raws & chunks & rest & Hf & Hb & Hp & Ho & Hc) & Hpc).
    destruct (at_pc c) eqn:Hl; try contradiction.
    + (* AtLoop *)
      destruct (stop c); cbn [goto attached at_pc file pos stdout]; rewrite ?Ha;
        (split; [|exact I]); exists before, raws, chunks, rest; auto.
    + (* AtRead *)
      rewrite Hf. cbn [default from_option id].
      rewrite (skip_app_plus before (join_all raws) rest)
        by (rewrite Hp, Hb; reflexivity).
      destruct (read_line rest) as [|ch l] eqn:Hr.
      * cbn [goto attached at_pc file pos stdout].
        rewrite ?Ha. split; [|exact I].
        exists before, raws, chunks, rest. auto.
      * cbn [attached at_pc file pos stdout]. rewrite ?Ha.
        assert (Hne : rest <> "").
        { intros ->. discriminate Hr. }
        assert (Hok : chunk_ok (String ch l) = true).
        { rewrite <- Hr. apply read_line_ok. rewrite Hr. discriminate. }
        split; [|exact Hok].
        destruct (read_line_first rest Hne) as (raw & rest' & Hrest & Hlen & Hfirst).
        exists before, (raws ++ [raw]), chunks, rest'.
        rewrite join_all_snoc, app_assoc_str, <- Hrest.
        split; [reflexivity|]. split; [exact Hb|].
        split; [rewrite Hp, length_app_str, Hlen; lia|].
        split; [exact Ho|].
        rewrite app_nil_r in Hc. apply Forall2_app; [exact Hc|].
        constructor; [|constructor]. exists rest. rewrite <- Hr. exact Hfirst.
    + (* AtWrite *)
      cbn [attached at_pc file pos stdout]. rewrite ?Ha. split; [|exact I].
      exists before, raws, (chunks ++ [line]), rest.
      rewrite Ho, fmap_app, app_nil_r. auto.
    + (* AtSleep *)
      cbn [nap attached at_pc file pos stdout]. rewrite ?Ha. split; [|exact I].
      exists before, raws, chunks, rest. auto.
    + (* Returned *)
      rewrite ?Ha, ?Hl. split; [|exact I]. exists before, raws, chunks, rest. auto.
  - intros (Ho & Hpc).
    destruct (at_pc c) eqn:Hl; try contradiction;
      try (destruct (file c) as [txt|] eqn:Hf); try (destruct (stop c));
      cbn [goto nap attached at_pc file pos stdout]; rewrite ?Ha, ?Hl; auto.
    (* AtOpen, file present *)
    all: split; [|exact I]; exists txt, [], [], ""; cbn [join_all fmap list_fmap];
      rewrite !app_nil_r_str; repeat split; auto; constructor.
Qed.

Lemma consistent_apply c m : consistent prefix c -> consistent prefix (apply prefix c m).
Proof.
  destruct m; cbn [apply].
  - apply consistent_step.
  - destruct (file c) eqn:Hf; [auto|]. unfold consistent.
    cbn [set_file attached at_pc file pos stdout]. destruct (attached c); [|auto].
    intros ((before & raws & chunks & rest & Hf' & _) & _).
    rewrite Hf in Hf'. discriminate Hf'.
  - unfold consistent, pending. cbn [set_file attached at_pc file pos stdout].
    destruct (attached c) as [a|]; [|auto].
    intros ((before & raws & chunks & rest & Hf & Hb & Hp & Ho & Hc) & Hpc).
    split; [|exact Hpc]. exists before, raws, chunks, (rest +:+ s).
    rewrite Hf. cbn [default from_option id]. rewrite !app_assoc_str. auto.
  - unfold consistent, pending. cbn [attached at_pc file pos stdout]. auto.
Qed.

Lemma consistent_run ms : forall c,
  consistent prefix c -> consistent prefix (run prefix ms c).
Proof.
  induction ms as [|m ms IH]; intros c Hc; [exact Hc|].
  unfold run. cbn [foldl]. apply IH, consistent_apply, Hc.
Qed.

(** *** The moment of attachment *)

Lemma run_app ms1 ms2 c :
  run prefix (ms1 ++ ms2) c = run prefix ms2 (run prefix ms1 c).
Proof. unfold run. apply foldl_app. Qed.

(** The tailer does not write to the file, and the file only grows. *)
Lemma step_file c : file (step prefix c) = file c.
Proof.
  unfold step.
  destruct (at_pc c); try (destruct (file c) eqn:E); try (destruct (stop c));
    try (destruct (read_line _)); cbn [file goto nap]; rewrite ?E; reflexivity.
Qed.

Lemma file_grows_apply c m txt :
  file c = Some txt -> exists more, file (apply prefix c m) = Some (txt +:+ more).
Proof.
  intros Hf. destruct m as [| |s|]; cbn [apply].
  - exists "". rewrite app_nil_r_str, step_file. exact Hf.
  - exists "". rewrite Hf, app_nil_r_str. exact Hf.
  - exists s. cbn [set_file file]. rewrite Hf. reflexivity.
  - exists "". rewrite app_nil_r_str. exact Hf.
Qed.

Lemma file_grows ms : forall c txt,
  file c = Some txt -> exists more, file (run prefix ms c) = Some (txt +:+ more).
Proof.
  induction ms as [|m ms IH]; intros c txt Hf.
  - exists "". rewrite app_nil_r_str. exact Hf.
  - unfold run. cbn [foldl]. fold (run prefix ms (apply prefix c m)).
    destruct (file_grows_apply c m txt Hf) as (more1 & H1).
    destruct (IH _ _ H1) as (more2 & H2).
    exists (more1 +:+ more2). rewrite H2, app_assoc_str. reflexivity.
Qed.

(** An attached tailer stays attached at the same offset. *)
Lemma attached_apply c m a :
  consistent prefix c -> attached c = Some a ->
  attached (apply prefix c m) = Some a.
Proof.
  intros Hc Ha. unfold consistent in Hc. rewrite Ha in Hc. destruct Hc as (_ & Hpc).
  destruct m as [| |s|]; cbn [apply].
  - unfold step. destruct (at_pc c); try contradiction;
      try (destruct (stop c)); try (destruct (read_line _)); exact Ha.
  - destruct (file c); exact Ha.
  - exact Ha.
  - exact Ha.
Qed.

Lemma attached_run ms : forall c a,
  consistent prefix c -> attached c = Some a ->
  attached (run prefix ms c) = Some a.
Proof.
  induction ms as [|m ms IH]; intros c a Hc Ha; [exact Ha|].
  unfold run. cbn [foldl]. fold (run prefix ms (apply prefix c m)).
  apply IH; [apply consistent_apply, Hc | apply attached_apply; assumption].
Qed.

(** Attaching happens at the statement that opens the file. *)
Lemma attaches_at_open c m a :
  attached c = None -> attached (apply prefix c m) = Some a ->
  m = Tick /\ at_pc c = AtOpen /\
  exists before, file c = Some before /\ String.length before = a.
Proof.
  intros Hn. destruct m as [| |s|]; cbn [apply].
  - unfold step. intros H. destruct (at_pc c) eqn:Hl;
      try (destruct (file c) as [txt|] eqn:Hf); try (destruct (stop c));
      try (destruct (read_line _));
      cbn [goto nap attached] in H; rewrite ?Hn in H; try discriminate H.
    all: inversion H; eauto.
  - destruct (file c); cbn [set_file attached]; rewrite Hn; discriminate.
  - cbn [set_file attached]. rewrite Hn. discriminate.
  - cbn [attached]. rewrite Hn. discriminate.
Qed.

Lemma attach_point ms : forall c a,
  consistent prefix c ->
  attached c = None -> attached (run prefix ms c) = Some a ->
  exists ms1 ms2 before,
    ms = ms1 ++ Tick :: ms2 /\
    at_pc (run prefix ms1 c) = AtOpen /\
    file (run prefix ms1 c) = Some before /\
    String.length before = a.
Proof.
  induction ms as [|m ms IH]; intros c a Hc Hn Ha.
  - cbn in Ha. congruence.
  - unfold run in Ha. cbn [foldl] in Ha. fold (run prefix ms (apply prefix c m)) in Ha.
    destruct (attached (apply prefix c m)) as [a'|] eqn:Ha'.
    + destruct (attaches_at_open c m a' Hn Ha') as (-> & Hl & before & Hf & Hb).
      rewrite (attached_run ms _ a' (consistent_apply c Tick Hc) Ha') in Ha.
      inversion Ha. subst a'.
      exists [], ms, before. auto.
    + destruct (IH _ a (consistent_apply c m Hc) Ha' Ha)
        as (ms1 & ms2 & before & -> & Hl & Hf & Hb).
      exists (m :: ms1), ms2, before. auto.
Qed.

End TailerFacts.

(** *** Content does get written *)

Section Drain.

Variable prefix : string.

Lemma run_ticks_S k c :
  run prefix (repeat Tick (S k)) c = run prefix (repeat Tick k) (step prefix c).
Proof. reflexivity. Qed.

Lemma step_keeps c :
  at_pc c <> AtOpen ->
  attached (step prefix c) = attached c /\ stop (step prefix c) = stop c /\
  file (step prefix c) = file c.
Proof.
  intros Hpc. unfold step. destruct (at_pc c) eqn:Hl; try contradiction;
    try (destruct (file c) eqn:Hf); try (destruct (stop c) eqn:Hs);
    try (destruct (read_line _)); cbn; rewrite ?Hf, ?Hs; auto.
Qed.

Lemma line_span_positive r : r <> "" -> (1 <= line_span r)%nat.
Proof.
  destruct r as [|ch r]; [congruence|]. intros _. cbn [line_span].
  destruct (Ascii.eqb ch LF); [lia|].
  destruct (Ascii.eqb ch CR); [|lia].
  destruct r as [|ch' r]; [lia|]. destruct (Ascii.eqb ch' LF); lia.
Qed.

(** What the statement that reads does: with nothing beyond the handle
    the tailer goes to sleep, having written all there is; otherwise it
    has read the first line of what lies beyond the handle, and the
    handle is past the characters of that line. *)
Lemma read_step c a :
  consistent prefix c -> attached c = Some a -> at_pc c = AtRead ->
  exists txt,
    file c = Some txt /\
    (skip (pos c) txt = "" ->
     at_pc (step prefix c) = AtSleep /\ caught_up prefix a c) /\
    (skip (pos c) txt <> "" ->
     exists raw chunk,
       first_line (skip (pos c) txt) raw chunk /\
       at_pc (step prefix c) = AtWrite chunk /\
       pos (step prefix c) = (pos c + String.length raw)%nat).
Proof.
  intros Hc Ha Hl. unfold consistent in Hc. rewrite Ha, Hl in Hc.
  destruct Hc as ((before & raws & chunks & rest & Hf & Hb & Hp & Ho & Hall) & _).
  unfold pending in Hall. rewrite Hl, app_nil_r in Hall.
  exists (before +:+ join_all raws +:+ rest). split; [exact Hf|].
  rewrite (skip_app_plus before (join_all raws) rest)
    by (rewrite Hp, Hb; reflexivity).
  assert (Hstep : step prefix c =
    match read_line rest with
    | "" => goto AtSleep c
    | _ => {| file := file c; stop := stop c; at_pc := AtWrite (read_line rest);
              pos := (pos c + line_span rest)%nat; attached := attached c;
              stdout := stdout c; naps := naps c |}
    end).
  { unfold step. rewrite Hl, Hf. cbn [default from_option id].
    rewrite (skip_app_plus before (join_all raws) rest)
      by (rewrite Hp, Hb; reflexivity).
    reflexivity. }
  split.
  - intros ->. rewrite Hstep. cbn [read_line goto at_pc]. split; [reflexivity|].
    exists before, raws, chunks. rewrite app_nil_r_str in Hf. auto.
  - intros Hne. destruct (read_line_first rest Hne) as (raw & rest' & Hr & Hlen & Hfirst).
    exists raw, (read_line rest). split; [exact Hfirst|].
    rewrite Hstep. destruct (read_line rest) eqn:Hline.
    + apply read_line_empty in Hline. contradiction.
    + cbn [at_pc pos]. rewrite Hlen. auto.
Qed.

(** From the loop test, the tailer writes all that is unread. *)
Lemma drain_from_loop n : forall c a,
  consistent prefix c -> attached c = Some a -> stop c = false ->
  at_pc c = AtLoop ->
  (String.length (default "" (file c)) - pos c <= n)%nat ->
  exists k, caught_up prefix a (run prefix (repeat Tick k) c) /\
            file (run prefix (repeat Tick k) c) = file c.
Proof.
  induction n as [|n IH]; intros c a Hc Ha Hs Hl Hn.
  all: pose proof Hc as Hc0; unfold consistent in Hc0; rewrite Ha, Hl in Hc0;
    destruct Hc0 as ((before & raws & chunks & rest & Hf & Hb & Hp & Ho & Hall) & _);
    unfold pending in Hall; rewrite Hl, app_nil_r in Hall;
    rewrite Hf in Hn; cbn [default from_option id] in Hn;
    rewrite Hp, !length_app_str, Hb in Hn.
  - exists 0%nat. split; [|reflexivity]. exists before, raws, chunks.
    destruct rest; [|cbn [String.length] in Hn; lia].
    rewrite app_nil_r_str in Hf. auto.
  - destruct rest as [|ch r] eqn:Hrest.
    { exists 0%nat. split; [|reflexivity]. exists before, raws, chunks.
      rewrite app_nil_r_str in Hf. auto. }
    rewrite <- Hrest in *.
    assert (Hne : rest <> "") by (rewrite Hrest; discriminate).
    (* loop test, read, write *)
    set (c1 := step prefix c). set (c2 := step prefix c1). set (c3 := step prefix c2).
    assert (H1 : c1 = goto AtRead c).
    { subst c1. unfold step. rewrite Hl, Hs. reflexivity. }
    assert (Hc1 : consistent prefix c1) by (apply consistent_step, Hc).
    assert (Ha1 : attached c1 = Some a) by (rewrite H1; exact Ha).
    assert (Hl1 : at_pc c1 = AtRead) by (rewrite H1; reflexivity).
    assert (Hskip : skip (pos c1) (before +:+ join_all raws +:+ rest) = rest).
    { rewrite H1. cbn [goto pos].
      apply skip_app_plus. rewrite Hp, Hb. reflexivity. }
    destruct (read_step c1 a Hc1 Ha1 Hl1) as (txt & Hf1 & _ & Hread).
    assert (txt = before +:+ join_all raws +:+ rest).
    { rewrite H1 in Hf1. cbn [goto file] in Hf1. congruence. }
    subst txt. rewrite Hskip in Hread.
    destruct (Hread Hne) as (raw & chunk & Hfirst & Hl2 & Hp2). fold c2 in Hl2, Hp2.
    assert (Hlen : (1 <= String.length raw)%nat).
    { destruct raw; [|cbn; lia]. inversion Hfirst as [b r0 ? E1 E2| b r0 ? E1 E2| b r0 ? ? E1 E2| b ? ? E1 E2].
      - destruct b; discriminate E2.
      - destruct b; discriminate E2.
      - destruct b; discriminate E2.
      - congruence. }
    destruct (step_keeps c1 ltac:(rewrite Hl1; discriminate)) as (Ha2 & Hs2 & Hf2).
    fold c2 in Ha2, Hs2, Hf2.
    destruct (step_keeps c2 ltac:(rewrite Hl2; discriminate)) as (Ha3 & Hs3 & Hf3).
    fold c3 in Ha3, Hs3, Hf3.
    assert (Hl3 : at_pc c3 = AtLoop /\ pos c3 = pos c2).
    { subst c3. unfold step. rewrite Hl2. cbn. auto. }
    destruct Hl3 as (Hl3 & Hp3).
    assert (Hs1 : stop c1 = stop c) by (rewrite H1; reflexivity).
    assert (Hp1 : pos c1 = pos c) by (rewrite H1; reflexivity).
    destruct (IH c3 a) as (k & Hk & Hfk).
    + repeat apply consistent_step. exact Hc.
    + congruence.
    + congruence.
    + exact Hl3.
    + rewrite Hf3, Hf2, Hf1, Hp3, Hp2, Hp1, Hp. cbn [default from_option id].
      rewrite !length_app_str, Hb. lia.
    + exists (S (S (S k))). rewrite !run_ticks_S. fold c1 c2 c3.
      split; [exact Hk|]. rewrite Hfk, Hf3, Hf2, H1. reflexivity.
Qed.

Lemma run_ticks_add j k c :
  run prefix (repeat Tick (j + k)) c
  = run prefix (repeat Tick k) (run prefix (repeat Tick j) c).
Proof.
  revert c. induction j as [|j IH]; intros c; [reflexivity|].
  cbn [Nat.add]. rewrite !run_ticks_S. apply IH.
Qed.

(** Within two statements an attached tailer is back at its loop test. *)
Lemma reach_loop c a :
  consistent prefix c -> attached c = Some a -> stop c = false ->
  halted c = false ->
  exists j,
    at_pc (run prefix (repeat Tick j) c) = AtLoop /\
    attached (run prefix (repeat Tick j) c) = Some a /\
    stop (run prefix (repeat Tick j) c) = false /\
    consistent prefix (run prefix (repeat Tick j) c).
Proof.
  intros Hc Ha Hs Hh. pose proof Hc as Hc0. unfold consistent in Hc0.
  rewrite Ha in Hc0. destruct Hc0 as (_ & Hpc). unfold halted in Hh.
  destruct (at_pc c) eqn:Hl; try contradiction; try discriminate Hh.
  - exists 0%nat. cbn. auto.
  - (* AtRead *)
    exists 2%nat. rewrite !run_ticks_S. cbn [repeat run foldl].
    assert (Hk1 := step_keeps c ltac:(rewrite Hl; discriminate)).
    destruct Hk1 as (Ha1 & Hs1 & _).
    assert (Hl1 : at_pc (step prefix c) = AtSleep \/
                  exists line, at_pc (step prefix c) = AtWrite line).
    { unfold step. rewrite Hl. cbv zeta.
      destruct (read_line _); cbn; eauto. }
    assert (Hk2 := step_keeps (step prefix c)
                     ltac:(destruct Hl1 as [E|[l E]]; rewrite E; discriminate)).
    destruct Hk2 as (Ha2 & Hs2 & _).
    split; [|split; [congruence | split; [congruence|]]].
    + unfold step at 1. destruct Hl1 as [E|[l E]]; rewrite E; reflexivity.
    + repeat apply consistent_step. exact Hc.
  - (* AtWrite *)
    exists 1%nat. rewrite run_ticks_S. cbn [repeat run foldl].
    destruct (step_keeps c ltac:(rewrite Hl; discriminate)) as (Ha1 & Hs1 & _).
    split; [unfold step; rewrite Hl; reflexivity|].
    split; [congruence | split; [congruence | apply consistent_step, Hc]].
  - (* AtSleep *)
    exists 1%nat. rewrite run_ticks_S. cbn [repeat run foldl].
    destruct (step_keeps c ltac:(rewrite Hl; discriminate)) as (Ha1 & Hs1 & _).
    split; [unfold step; rewrite Hl; reflexivity|].
    split; [congruence | split; [congruence | apply consistent_step, Hc]].
Qed.

(** Content appended after attachment does get written: a tailer that
    has attached and is not told to stop writes, left to run, everything
    that is in the file beyond the offset it attached at. *)
Lemma tail_file_drains f s ms a :
  attached (run prefix ms (start f s)) = Some a ->
  stop (run prefix ms (start f s)) = false ->
  halted (run prefix ms (start f s)) = false ->
  exists k,
    caught_up prefix a
      (run prefix (repeat Tick k) (run prefix ms (start f s))).
Proof.
  intros Ha Hs Hh.
  pose proof (consistent_run prefix ms _ (consistent_start prefix f s)) as Hc.
  destruct (reach_loop _ a Hc Ha Hs Hh) as (j & Hl & Ha' & Hs' & Hc').
  destruct (drain_from_loop _ _ a Hc' Ha' Hs' Hl (Nat.le_refl _)) as (k & Hk & _).
  exists (j + k)%nat. rewrite run_ticks_add. exact Hk.
Qed.

(** The text before the offset of attachment is the file as it was when
    it was opened. *)
Lemma attached_at_end f s ms a :
  attached (run prefix ms (start f s)) = Some a ->
  exists ms1 ms2 before raws chunks rest,
    ms = ms1 ++ Tick :: ms2 /\
    at_pc (run prefix ms1 (start f s)) = AtOpen /\
    file (run prefix ms1 (start f s)) = Some before /\
    String.length before = a /\
    file (run prefix ms (start f s))
    = Some (before +:+ join_all raws +:+ rest) /\
    pos (run prefix ms (start f s)) = (a + String.length (join_all raws))%nat /\
    stdout (run prefix ms (start f s)) = tag prefix <$> chunks /\
    Forall2 line_text raws (chunks ++ pending (run prefix ms (start f s))).
Proof.
  intros Ha.
  destruct (attach_point prefix ms (start f s) a (consistent_start prefix f s)
              eq_refl Ha) as (ms1 & ms2 & before & Hms & Hl & Hf & Hb).
  pose proof (consistent_run prefix ms _ (consistent_start prefix f s)) as Hc.
  unfold consistent in Hc. rewrite Ha in Hc.
  destruct Hc as ((before' & raws & chunks & rest & Hf' & Hb' & Hp & Ho & Hall) & _).
  assert (before' = before).
  { destruct (file_grows prefix (Tick :: ms2) _ _ Hf) as (more & Hg).
    rewrite <- run_app, <- Hms, Hf' in Hg. inversion Hg as [E].
    eapply app_same_length; [exact E | congruence]. }
  subst before'. exists ms1, ms2, before, raws, chunks, rest. auto 10.
Qed.

(** C5, as amended.  Nothing is written before the file is opened.  The
    handle is opened at the end of the file: the offset [a] of
    attachment is the length of the text [before] that the file held at
    the statement of the run that opened it, and none of that text is
    ever written.  From then on the file is [before], followed by the
    pieces [raws] read so far, in file order, without gaps and each
    once, and by the part not yet read; the writes are the chunks made
    of these pieces, one write per chunk with the prefix in front, the
    last chunk being the one read and not yet written when the tailer
    stands between reading and writing.  Every read takes the first line
    of what lies beyond the handle, as [first_line] describes it: up to
    the first line ending, a line feed, a carriage return or the two in
    a row, handed over as one line feed, or, when no line ending is
    there yet, up to the end of the file as it is at that moment.  So a
    line whose ending was not yet in the file when the tailer read it
    comes out in more than one prefixed chunk.  When the tailer finds
    nothing to read, everything after [before] has been written; and
    a tailer that is not told to stop writes, left to run, everything
    after [before]. *)
Theorem tail_file_emission f s ms :
  let c := run prefix ms (start f s) in
  match attached c with
  | None => stdout c = []
  | Some a =>
      (exists ms1 ms2 before raws chunks rest,
         ms = ms1 ++ Tick :: ms2 /\
         at_pc (run prefix ms1 (start f s)) = AtOpen /\
         file (run prefix ms1 (start f s)) = Some before /\
         String.length before = a /\
         file c = Some (before +:+ join_all raws +:+ rest) /\
         pos c = (a + String.length (join_all raws))%nat /\
         stdout c = tag prefix <$> chunks /\
         Forall2 line_text raws (chunks ++ pending c)) /\
      (at_pc c = AtRead ->
       exists txt,
         file c = Some txt /\
         (skip (pos c) txt = "" ->
          at_pc (step prefix c) = AtSleep /\ caught_up prefix a c) /\
         (skip (pos c) txt <> "" ->
          exists raw chunk,
            first_line (skip (pos c) txt) raw chunk /\
            at_pc (step prefix c) = AtWrite chunk /\
            pos (step prefix c) = (pos c + String.length raw)%nat)) /\
      (forall line,
         at_pc c = AtWrite line ->
         stdout (step prefix c) = stdout c ++ [tag prefix line] /\
         pos (step prefix c) = pos c) /\
      (if stop c || halted c then True
       else exists k, caught_up prefix a (run prefix (repeat Tick k) c))
  end.
Proof.
  cbv zeta.
  pose proof (consistent_run prefix ms _ (consistent_start prefix f s)) as Hc.
  pose proof (tail_file_drains f s ms) as Hdrain.
  pose proof (attached_at_end f s ms) as Hend.
  set (c := run prefix ms (start f s)) in *.
  destruct (attached c) as [a|] eqn:Ha.
  2:{ unfold consistent in Hc. rewrite Ha in Hc. exact (proj1 Hc). }
  split; [exact (Hend a eq_refl)|]. split; [|split].
  - intros Hl. exact (read_step c a Hc Ha Hl).
  - intros line Hl. unfold step. rewrite Hl. cbn [stdout pos]. auto.
  - destruct (stop c) eqn:Hs; [exact I|]. destruct (halted c) eqn:Hh; [exact I|].
    cbn [orb]. apply (Hdrain a eq_refl eq_refl eq_refl).
Qed.

End Drain.

(** C5, as stated, fails. The child writes the line in two pieces, first
    "par" and then the rest with the line feed, and the tailer reads in
    between: the whole line has been read, and it has come out as two
    writes, each with the prefix, instead of one. *)
Lemma tail_file_splits_line :
  let c := run "auth" two_piece_run (start None false) in
  file c = Some ("partial" +:+ nl) /\
  attached c = Some 0%nat /\
  pos c = String.length ("partial" +:+ nl) /\
  stdout c = ["[auth] par"; "[auth] tial" +:+ nl] /\
  spec_output "auth" ("partial" +:+ nl) = ["[auth] partial" +:+ nl] /\
  stdout c <> spec_output "auth" ("partial" +:+ nl).
Proof.
  cbv zeta. repeat split; try (vm_compute; reflexivity).
  vm_compute. discriminate.
Qed.

(** ** Concrete instances *)

Lemma terminate_pid_not_alive_witness :
  fst (pid_exists 77 (Sample.boot Sample.calm [])) = Ret false /\
  terminate_pid 77 2000 (Sample.boot Sample.calm [])
  = (Ret tt, snd (pid_exists 77 (Sample.boot Sample.calm []))).
Proof.
  split; [reflexivity|].
  exact (proj1 (terminate_pid_not_alive 77 2000 (Sample.boot Sample.calm [])
                  eq_refl)).
Defined.

Lemma terminate_pid_escalation_witness :
  fst (pid_exists 12 (Sample.boot Sample.stubborn [])) = Ret true /\
  exists d,
    trace (snd (terminate_pid 12 2000 (Sample.boot Sample.stubborn [])))
    = trace (Sample.boot Sample.stubborn []) ++ d /\
    escalation 12 2000 d
      (fst (terminate_pid 12 2000 (Sample.boot Sample.stubborn []))) /\
    (deliveries d = [(12, SIGTERM)] \/
     deliveries d = [(12, SIGTERM); (12, SIGKILL)]) /\
    fst (terminate_pid 12 2000 (Sample.boot Sample.stubborn []))
    <> Raise Diverged.
Proof.
  split; [reflexivity|].
  exact (terminate_pid_escalation 12 2000 (Sample.boot Sample.stubborn [])
           eq_refl).
Defined.

Lemma terminate_pid_protocol_witness :
  signals_accepted (env (Sample.boot Sample.stubborn [])) /\
  fst (pid_exists 12 (Sample.boot Sample.stubborn [])) = Ret true /\
  fst (terminate_pid 12 2000 (Sample.boot Sample.stubborn [])) = Ret tt /\
  deliveries (trace (snd (terminate_pid 12 2000 (Sample.boot Sample.stubborn []))))
  = [(12, SIGTERM); (12, SIGKILL)].
Proof.
  assert (H : signals_accepted (env (Sample.boot Sample.stubborn []))).
  { intros i p sig. left. reflexivity. }
  split; [exact H|]. split; [reflexivity|].
  split; [|vm_compute; reflexivity].
  exact (proj1 (terminate_pid_protocol 12 2000 (Sample.boot Sample.stubborn [])
                  H eq_refl)).
Defined.

Lemma kill_pidfile_zero_witness :
  fs (Sample.boot Sample.stubborn [("network.pid", "0")]) !! "network.pid"
  = Some "0" /\
  fst (kill_pidfile "network.pid"
         (Sample.boot Sample.stubborn [("network.pid", "0")])) = Ret tt.
Proof.
  split; [reflexivity|].
  exact (proj1 (proj2 (kill_pidfile_zero "network.pid"
                         (Sample.boot Sample.stubborn [("network.pid", "0")])
                         eq_refl))).
Defined.

Lemma registry_round_trip_witness :
  PIDS !! "auth" = Some "auth.pid" /\
  popen_ans (env (Sample.boot Sample.calm []))
    (S (tick (Sample.boot Sample.calm []))) ["npm"; "run"; "dev"]
  = Spawned 4001 /\
  fst (read_pid "auth.pid"
         (snd (start_process "auth" ["npm"; "run"; "dev"]
                 (Some "services/auth") [] (Sample.boot Sample.calm []))))
  = Ret (Some 4001).
Proof.
  split; [reflexivity|]. split; [reflexivity|].
  exact (proj2 (proj2 (proj2
           (registry_round_trip "auth" ["npm"; "run"; "dev"]
              (Some "services/auth") [] 4001 "auth.pid"
              (Sample.boot Sample.calm []) eq_refl eq_refl)))).
Defined.

Lemma main_fails_fast_witness :
  config_incomplete Sample.default_args
    (Sample.boot Sample.calm Sample.incomplete_files) /\
  exists code,
    exit_status
      (fst (main Sample.default_args
              (Sample.boot Sample.calm Sample.incomplete_files)))
    = Some code /\ code <> 0.
Proof.
  assert (H : config_incomplete Sample.default_args
                (Sample.boot Sample.calm Sample.incomplete_files)).
  { do 4 right. left. vm_compute. reflexivity. }
  split; [exact H|].
  exact (proj1 (main_fails_fast Sample.default_args
                  (Sample.boot Sample.calm Sample.incomplete_files) H)).
Defined.

Lemma handle_signal_protocol_witness :
  signals_accepted (env (Sample.boot Sample.stubborn [])) /\
  fst (handle_signal [{| pid := 4001 |}; {| pid := 4002 |}]
         (Sample.boot Sample.stubborn [])) = Ret tt /\
  deliveries (trace (snd (handle_signal [{| pid := 4001 |}; {| pid := 4002 |}]
                            (Sample.boot Sample.stubborn []))))
  = [(4001, SIGTERM); (4002, SIGTERM); (4001, SIGKILL); (4002, SIGKILL)].
Proof.
  assert (H : signals_accepted (env (Sample.boot Sample.stubborn []))).
  { intros i p sig. left. reflexivity. }
  split; [exact H|]. split; [|vm_compute; reflexivity].
  destruct (handle_signal_protocol [{| pid := 4001 |}; {| pid := 4002 |}]
              (Sample.boot Sample.stubborn []) H)
    as (rcs & d1 & rc1 & d2 & _ & Hr & _).
  exact Hr.
Defined.

Lemma tail_file_stops_witness :
  stop Sample.stopping_tailer = true /\
  (naps (run "auth" [Tick; Append "more"; Tick; Tick; Tick]
           Sample.stopping_tailer)
   <= naps Sample.stopping_tailer + 1)%nat /\
  (length (stdout (run "auth" [Tick; Append "more"; Tick; Tick; Tick]
                     Sample.stopping_tailer))
   <= length (stdout Sample.stopping_tailer) + 1)%nat.
Proof.
  split; [reflexivity|].
  pose proof (tail_file_stops "auth" [Tick; Append "more"; Tick; Tick; Tick]
                Sample.stopping_tailer eq_refl) as H.
  exact (conj (proj1 H) (proj1 (proj2 H))).
Defined.

(** * Further properties *)

Import Footprint.

(** ** Footprints: closure under the combinators of the script *)

(** The clauses of a handler, one exception at a time. *)
Ltac clauses tac :=
  let e := fresh "e" in
  let k := fresh "k" in
  let H := fresh "H" in
  intros e k; destruct e; intros H; inversion H; tac.

Section Emits.

Context {Q : event -> Prop}.

Lemma emits_nothing {A} (m : M A) :
  (forall w, trace (snd (m w)) = trace w) -> emits Q m.
Proof.
  intros H w. exists []. rewrite app_nil_r. split; [apply H | constructor].
Qed.

Lemma emits_ret {A} (a : A) : emits Q (ret a).
Proof. apply emits_nothing. reflexivity. Qed.

Lemma emits_raise {A} e : emits Q (@raise A e).
Proof. apply emits_nothing. reflexivity. Qed.

Lemma emits_bind {A B} (m : M A) (k : A -> M B) :
  emits Q m -> (forall a, emits Q (k a)) -> emits Q (bind m k).
Proof.
  intros Hm Hk w. unfold bind. destruct (Hm w) as (d1 & Ht1 & Hd1).
  destruct (m w) as [[a|e] w1]; cbn [snd] in *.
  - destruct (Hk a w1) as (d2 & Ht2 & Hd2).
    exists (d1 ++ d2). rewrite Ht2, Ht1, app_assoc. split; [reflexivity|].
    apply Forall_app; auto.
  - exists d1; auto.
Qed.

Lemma emits_try {A} (m : M A) h :
  emits Q m -> (forall e k, h e = Some k -> emits Q k) -> emits Q (try_except m h).
Proof.
  intros Hm Hh w. unfold try_except. destruct (Hm w) as (d1 & Ht1 & Hd1).
  destruct (m w) as [[a|e] w1]; cbn [snd] in *.
  - exists d1; auto.
  - destruct (h e) as [k|] eqn:He.
    + destruct (Hh e k He w1) as (d2 & Ht2 & Hd2).
      exists (d1 ++ d2). rewrite Ht2, Ht1, app_assoc. split; [reflexivity|].
      apply Forall_app; auto.
    + exists d1; auto.
Qed.

Lemma emits_for_each {A} (xs : list A) body :
  (forall x, In x xs -> emits Q (body x)) -> emits Q (for_each xs body).
Proof.
  induction xs as [|x xs IH]; intros Hb; cbn [for_each].
  - apply emits_ret.
  - apply emits_bind; [apply Hb; left; reflexivity|].
    intros _. apply IH. intros y Hy. apply Hb. right. exact Hy.
Qed.

Lemma emits_if {A} (b : bool) (m1 m2 : M A) :
  emits Q m1 -> emits Q m2 -> emits Q (if b then m1 else m2).
Proof. destruct b; auto. Qed.

Lemma emits_one {A} (m : M A) :
  (forall w, exists e, Q e /\ trace (snd (m w)) = trace w ++ [e]) -> emits Q m.
Proof.
  intros H w. destruct (H w) as (e & He & Ht). exists [e].
  split; [exact Ht | constructor; [exact He | constructor]].
Qed.

End Emits.

Lemma emits_weaken {A} (Q R : event -> Prop) (m : M A) :
  (forall e, Q e -> R e) -> emits Q m -> emits R m.
Proof.
  intros HQR Hm w. destruct (Hm w) as (d & Ht & Hd). exists d.
  split; [exact Ht | eapply Forall_impl; eauto].
Qed.

Section Keeps.

Context {X : Type} (f : World -> X).

Lemma keeps_ret {A} (a : A) : keeps f (ret a).
Proof. intros w. reflexivity. Qed.

Lemma keeps_raise {A} e : keeps f (@raise A e).
Proof. intros w. reflexivity. Qed.

Lemma keeps_bind {A B} (m : M A) (k : A -> M B) :
  keeps f m -> (forall a, keeps f (k a)) -> keeps f (bind m k).
Proof.
  intros Hm Hk w. unfold bind. specialize (Hm w).
  destruct (m w) as [[a|e] w1]; cbn [snd] in *; [|exact Hm].
  rewrite (Hk a w1). exact Hm.
Qed.

Lemma keeps_try {A} (m : M A) h :
  keeps f m -> (forall e k, h e = Some k -> keeps f k) -> keeps f (try_except m h).
Proof.
  intros Hm Hh w. unfold try_except. specialize (Hm w).
  destruct (m w) as [[a|e] w1]; cbn [snd] in *; [exact Hm|].
  destruct (h e) as [k|] eqn:He; [|exact Hm].
  rewrite (Hh e k He w1). exact Hm.
Qed.

Lemma keeps_for_each {A} (xs : list A) body :
  (forall x, In x xs -> keeps f (body x)) -> keeps f (for_each xs body).
Proof.
  induction xs as [|x xs IH]; intros Hb; cbn [for_each].
  - apply keeps_ret.
  - apply keeps_bind; [apply Hb; left; reflexivity|].
    intros _. apply IH. intros y Hy. apply Hb. right. exact Hy.
Qed.

Lemma keeps_if {A} (b : bool) (m1 m2 : M A) :
  keeps f m1 -> keeps f m2 -> keeps f (if b then m1 else m2).
Proof. destruct b; auto. Qed.

End Keeps.

(** ** Terminator: reach and patience *)

Section Reach.

Lemma emits_os_kill Q p sig :
  (forall a, Q (EvKill p sig a)) -> emits Q (Sys.os_kill p sig).
Proof.
  intros HQ. apply emits_one. intros w. unfold Sys.os_kill. cbn zeta.
  exists (EvKill p sig (kill_ans (env w) (tick w) p sig)). split; [apply HQ|].
  destruct (kill_ans (env w) (tick w) p sig); reflexivity.
Qed.

Lemma emits_time_time Q : (forall now, Q (EvTime now)) -> emits Q Sys.time_time.
Proof.
  intros HQ. apply emits_one. intros w.
  exists (EvTime (clock (call 0 w))). split; [apply HQ | reflexivity].
Qed.

Lemma emits_time_sleep Q ms : Q (EvSleep ms) -> emits Q (Sys.time_sleep ms).
Proof.
  intros HQ. apply emits_one. intros w.
  exists (EvSleep ms). split; [exact HQ | reflexivity].
Qed.

Lemma emits_pid_exists Q p :
  (forall a, Q (EvKill p SIG0 a)) -> emits Q (pid_exists p).
Proof.
  intros HQ. unfold pid_exists. apply emits_try.
  - apply emits_bind; [apply emits_os_kill, HQ | intros; apply emits_ret].
  - clauses ltac:(apply emits_ret).
Qed.

Lemma emits_wait_loop p n start timeout :
  emits (terminator_event p) (wait_loop n p start timeout).
Proof.
  induction n as [|n IH]; cbn [wait_loop]; [apply emits_raise|].
  apply emits_bind; [apply emits_time_time; intros; exact I|]. intros now.
  apply emits_if; [|apply emits_ret].
  apply emits_bind; [apply emits_pid_exists; intros; reflexivity|]. intros alive.
  apply emits_if; [apply emits_ret|].
  apply emits_bind; [apply emits_time_sleep; reflexivity | intros _; exact IH].
Qed.

Lemma emits_terminate_pid p timeout :
  emits (terminator_event p) (terminate_pid p timeout).
Proof.
  unfold terminate_pid.
  apply emits_bind; [apply emits_pid_exists; intros; reflexivity|]. intros alive.
  apply emits_if; [apply emits_ret|].
  apply emits_bind.
  { apply emits_try.
    - apply emits_bind; [apply emits_os_kill; intros; reflexivity
                        | intros; apply emits_ret].
    - clauses ltac:(apply emits_ret). }
  intros sent. apply emits_if; [apply emits_ret|].
  apply emits_bind; [apply emits_time_time; intros; exact I|]. intros start.
  apply emits_bind; [apply emits_wait_loop|]. intros returned.
  apply emits_if; [apply emits_ret|].
  apply emits_try; [apply emits_os_kill; intros; reflexivity|].
  clauses ltac:(apply emits_ret).
Qed.

(** A component of the world that neither a call nor a trace entry
    changes is kept by everything that only signals, sleeps and reads
    the clock. *)
Section Untouched.

Context {X : Type} (f : World -> X).
Hypothesis f_log : forall e w, f (log e w) = f w.
Hypothesis f_call : forall ms w, f (call ms w) = f w.

Lemma keeps_os_kill p sig : keeps f (Sys.os_kill p sig).
Proof.
  intros w. unfold Sys.os_kill. cbn zeta.
  destruct (kill_ans (env w) (tick w) p sig); cbn [snd];
    rewrite f_log, f_call; reflexivity.
Qed.

Lemma keeps_time_time : keeps f Sys.time_time.
Proof. intros w. unfold Sys.time_time. cbn [snd]. rewrite f_log, f_call. reflexivity. Qed.

Lemma keeps_time_sleep ms : keeps f (Sys.time_sleep ms).
Proof. intros w. unfold Sys.time_sleep. cbn [snd]. rewrite f_log, f_call. reflexivity. Qed.

Lemma keeps_pid_exists p : keeps f (pid_exists p).
Proof.
  intros w. rewrite pid_exists_spec. cbn zeta. cbn [snd].
  rewrite f_log, f_call. reflexivity.
Qed.

Lemma keeps_wait_loop p n start timeout :
  keeps f (wait_loop n p start timeout).
Proof.
  induction n as [|n IH]; cbn [wait_loop]; [apply keeps_raise|].
  apply keeps_bind; [apply keeps_time_time|]. intros now.
  apply keeps_if; [|apply keeps_ret].
  apply keeps_bind; [apply keeps_pid_exists|]. intros alive.
  apply keeps_if; [apply keeps_ret|].
  apply keeps_bind; [apply keeps_time_sleep | intros _; exact IH].
Qed.

Lemma keeps_terminate_pid p timeout : keeps f (terminate_pid p timeout).
Proof.
  unfold terminate_pid.
  apply keeps_bind; [apply keeps_pid_exists|]. intros alive.
  apply keeps_if; [apply keeps_ret|].
  apply keeps_bind.
  { apply keeps_try.
    - apply keeps_bind; [apply keeps_os_kill | intros; apply keeps_ret].
    - clauses ltac:(apply keeps_ret). }
  intros sent. apply keeps_if; [apply keeps_ret|].
  apply keeps_bind; [apply keeps_time_time|]. intros start.
  apply keeps_bind; [apply keeps_wait_loop|]. intros returned.
  apply keeps_if; [apply keeps_ret|].
  apply keeps_try; [apply keeps_os_kill|].
  clauses ltac:(apply keeps_ret).
Qed.

End Untouched.

Lemma held_log e w : held (log e w) = held w.
Proof. reflexivity. Qed.

Lemma held_call ms w : held (call ms w) = held w.
Proof. reflexivity. Qed.

Lemma env_log e w : env (log e w) = env w.
Proof. reflexivity. Qed.

Lemma env_call ms w : env (call ms w) = env w.
Proof. reflexivity. Qed.

(** X1. [terminate_pid] reaches nothing but its target: every signal it
    asks for, the probe included, goes to the identifier it was given;
    apart from that it only reads the clock and sleeps 100 ms at a time.
    It touches no file, and leaves the stop flag and the recorded return
    codes alone. *)
Theorem terminate_pid_footprint p timeout w :
  (exists d, trace (snd (terminate_pid p timeout w)) = trace w ++ d /\
             Forall (terminator_event p) d) /\
  fs (snd (terminate_pid p timeout w)) = fs w /\
  stop_event (snd (terminate_pid p timeout w)) = stop_event w /\
  returncode (snd (terminate_pid p timeout w)) = returncode w.
Proof.
  split; [apply emits_terminate_pid|].
  pose proof (keeps_terminate_pid held held_log held_call p timeout w) as H.
  unfold held in H. inversion H. auto.
Qed.

Lemma count_sleeps_app a b :
  count_sleeps (a ++ b) = (count_sleeps a + count_sleeps b)%nat.
Proof.
  induction a as [|e a IH]; [reflexivity|].
  destruct e; simpl; rewrite IH; reflexivity.
Qed.

(** Each sleep of the loop takes at least 100 ms, and a round starts only
    while the clock reads less than [timeout] after [start]. *)
Lemma wait_loop_sleeps p start timeout n : forall w (j : Z),
  start + 100 * j <= clock w ->
  exists d,
    trace (snd (wait_loop n p start timeout w)) = trace w ++ d /\
    (count_sleeps d = 0%nat \/
     100 * (j + Z.of_nat (count_sleeps d) - 1) < timeout).
Proof.
  induction n as [|n IH]; intros w j Hj.
  { exists []. rewrite app_nil_r. auto. }
  cbn [wait_loop]. unfold bind at 1. unfold Sys.time_time at 1.
  set (w1 := log (EvTime (clock (call 0 w))) (call 0 w)).
  assert (Hc1 : clock w <= clock w1) by (subst w1; simpl; lia).
  change (clock (call 0 w)) with (clock w1).
  destruct (clock w1 - start <? timeout) eqn:Hlt.
  2:{ exists [EvTime (clock w1)]. split; [reflexivity | left; reflexivity]. }
  apply Z.ltb_lt in Hlt.
  unfold bind at 1. rewrite pid_exists_spec. cbn zeta.
  set (a := kill_ans (env w1) (tick w1) p SIG0).
  set (w2 := log (EvKill p SIG0 a) (call 0 w1)).
  assert (Hc2 : clock w1 <= clock w2) by (subst w2; simpl; lia).
  assert (Hw2 : trace w2 = trace w ++ [EvTime (clock w1); EvKill p SIG0 a]).
  { subst w2 w1. simpl. rewrite <- app_assoc. reflexivity. }
  assert (Hgo : exists d,
    trace (snd (wait_loop n p start timeout (log (EvSleep 100) (call 100 w2))))
    = trace w ++ d /\
    (count_sleeps d = 0%nat \/
     100 * (j + Z.of_nat (count_sleeps d) - 1) < timeout)).
  { destruct (IH (log (EvSleep 100) (call 100 w2)) (j + 1)) as (d & Ht & Hd).
    { simpl. lia. }
    exists ([EvTime (clock w1); EvKill p SIG0 a; EvSleep 100] ++ d). split.
    - rewrite Ht, trace_log, trace_call, Hw2, <- !app_assoc. reflexivity.
    - right. rewrite count_sleeps_app.
      change (count_sleeps [EvTime (clock w1); EvKill p SIG0 a; EvSleep 100])
        with 1%nat.
      destruct Hd as [-> | Hd]; lia. }
  destruct a; cbn [negb].
  - unfold bind at 1. unfold Sys.time_sleep at 1. exact Hgo.
  - eexists. split; [exact Hw2 | left; reflexivity].
  - unfold bind at 1. unfold Sys.time_sleep at 1. exact Hgo.
  - eexists. split; [exact Hw2 | left; reflexivity].
Qed.

(** X2. [terminate_pid] is patient for a bounded time only: between the
    graceful stop and its return it sleeps at most [timeout / 100] times,
    rounded up (20 times with the default of two seconds), and not at all
    with a timeout of zero or less. *)
Theorem terminate_pid_sleeps_bounded p timeout w :
  (count_sleeps (trace (snd (terminate_pid p timeout w)))
   <= count_sleeps (trace w) + Z.to_nat ((timeout + 99) / 100))%nat /\
  (count_sleeps (trace (snd (terminate_pid p default_timeout w)))
   <= count_sleeps (trace w) + 20)%nat.
Proof.
  assert (Hgen : forall t,
    (count_sleeps (trace (snd (terminate_pid p t w)))
     <= count_sleeps (trace w) + Z.to_nat ((t + 99) / 100))%nat).
  { intros t. rewrite terminate_pid_unfold. cbn zeta.
    set (a0 := kill_ans (env w) (tick w) p SIG0).
    set (w1 := log (EvKill p SIG0 a0) (call 0 w)).
    assert (H1 : count_sleeps (trace w1) = count_sleeps (trace w)).
    { subst w1. rewrite trace_log, trace_call, count_sleeps_app.
      cbn [count_sleeps]. lia. }
    destruct (alive_answer a0); [|cbn [snd]; lia].
    set (a1 := kill_ans (env w1) (tick w1) p SIGTERM).
    set (w2 := log (EvKill p SIGTERM a1) (call 0 w1)).
    assert (H2 : count_sleeps (trace w2) = count_sleeps (trace w)).
    { subst w2. rewrite trace_log, trace_call, count_sleeps_app.
      cbn [count_sleeps]. lia. }
    destruct a1; cbn [snd]; try lia.
    set (start := clock (call 0 w2)).
    set (w3 := log (EvTime start) (call 0 w2)).
    assert (H3 : count_sleeps (trace w3) = count_sleeps (trace w)).
    { subst w3. rewrite trace_log, trace_call, count_sleeps_app.
      cbn [count_sleeps]. lia. }
    destruct (wait_loop_sleeps p start t (wait_bound t) w3 0) as (d & Ht & Hd).
    { subst w3 start. simpl. lia. }
    assert (Hk : (count_sleeps d <= Z.to_nat ((t + 99) / 100))%nat).
    { destruct Hd as [-> | Hd]; [lia|].
      assert (Z.of_nat (count_sleeps d) <= (t + 99) / 100).
      { apply Z.div_le_lower_bound; lia. }
      lia. }
    destruct (wait_loop (wait_bound t) p start t w3) as [[[|]|e] w4];
      cbn [snd] in *; rewrite ?trace_log, ?trace_call, Ht, !count_sleeps_app;
      cbn [count_sleeps]; lia. }
  split; [apply Hgen|]. apply (Hgen default_timeout).
Qed.

End Reach.

(** ** Registry: stale markers and the reach of [kill_pidfile] *)

Section Markers.

Lemma clear_marker_unfold path w :
  clear_marker path w =
  match fs w !! path with
  | Some _ => (Ret tt, log (EvUnlink path)
                         (with_fs (delete path (fs w)) (call 0 w)))
  | None => (Ret tt, call 0 w)
  end.
Proof.
  unfold clear_marker, try_except, Sys.unlink.
  destruct (fs w !! path); reflexivity.
Qed.

Lemma kill_pidfile_absent path w :
  fs w !! path = None -> kill_pidfile path w = (Ret tt, call 0 w).
Proof.
  intros Hf. unfold kill_pidfile. unfold bind at 1. unfold Sys.path_exists at 1.
  rewrite bool_decide_eq_false_2; [reflexivity|].
  rewrite Hf. intros [x Hx]. discriminate.
Qed.

Lemma kill_pidfile_reach path w :
  (fs (snd (kill_pidfile path w)) = fs w \/
   fs (snd (kill_pidfile path w)) = delete path (fs w)) /\
  stop_event (snd (kill_pidfile path w)) = stop_event w /\
  returncode (snd (kill_pidfile path w)) = returncode w /\
  exists d, trace (snd (kill_pidfile path w)) = trace w ++ d /\
            Forall (registry_event w path) d.
Proof.
  destruct (fs w !! path) as [txt|] eqn:Hf.
  2:{ rewrite (kill_pidfile_absent path w Hf). cbn [snd fs call stop_event returncode trace].
      repeat split; auto. exists []. rewrite app_nil_r. auto. }
  assert (Hclear : forall w3 d,
    held w3 = held w -> trace w3 = trace w ++ d ->
    Forall (registry_event w path) d ->
    (fs (snd (clear_marker path w3)) = fs w \/
     fs (snd (clear_marker path w3)) = delete path (fs w)) /\
    stop_event (snd (clear_marker path w3)) = stop_event w /\
    returncode (snd (clear_marker path w3)) = returncode w /\
    exists d', trace (snd (clear_marker path w3)) = trace w ++ d' /\
               Forall (registry_event w path) d').
  { intros w3 d Hh Ht Hd. unfold held in Hh. inversion Hh as [[H1 H2 H3]].
    rewrite clear_marker_unfold, H1, Hf. cbn [snd fs log with_fs call stop_event returncode trace].
    repeat split; auto.
    exists (d ++ [EvUnlink path]). rewrite Ht, <- app_assoc. split; [reflexivity|].
    apply Forall_app. split; [exact Hd|]. repeat constructor. }
  rewrite (kill_pidfile_unfold path w txt Hf). cbn zeta.
  destruct (py_int (strip txt)) as [n|] eqn:Hp.
  2:{ apply (Hclear _ []); [reflexivity | rewrite app_nil_r; reflexivity | constructor]. }
  destruct (Z.eqb_spec n 0) as [->|Hn]; cbn [negb].
  { apply (Hclear _ []); [reflexivity | rewrite app_nil_r; reflexivity | constructor]. }
  pose proof (keeps_terminate_pid held held_log held_call n default_timeout (call 0 (call 0 w))) as Hk.
  destruct (emits_terminate_pid n default_timeout (call 0 (call 0 w))) as (d & Ht & Hd).
  assert (Hd' : Forall (registry_event w path) d).
  { eapply Forall_impl; [exact Hd|]. intros e He. right. exists n.
    split; [exists txt; auto | auto]. }
  destruct (terminate_pid n default_timeout _) as [[[]|e] w3]; cbn [snd] in *.
  - apply (Hclear w3 d); auto.
  - unfold held in Hk. inversion Hk as [[H1 H2 H3]]. cbn [fs call stop_event returncode] in *.
    repeat split; auto. exists d. auto.
Qed.

(** X3. [kill_pidfile] reaches nothing but the marker and the process
    recorded in it: the file system afterwards is the one before, with at
    most the marker file removed, and the marker is gone whenever the
    call returns; every signal goes to the identifier that the marker
    holds, which is never 0; the stop flag and the recorded return codes
    are left alone. *)
Theorem kill_pidfile_footprint path w :
  (fs (snd (kill_pidfile path w)) = fs w \/
   fs (snd (kill_pidfile path w)) = delete path (fs w)) /\
  (fst (kill_pidfile path w) = Ret tt ->
   fs (snd (kill_pidfile path w)) !! path = None) /\
  stop_event (snd (kill_pidfile path w)) = stop_event w /\
  returncode (snd (kill_pidfile path w)) = returncode w /\
  exists d, trace (snd (kill_pidfile path w)) = trace w ++ d /\
            Forall (registry_event w path) d.
Proof.
  destruct (kill_pidfile_reach path w) as (H1 & H2 & H3 & H4).
  split; [exact H1|]. split; [|auto].
  destruct (fs w !! path) as [txt|] eqn:Hf.
  - destruct (kill_pidfile_cases path w txt Hf) as [(_ & Hgone) | (n & e & _ & _ & _ & Hr & _)].
    + auto.
    + rewrite Hr. discriminate.
  - rewrite (kill_pidfile_absent path w Hf). cbn [fst snd fs call]. auto.
Qed.

(** X4. A stale marker is cleared without disturbing anyone: when the
    marker holds no integer, or the integer of a process that the probe
    finds gone, [kill_pidfile] returns normally, removes the marker file
    and nothing else, and asks for no signal to be delivered.  The probe
    is the third system call of the function, after the existence test
    and the read. *)
Theorem kill_pidfile_stale_marker path w txt :
  fs w !! path = Some txt ->
  (py_int (strip txt) = None \/
   exists n, py_int (strip txt) = Some n /\
             kill_ans (env w) (S (S (tick w))) n SIG0 = KillNoProcess) ->
  fst (kill_pidfile path w) = Ret tt /\
  fs (snd (kill_pidfile path w)) = delete path (fs w) /\
  deliveries (trace (snd (kill_pidfile path w))) = deliveries (trace w).
Proof.
  intros Hf Hstale. rewrite (kill_pidfile_unfold path w txt Hf). cbn zeta.
  assert (Hclear : forall w3,
    fs w3 = fs w -> deliveries (trace w3) = deliveries (trace w) ->
    fst (clear_marker path w3) = Ret tt /\
    fs (snd (clear_marker path w3)) = delete path (fs w) /\
    deliveries (trace (snd (clear_marker path w3))) = deliveries (trace w)).
  { intros w3 H1 H2. rewrite clear_marker_unfold, H1, Hf.
    cbn [fst snd fs log with_fs call trace]. rewrite deliveries_app, H2.
    cbn [deliveries]. rewrite app_nil_r. auto. }
  destruct Hstale as [Hp | (n & Hp & Hgone)]; rewrite Hp.
  { apply Hclear; reflexivity. }
  destruct (Z.eqb_spec n 0) as [->|Hn]; cbn [negb].
  { apply Hclear; reflexivity. }
  rewrite terminate_pid_unfold. cbn zeta. cbn [env tick call]. rewrite Hgone.
  cbn [alive_answer]. apply Hclear; [reflexivity|].
  cbn [trace log call]. rewrite deliveries_app. cbn [deliveries].
  rewrite app_nil_r. reflexivity.
Qed.

Lemma lstrip_spaces pre s :
  all_chars is_space pre = true -> lstrip (pre +:+ s) = lstrip s.
Proof.
  induction pre as [|c pre IH]; intros H; [reflexivity|].
  cbn [all_chars] in H. apply andb_prop in H as [Hc Hpre].
  rewrite app_cons_str. cbn [lstrip]. rewrite Hc. apply IH, Hpre.
Qed.

Lemma rstrip_spaces post : all_chars is_space post = true -> rstrip post = "".
Proof.
  induction post as [|c post IH]; intros H; [reflexivity|].
  cbn [all_chars] in H. apply andb_prop in H as [Hc Hpost].
  cbn [rstrip]. rewrite (IH Hpost), Hc. reflexivity.
Qed.

Lemma rstrip_app_spaces s post :
  all_chars is_space post = true -> rstrip (s +:+ post) = rstrip s.
Proof.
  intros H. induction s as [|c s IH].
  - rewrite app_nil_l_str. apply rstrip_spaces, H.
  - rewrite app_cons_str. cbn [rstrip]. rewrite IH. reflexivity.
Qed.

Lemma strip_padded pre s post :
  all_chars is_space pre = true -> all_chars is_space post = true ->
  s <> "" -> all_chars (fun c => negb (is_space c)) s = true ->
  strip (pre +:+ s +:+ post) = s.
Proof.
  intros Hpre Hpost Hne Hs. unfold strip. rewrite (lstrip_spaces pre _ Hpre).
  destruct s as [|c s]; [congruence|].
  assert (Hl : lstrip (String c s +:+ post) = String c s +:+ post).
  { rewrite app_cons_str. cbn [lstrip]. cbn [all_chars] in Hs.
    apply andb_prop in Hs as [Hc _]. apply negb_true_iff in Hc. rewrite Hc.
    reflexivity. }
  rewrite Hl, (rstrip_app_spaces _ post Hpost). apply rstrip_no_space, Hs.
Qed.

Lemma py_str_not_empty n : py_str n <> "".
Proof.
  unfold py_str. destruct n as [|p|p]; cbn [Z.to_int NilZero.string_of_int].
  - discriminate.
  - rewrite py_str_unsigned. pose proof (Unsigned.to_uint_nonnil p) as Hn.
    destruct (Pos.to_uint p); try congruence; discriminate.
  - discriminate.
Qed.

(** X5. The marker is read leniently: white space before and after the
    number, such as the line feed that a shell redirection leaves, does
    not change the identifier that [kill_pidfile] reads from it. *)
Theorem read_pid_ignores_padding path w n pre post :
  all_chars is_space pre = true -> all_chars is_space post = true ->
  fs w !! path = Some (pre +:+ py_str n +:+ post) ->
  fst (read_pid path w) = Ret (Some n) /\ recorded w path n.
Proof.
  intros Hpre Hpost Hf.
  assert (Hp : py_int (strip (pre +:+ py_str n +:+ post)) = Some n).
  { rewrite (strip_padded pre (py_str n) post Hpre Hpost (py_str_not_empty n)
               (py_str_no_space n)).
    apply py_int_py_str. }
  split.
  - rewrite (read_pid_spec path w _ Hf). cbn [fst]. rewrite Hp. reflexivity.
  - eexists. split; [exact Hf | exact Hp].
Qed.

End Markers.

Lemma kill_pidfile_stale_marker_witness :
  fs (Sample.boot Sample.stubborn [("auth.pid", "not a number")]) !! "auth.pid"
  = Some "not a number" /\
  fs (snd (kill_pidfile "auth.pid"
             (Sample.boot Sample.stubborn [("auth.pid", "not a number")])))
  = delete "auth.pid"
      (fs (Sample.boot Sample.stubborn [("auth.pid", "not a number")])).
Proof.
  split; [reflexivity|].
  exact (proj1 (proj2 (kill_pidfile_stale_marker "auth.pid"
           (Sample.boot Sample.stubborn [("auth.pid", "not a number")])
           "not a number" eq_refl (or_introl eq_refl)))).
Defined.

Lemma read_pid_ignores_padding_witness :
  all_chars is_space " " = true /\
  all_chars is_space (String "010" "") = true /\
  fs (Sample.boot Sample.calm [("auth.pid", " " +:+ py_str 4711 +:+ String "010" "")])
    !! "auth.pid" = Some (" " +:+ py_str 4711 +:+ String "010" "") /\
  fst (read_pid "auth.pid"
         (Sample.boot Sample.calm
            [("auth.pid", " " +:+ py_str 4711 +:+ String "010" "")]))
  = Ret (Some 4711).
Proof.
  split; [reflexivity|]. split; [reflexivity|]. split; [reflexivity|].
  exact (proj1 (read_pid_ignores_padding "auth.pid"
           (Sample.boot Sample.calm
              [("auth.pid", " " +:+ py_str 4711 +:+ String "010" "")])
           4711 " " (String "010" "") eq_refl eq_refl eq_refl)).
Defined.

(** ** Pattern sweep: what a listing can cause *)

Section Listing.

Lemma run_pgrep_unfold pattern w :
  Sys.run_pgrep pattern w =
  (match pgrep_ans (env w) (tick w) pattern with
   | PgrepMissing => Raise FileNotFoundError
   | PgrepExit rc out => Ret (rc, out)
   end,
   log (EvPgrep pattern (pgrep_ans (env w) (tick w) pattern)) (call 0 w)).
Proof.
  unfold Sys.run_pgrep. cbn zeta.
  destruct (pgrep_ans (env w) (tick w) pattern); reflexivity.
Qed.

Lemma skip_tokens (tokens : list string) (body : string -> M unit) w :
  Forall (fun token => body token = ret tt) tokens ->
  for_each tokens body w = (Ret tt, w).
Proof.
  induction 1 as [|token tokens Hb _ IH]; [reflexivity|].
  cbn [for_each]. unfold bind. rewrite Hb. exact IH.
Qed.

(** X6. A listing that names no process ends the sweep of a pattern at
    once: when [pgrep] exits with a status other than 0 (1 when nothing
    matches), or prints no token made of digits, [kill_by_pattern]
    returns normally and its only effect is the listing itself. *)
Theorem kill_by_pattern_nothing_listed pattern w rc out :
  pgrep_ans (env w) (tick w) pattern = PgrepExit rc out ->
  rc <> 0 \/ Forall (fun token => isdigit token = false) (split out) ->
  kill_by_pattern pattern w
  = (Ret tt, log (EvPgrep pattern (PgrepExit rc out)) (call 0 w)).
Proof.
  intros Ha Hnone. unfold kill_by_pattern. unfold bind at 1.
  rewrite run_pgrep_unfold, Ha. cbn [fst snd].
  destruct (Z.eqb_spec rc 0) as [->|Hrc]; cbn [negb]; [|reflexivity].
  destruct Hnone as [Hrc | Hnone]; [congruence|].
  apply skip_tokens. eapply Forall_impl; [exact Hnone|].
  intros token Ht. cbn beta. rewrite Ht. reflexivity.
Qed.

Lemma digit_char_not_space c : is_digit_char c = true -> is_space c = false.
Proof.
  unfold is_digit_char, is_space. intros H.
  repeat match goal with
  | |- context [(?a <=? ?b)%nat] => destruct (Nat.leb_spec a b)
  | |- context [(?a =? ?b)%nat] => destruct (Nat.eqb_spec a b)
  end; try reflexivity; exfalso;
  repeat match type of H with
  | context [(?a <=? ?b)%nat] => destruct (Nat.leb_spec a b)
  | context [(?a =? ?b)%nat] => destruct (Nat.eqb_spec a b)
  end; simpl in H; try discriminate; lia.
Qed.

Lemma digits_no_space s :
  all_digit_chars s = true -> all_chars (fun c => negb (is_space c)) s = true.
Proof.
  induction s as [|c s IH]; [reflexivity|]. cbn [all_digit_chars all_chars].
  intros H. apply andb_prop in H as [Hc Hs].
  rewrite (digit_char_not_space c Hc), (IH Hs). reflexivity.
Qed.

Lemma digit_val_nonneg c d : digit_val c = Some d -> 0 <= d.
Proof.
  unfold digit_val. destruct (_ && _)%bool; [|discriminate].
  intros H. inversion H. lia.
Qed.

Lemma parse_digits_nonneg s : forall prev acc n,
  0 <= acc -> parse_digits prev acc s = Some n -> 0 <= n.
Proof.
  induction s as [|c s IH]; intros prev acc n Hacc; cbn [parse_digits].
  - destruct prev; [|discriminate]. intros H. inversion H. subst. exact Hacc.
  - destruct (digit_val c) as [d|] eqn:Hd.
    + apply IH. pose proof (digit_val_nonneg c d Hd). lia.
    + destruct (Ascii.eqb c "_" && prev)%bool; [|discriminate]. apply IH, Hacc.
Qed.

(** A token made of digits never reads as a negative number. *)
Lemma isdigit_py_int_nonneg token n :
  isdigit token = true -> py_int token = Some n -> 0 <= n.
Proof.
  intros Hd. destruct token as [|c r]; [discriminate|].
  cbn [isdigit] in Hd. unfold py_int.
  rewrite (strip_no_space _ (digits_no_space _ Hd)).
  cbn [all_digit_chars] in Hd. apply andb_prop in Hd as [Hc _].
  intros Hp.
  assert (Hp' : parse_digits false 0 (String c r) = Some n).
  { destruct c as [[] [] [] [] [] [] [] []]; try exact Hp; discriminate Hc. }
  exact (parse_digits_nonneg _ _ _ _ (Z.le_refl 0) Hp').
Qed.

Lemma emits_sweep_tokens out :
  emits (sweep_target_event out)
    (for_each (split out)
       (fun token =>
          if negb (isdigit token) then ret tt
          else match py_int token with
               | Some n => terminate_pid n default_timeout
               | None => raise ValueError
               end)).
Proof.
  apply emits_for_each. intros token Hin.
  destruct (isdigit token) eqn:Hd; cbn [negb]; [|apply emits_ret].
  destruct (py_int token) as [n|] eqn:Hp; [|apply emits_raise].
  apply (emits_weaken (terminator_event n)); [|apply emits_terminate_pid].
  intros e He. exists n. split; [exists token; auto|].
  split; [exact (isdigit_py_int_nonneg token n Hd Hp) | exact He].
Qed.

Lemma keeps_kill_by_pattern {X} (f : World -> X) pattern :
  (forall e w, f (log e w) = f w) -> (forall ms w, f (call ms w) = f w) ->
  keeps f (kill_by_pattern pattern).
Proof.
  intros f_log f_call. unfold kill_by_pattern. apply keeps_bind.
  { intros w. rewrite run_pgrep_unfold. cbn [snd]. rewrite f_log, f_call. reflexivity. }
  intros result. apply keeps_if; [apply keeps_ret|].
  apply keeps_for_each. intros token _.
  apply keeps_if; [apply keeps_ret|].
  destruct (py_int token); [apply keeps_terminate_pid; assumption | apply keeps_raise].
Qed.

(** X7. The pattern sweep reaches only what the listing names: after the
    one run of [pgrep], every signal of [kill_by_pattern] goes to an
    identifier that appears in the listing as a token of digits, in
    particular never to a negative identifier, which would address a
    process group; without a listing of status 0 nothing follows.  No
    file is touched. *)
Theorem kill_by_pattern_footprint pattern w :
  fs (snd (kill_by_pattern pattern w)) = fs w /\
  exists d,
    trace (snd (kill_by_pattern pattern w))
    = trace w ++ EvPgrep pattern (pgrep_ans (env w) (tick w) pattern) :: d /\
    match pgrep_ans (env w) (tick w) pattern with
    | PgrepExit 0 out => Forall (sweep_target_event out) d
    | _ => d = []
    end.
Proof.
  split; [exact (f_equal (fun h => fst (fst h))
                   (keeps_kill_by_pattern held pattern held_log held_call w))|].
  unfold kill_by_pattern. unfold bind at 1.
  rewrite run_pgrep_unfold.
  set (a := pgrep_ans (env w) (tick w) pattern).
  set (w1 := log (EvPgrep pattern a) (call 0 w)).
  assert (Hstop : exists d, trace w1 = trace w ++ EvPgrep pattern a :: d /\ d = []).
  { exists []. split; reflexivity. }
  destruct a as [|rc out]; cbn [fst snd]; [exact Hstop|].
  destruct (Z.eqb_spec rc 0) as [->|Hrc]; cbn [negb].
  2:{ destruct rc; try congruence; exact Hstop. }
  destruct (emits_sweep_tokens out w1) as (d & Ht & Hd).
  exists d. split; [|exact Hd].
  rewrite Ht. subst w1. cbn [trace log call]. rewrite <- app_assoc. reflexivity.
Qed.

End Listing.

Lemma kill_by_pattern_nothing_listed_witness :
  pgrep_ans (env (Sample.boot Sample.calm [])) (tick (Sample.boot Sample.calm []))
    "vite" = PgrepExit 1 "" /\
  kill_by_pattern "vite" (Sample.boot Sample.calm [])
  = (Ret tt, log (EvPgrep "vite" (PgrepExit 1 ""))
               (call 0 (Sample.boot Sample.calm []))).
Proof.
  split; [reflexivity|].
  refine (kill_by_pattern_nothing_listed "vite" (Sample.boot Sample.calm [])
            1 "" eq_refl (or_introl _)).
  discriminate.
Defined.

(** ** Configuration: what a settings file means *)

Section Settings.

Lemma rstrip_idem s : rstrip (rstrip s) = rstrip s.
Proof.
  induction s as [|c s IH]; [reflexivity|]. cbn [rstrip].
  destruct (rstrip s) as [|c' r] eqn:Hr.
  - destruct (is_space c) eqn:Hc; [reflexivity|]. cbn [rstrip]. rewrite Hc. reflexivity.
  - cbn [rstrip] in *. rewrite IH. reflexivity.
Qed.

Lemma lstrip_rstrip s : lstrip (rstrip s) = rstrip (lstrip s).
Proof.
  induction s as [|c s IH]; [reflexivity|]. cbn [rstrip lstrip].
  destruct (is_space c) eqn:Hc.
  - destruct (rstrip s) as [|c' r] eqn:Hr.
    + rewrite <- IH. reflexivity.
    + cbn [lstrip]. rewrite Hc. exact IH.
  - destruct (rstrip s) as [|c' r] eqn:Hr; cbn [lstrip rstrip]; rewrite Hc, ?Hr;
      reflexivity.
Qed.

Lemma strip_rstrip s : strip (rstrip s) = strip s.
Proof. unfold strip. rewrite lstrip_rstrip. apply rstrip_idem. Qed.

Lemma lstrip_idem s : lstrip (lstrip s) = lstrip s.
Proof.
  induction s as [|c s IH]; [reflexivity|]. cbn [lstrip].
  destruct (is_space c) eqn:Hc; [exact IH|]. cbn [lstrip]. rewrite Hc. reflexivity.
Qed.

Lemma strip_lstrip s : strip (lstrip s) = strip s.
Proof. unfold strip. rewrite lstrip_idem. reflexivity. Qed.

(** Stripping on the right stops at a character that is not white space. *)
Lemma rstrip_app_keep x ch y :
  is_space ch = false -> rstrip (x +:+ String ch y) = x +:+ String ch (rstrip y).
Proof.
  intros Hch. induction x as [|c x IH].
  - rewrite !app_nil_l_str. cbn [rstrip]. destruct (rstrip y); [rewrite Hch|]; reflexivity.
  - rewrite !app_cons_str. cbn [rstrip]. rewrite IH.
    destruct x; reflexivity.
Qed.

Lemma lstrip_app s t : lstrip s <> "" -> lstrip (s +:+ t) = lstrip s +:+ t.
Proof.
  induction s as [|c s IH]; [cbn [lstrip]; congruence|].
  rewrite app_cons_str. cbn [lstrip]. destruct (is_space c); [exact IH|].
  intros _. reflexivity.
Qed.

Lemma lstrip_blank_app s t : lstrip s = "" -> lstrip (s +:+ t) = lstrip t.
Proof.
  induction s as [|c s IH]; [reflexivity|].
  rewrite app_cons_str. cbn [lstrip]. destruct (is_space c); [exact IH|discriminate].
Qed.

Lemma split_once_app sep x y :
  has_no sep x = true -> split_once sep (x +:+ String sep y) = Some (x, y).
Proof.
  unfold has_no. induction x as [|c x IH]; intros H.
  - rewrite app_nil_l_str. cbn [split_once]. rewrite Ascii.eqb_refl. reflexivity.
  - rewrite app_cons_str. cbn [split_once all_chars] in *.
    apply andb_prop in H as [Hc Hx]. apply negb_true_iff in Hc.
    rewrite Hc, (IH Hx). reflexivity.
Qed.

Lemma has_no_lstrip sep s : has_no sep s = true -> has_no sep (lstrip s) = true.
Proof.
  unfold has_no. induction s as [|c s IH]; [reflexivity|]. cbn [lstrip].
  destruct (is_space c); [|tauto]. cbn [all_chars]. intros H.
  apply andb_prop in H as [_ Hs]. exact (IH Hs).
Qed.

Lemma env_line_unfold d raw :
  env_line d raw =
  match strip raw with
  | EmptyString => d
  | String c _ =>
      if Ascii.eqb c "#" then d
      else match split_once "=" (strip raw) with
           | None => d
           | Some (key, value) => <[strip key := strip value]> d
           end
  end.
Proof.
  unfold env_line. cbn zeta. destruct (strip raw) as [|c r]; [reflexivity|].
  destruct c as [[] [] [] [] [] [] [] []]; reflexivity.
Qed.

(** X8. What a line of a settings file means.  A line with an equals
    sign, whose first character after leading white space is not the
    comment sign, assigns: the key is the text before the first equals
    sign and the value all the text after it, each without the white space
    around it; so white space around the key, the sign and the value is
    ignored, the value may itself contain equals signs, and an empty key
    or value is accepted. *)
Theorem env_line_assigns d key value :
  has_no "=" key = true ->
  is_comment (lstrip key) = false ->
  env_line d (key +:+ "=" +:+ value) = <[strip key := strip value]> d.
Proof.
  intros Hk Hc. rewrite env_line_unfold.
  assert (Hline : strip (key +:+ "=" +:+ value)
                  = lstrip key +:+ String "=" (rstrip value)).
  { unfold strip. destruct (lstrip key) as [|c r] eqn:Hl.
    - rewrite (lstrip_blank_app key _ Hl), app_nil_l_str.
      change ("=" +:+ value) with (String "=" value). cbn [lstrip].
      change (is_space "=") with false. cbv iota.
      apply (rstrip_app_keep "" "=" value). reflexivity.
    - rewrite lstrip_app by congruence. rewrite Hl.
      change ("=" +:+ value) with (String "=" value).
      apply rstrip_app_keep. reflexivity. }
  rewrite Hline.
  rewrite (split_once_app "=" (lstrip key) (rstrip value) (has_no_lstrip _ _ Hk)).
  rewrite strip_lstrip, strip_rstrip.
  destruct (lstrip key) as [|c r] eqn:Hl.
  - rewrite app_nil_l_str. reflexivity.
  - rewrite app_cons_str. cbn [is_comment] in Hc. rewrite Hc. reflexivity.
Qed.

Lemma splitlines_line l : forall cur rest,
  one_line l = true ->
  splitlines_aux cur (l +:+ String "010" rest)
  = (cur +:+ l) :: splitlines_aux "" rest.
Proof.
  unfold one_line. induction l as [|c l IH]; intros cur rest H.
  - rewrite app_nil_l_str, app_nil_r_str. cbn [splitlines_aux].
    change (is_linebreak "010") with true. cbv iota.
    destruct rest; reflexivity.
  - cbn [all_chars] in H. apply andb_prop in H as [Hc Hl].
    apply negb_true_iff in Hc.
    rewrite app_cons_str. cbn [splitlines_aux]. rewrite Hc.
    rewrite (IH _ _ Hl), app_assoc_str. reflexivity.
Qed.

Lemma splitlines_unlines ls :
  forallb one_line ls = true -> splitlines (unlines ls) = ls.
Proof.
  unfold splitlines. induction ls as [|l ls IH]; [reflexivity|].
  cbn [forallb unlines]. intros H. apply andb_prop in H as [Hl Hls].
  rewrite (splitlines_line l "" _ Hl), app_nil_l_str, (IH Hls). reflexivity.
Qed.

(** X9. A settings file is read line by line, from top to bottom, into a
    dictionary that starts empty: for a file whose lines each end with a
    line feed, the result of [read_env_file] is what the lines do one
    after the other, so that a later assignment to a key replaces an
    earlier one.  Reading changes no file and leaves no trace. *)
Theorem read_env_file_line_by_line path w ls :
  forallb one_line ls = true ->
  fs w !! path = Some (unlines ls) ->
  fst (read_env_file path w) = Ret (foldl env_line ∅ ls) /\
  fs (snd (read_env_file path w)) = fs w /\
  trace (snd (read_env_file path w)) = trace w.
Proof.
  intros Hls Hf. rewrite read_env_file_spec, Hf. cbn [fst snd fs trace call].
  unfold parse_env. rewrite (splitlines_unlines ls Hls). auto.
Qed.

Lemma ensure_found w txt :
  fs w !! "website/.env.local" = Some txt ->
  ensure_website_env_local w = (Ret "website/.env.local", call 0 w).
Proof.
  intros Hw. unfold ensure_website_env_local. cbn zeta.
  unfold bind at 1. unfold Sys.path_exists at 1.
  rewrite bool_decide_eq_true_2 by (rewrite Hw; eauto). reflexivity.
Qed.

Lemma ensure_copied w txt :
  fs w !! "website/.env.local" = None ->
  fs w !! "configs/local/.env.local" = Some txt ->
  ensure_website_env_local w =
  (Ret "website/.env.local",
   log (EvWriteText "website/.env.local" txt)
     (with_fs (<["website/.env.local" := txt]> (fs w))
        (call 0 (call 0 (call 0 (call 0 w)))))).
Proof.
  intros Hw Hfb. unfold ensure_website_env_local. cbn zeta.
  unfold bind at 1. unfold Sys.path_exists at 1.
  rewrite bool_decide_eq_false_2 by (rewrite Hw; intros [x Hx]; discriminate).
  unfold bind at 1. unfold Sys.path_exists at 1. cbn [fs call].
  rewrite bool_decide_eq_true_2 by (rewrite Hfb; eauto).
  unfold bind, Sys.read_text, Sys.write_text, ret. cbn [fs call]. rewrite Hfb.
  reflexivity.
Qed.

Lemma ensure_missing w :
  fs w !! "website/.env.local" = None ->
  fs w !! "configs/local/.env.local" = None ->
  ensure_website_env_local w =
  (Raise (SystemExit 1),
   log (EvStderr
          "Missing website/.env.local and configs/local/.env.local. Create one first.")
     (call 0 (call 0 w))).
Proof.
  intros Hw Hfb. unfold ensure_website_env_local. cbn zeta.
  unfold bind at 1. unfold Sys.path_exists at 1.
  rewrite bool_decide_eq_false_2 by (rewrite Hw; intros [x Hx]; discriminate).
  unfold bind at 1. unfold Sys.path_exists at 1. cbn [fs call].
  rewrite bool_decide_eq_false_2 by (rewrite Hfb; intros [x Hx]; discriminate).
  reflexivity.
Qed.

(** X10. [ensure_website_env_local] either settles on
    [website/.env.local] or gives up with exit status 1.  When it
    returns, the file exists, with the content it had or, if it was
    missing, with the content of [configs/local/.env.local]; an existing
    file is never overwritten, no other file changes, and a second call
    finds the file and does nothing.  It gives up exactly when both files
    are missing, after a message on standard error, and changes no
    file. *)
Theorem ensure_website_env_local_outcomes w :
  let r := fst (ensure_website_env_local w) in
  let w1 := snd (ensure_website_env_local w) in
  (r = Ret "website/.env.local" /\
   (exists txt,
      fs w1 !! "website/.env.local" = Some txt /\
      (fs w !! "website/.env.local" = Some txt \/
       fs w !! "website/.env.local" = None /\
       fs w !! "configs/local/.env.local" = Some txt)) /\
   (forall q, q <> "website/.env.local" -> fs w1 !! q = fs w !! q) /\
   ensure_website_env_local w1 = (Ret "website/.env.local", call 0 w1)) \/
  (r = Raise (SystemExit 1) /\
   fs w !! "website/.env.local" = None /\
   fs w !! "configs/local/.env.local" = None /\
   fs w1 = fs w /\
   trace w1
   = trace w
     ++ [EvStderr
           "Missing website/.env.local and configs/local/.env.local. Create one first."]).
Proof.
  cbn zeta. destruct (fs w !! "website/.env.local") as [txt|] eqn:Hw.
  { left. rewrite (ensure_found w txt Hw). cbn [fst snd fs call].
    split; [reflexivity|]. split; [exists txt; auto|]. split; [auto|].
    apply (ensure_found (call 0 w) txt). exact Hw. }
  destruct (fs w !! "configs/local/.env.local") as [txt|] eqn:Hfb.
  - left. rewrite (ensure_copied w txt Hw Hfb). cbn [fst snd fs log with_fs call].
    split; [reflexivity|]. split.
    { exists txt. rewrite lookup_insert_eq. auto. }
    split.
    { intros q Hq. rewrite lookup_insert_ne by done. reflexivity. }
    apply (ensure_found _ txt). cbn [fs log with_fs call]. apply lookup_insert_eq.
  - right. rewrite (ensure_missing w Hw Hfb).
    cbn [fst snd fs log trace call]. repeat split; eauto.
Qed.

End Settings.

Lemma env_line_assigns_witness :
  has_no "=" " STRIPE_SECRET_KEY " = true /\
  is_comment (lstrip " STRIPE_SECRET_KEY ") = false /\
  env_line ∅ (" STRIPE_SECRET_KEY " +:+ "=" +:+ " sk=1 ")
  = <[strip " STRIPE_SECRET_KEY " := strip " sk=1 "]> ∅.
Proof.
  split; [reflexivity|]. split; [reflexivity|].
  exact (env_line_assigns ∅ " STRIPE_SECRET_KEY " " sk=1 " eq_refl eq_refl).
Defined.

Lemma read_env_file_line_by_line_witness :
  forallb one_line ["# convex"; "A=1"; "A = 2"] = true /\
  fs (Sample.boot Sample.calm
        [("docker/convex/.env", unlines ["# convex"; "A=1"; "A = 2"])])
    !! "docker/convex/.env" = Some (unlines ["# convex"; "A=1"; "A = 2"]) /\
  fst (read_env_file "docker/convex/.env"
         (Sample.boot Sample.calm
            [("docker/convex/.env", unlines ["# convex"; "A=1"; "A = 2"])]))
  = Ret (foldl env_line ∅ ["# convex"; "A=1"; "A = 2"]).
Proof.
  split; [reflexivity|]. split; [reflexivity|].
  exact (proj1 (read_env_file_line_by_line "docker/convex/.env"
           (Sample.boot Sample.calm
              [("docker/convex/.env", unlines ["# convex"; "A=1"; "A = 2"])])
           ["# convex"; "A=1"; "A = 2"] eq_refl eq_refl)).
Defined.

(** ** Supervisor: what starting a service leaves behind *)

Section Starting.

(** The two registries have the same keys, and no log is a marker. *)
Lemma service_paths name :
  (LOGS !! name = None /\ PIDS !! name = None) \/
  (exists log_path pid_path,
     LOGS !! name = Some log_path /\ PIDS !! name = Some pid_path /\
     log_path <> pid_path /\ ~ is_marker log_path).
Proof.
  assert (Hno : forall p, (p = "network.log" \/ p = "auth.log" \/ p = "website.log") ->
                          ~ is_marker p).
  { intros p Hp Hm. apply is_marker_cases in Hm.
    destruct Hp as [-> | [-> | ->]]; destruct Hm as [Hm | [Hm | Hm]]; discriminate. }
  unfold PIDS, LOGS. cbn [list_to_map foldr].
  destruct (decide (name = "network")) as [->|H1].
  { right. exists "network.log", "network.pid". rewrite !lookup_insert_eq.
    repeat split; [discriminate | apply Hno; auto]. }
  destruct (decide (name = "auth")) as [->|H2].
  { right. exists "auth.log", "auth.pid".
    rewrite !(lookup_insert_ne _ "network") by done. rewrite !lookup_insert_eq.
    repeat split; [discriminate | apply Hno; auto]. }
  destruct (decide (name = "website")) as [->|H3].
  { right. exists "website.log", "website.pid".
    rewrite !(lookup_insert_ne _ "network"), !(lookup_insert_ne _ "auth") by done.
    rewrite !lookup_insert_eq.
    repeat split; [discriminate | apply Hno; auto]. }
  left. rewrite !lookup_insert_ne by done. rewrite !lookup_empty. auto.
Qed.

Lemma start_process_unknown name cmd cwd child_env w :
  LOGS !! name = None ->
  start_process name cmd cwd child_env w = (Raise KeyError, w).
Proof.
  intros H. unfold start_process, bind, dict_item. rewrite H. reflexivity.
Qed.

Lemma start_process_known name cmd cwd child_env w log_path pid_path :
  LOGS !! name = Some log_path -> PIDS !! name = Some pid_path ->
  start_process name cmd cwd child_env w =
  let files := match fs w !! log_path with
               | Some _ => fs w
               | None => <[log_path := ""]> (fs w)
               end in
  let w1 := with_fs files (call 0 w) in
  match popen_ans (env w) (S (tick w)) cmd with
  | SpawnFailed =>
      (Raise (spawn_exn (popen_err (env w) (S (tick w)) cmd)),
       log (EvPopen name cmd SpawnFailed) (call 0 w1))
  | Spawned child =>
      (Ret {| pid := child |},
       log (EvWriteText pid_path (py_str child))
         (with_fs (<[pid_path := py_str child]> files)
            (call 0 (log (EvPopen name cmd (Spawned child)) (call 0 w1)))))
  end.
Proof.
  intros Hlog Hpid. unfold start_process, bind, dict_item. rewrite Hlog, Hpid.
  cbn [ret]. unfold Sys.open_append, Sys.popen, Sys.write_text. cbn zeta.
  destruct (fs w !! log_path); cbn [env tick call with_fs];
    destruct (popen_ans (env w) (S (tick w)) cmd); reflexivity.
Qed.

(** X11. A start that fails at the name or at the spawn leaves no marker
    behind.  For a name that is not a managed service, [start_process]
    raises [KeyError] before anything is done.  When [Popen] cannot start
    the child, [start_process] raises the error of [Popen]:
    [FileNotFoundError] for a program that is not there,
    [PermissionError] for one that may not be executed, another [OSError]
    otherwise.  The log file has then been opened, and so created if it
    was missing, the failed spawn is the only event, and no marker file
    is written or changed.  Opening the log and writing the marker do not
    fail in the embedding, so these are the failures it covers. *)
Theorem start_process_failure name cmd cwd child_env w :
  (LOGS !! name = None ->
   start_process name cmd cwd child_env w = (Raise KeyError, w)) /\
  (forall log_path,
     LOGS !! name = Some log_path ->
     popen_ans (env w) (S (tick w)) cmd = SpawnFailed ->
     fst (start_process name cmd cwd child_env w)
     = Raise (match popen_err (env w) (S (tick w)) cmd with
              | SpawnMissing => FileNotFoundError
              | SpawnDenied => PermissionError
              | SpawnOther => OtherOSError
              end) /\
     trace (snd (start_process name cmd cwd child_env w))
     = trace w ++ [EvPopen name cmd SpawnFailed] /\
     fs (snd (start_process name cmd cwd child_env w)) !! log_path
     = Some (default "" (fs w !! log_path)) /\
     (forall p, is_marker p ->
        fs (snd (start_process name cmd cwd child_env w)) !! p = fs w !! p)).
Proof.
  split; [apply start_process_unknown|].
  intros log_path Hlog Hfail.
  destruct (service_paths name)
    as [(Hnone & _) | (log_path' & pid_path & Hlog' & Hpid & Hne & Hnm)];
    [congruence|].
  assert (log_path' = log_path) by congruence. subst log_path'.
  rewrite (start_process_known _ _ _ _ _ _ _ Hlog Hpid). cbn zeta.
  rewrite Hfail. cbn [fst snd fs trace log call with_fs].
  split; [reflexivity|]. split; [reflexivity|]. split.
  - destruct (fs w !! log_path) eqn:Hf; cbn [default from_option id];
      [exact Hf | apply lookup_insert_eq].
  - intros p Hp. destruct (fs w !! log_path); [reflexivity|].
    apply lookup_insert_ne. intros ->. contradiction.
Qed.

(** X12. A start that succeeds changes two files only.  When
    [start_process] returns a handle, the child was spawned by the one
    [Popen] of the call and the handle carries its identifier; the marker
    of the service holds that identifier, replacing whatever it held;
    the log file of the service keeps the text it had, since it is opened
    for appending, or exists empty if it was missing; every other file is
    as before. *)
Theorem start_process_success name cmd cwd child_env w proc :
  fst (start_process name cmd cwd child_env w) = Ret proc ->
  exists log_path pid_path,
    LOGS !! name = Some log_path /\ PIDS !! name = Some pid_path /\
    popen_ans (env w) (S (tick w)) cmd = Spawned (pid proc) /\
    trace (snd (start_process name cmd cwd child_env w))
    = trace w ++ [EvPopen name cmd (Spawned (pid proc));
                  EvWriteText pid_path (py_str (pid proc))] /\
    fs (snd (start_process name cmd cwd child_env w)) !! pid_path
    = Some (py_str (pid proc)) /\
    fs (snd (start_process name cmd cwd child_env w)) !! log_path
    = Some (default "" (fs w !! log_path)) /\
    (forall q, q <> pid_path -> q <> log_path ->
       fs (snd (start_process name cmd cwd child_env w)) !! q = fs w !! q).
Proof.
  destruct (service_paths name)
    as [(Hlog & _) | (log_path & pid_path & Hlog & Hpid & Hne & Hnm)].
  { rewrite (start_process_unknown _ _ _ _ _ Hlog). discriminate. }
  rewrite (start_process_known _ _ _ _ _ _ _ Hlog Hpid). cbn zeta.
  destruct (popen_ans (env w) (S (tick w)) cmd) as [|child]; cbn [fst snd];
    [discriminate|].
  intros H. inversion H. subst proc. cbn [pid].
  exists log_path, pid_path. cbn [fs trace log call with_fs].
  split; [exact Hlog|]. split; [exact Hpid|]. split; [reflexivity|].
  split; [rewrite <- app_assoc; reflexivity|].
  split; [apply lookup_insert_eq|]. split.
  - rewrite lookup_insert_ne by done.
    destruct (fs w !! log_path) eqn:Hf; cbn [default from_option id].
    + exact Hf.
    + apply lookup_insert_eq.
  - intros q Hq1 Hq2. rewrite lookup_insert_ne by done.
    destruct (fs w !! log_path); [reflexivity|].
    rewrite lookup_insert_ne by done. reflexivity.
Qed.

(** X13. What one run records, the clean-up of the next run acts on.  In
    any later world in which the marker written by [start_process] is
    still as it was left, [kill_pidfile] reads from it the process
    identifier that [Popen] gave the child.  Every probe and every
    signal of the call is addressed to that identifier and to no other,
    beginning with a probe when the identifier is not [0], and the only
    file removed is the marker.  The identifier is all that was
    recorded: nothing here says that it still denotes the child, and
    not another process to which the system has given the same
    identifier since. *)
Theorem start_then_kill_pidfile name cmd cwd child_env w proc pid_path w2 :
  PIDS !! name = Some pid_path ->
  fst (start_process name cmd cwd child_env w) = Ret proc ->
  fs w2 !! pid_path
  = fs (snd (start_process name cmd cwd child_env w)) !! pid_path ->
  recorded w2 pid_path (pid proc) /\
  exists d,
    trace (snd (kill_pidfile pid_path w2)) = trace w2 ++ d /\
    Forall (fun e => e = EvUnlink pid_path \/ terminator_event (pid proc) e) d /\
    (pid proc <> 0 ->
     exists a d', d = EvKill (pid proc) SIG0 a :: d').
Proof.
  intros Hpid Hret Hsame.
  destruct (service_paths name)
    as [(_ & Hnone) | (log_path & pid_path' & Hlog & Hpid' & Hne & Hnm)];
    [congruence|].
  assert (pid_path' = pid_path) by congruence. subst pid_path'.
  assert (Hfile : fs w2 !! pid_path = Some (py_str (pid proc))).
  { rewrite Hsame. revert Hret.
    rewrite (start_process_known _ _ _ _ _ _ _ Hlog Hpid). cbn zeta.
    destruct (popen_ans (env w) (S (tick w)) cmd) as [|child]; cbn [fst snd];
      [discriminate|].
    intros H. inversion H. cbn [pid fs log with_fs]. apply lookup_insert_eq. }
  assert (Hrec : py_int (strip (py_str (pid proc))) = Some (pid proc)).
  { rewrite strip_py_str. apply py_int_py_str. }
  split; [exists (py_str (pid proc)); auto|].
  destruct (kill_pidfile_reach pid_path w2) as (_ & _ & _ & d & Ht & Hd).
  exists d. split; [exact Ht|]. split.
  - eapply Forall_impl; [exact Hd|]. intros e [He | (n & (txt & Hf & Hp) & _ & He)].
    + left. exact He.
    + right. rewrite Hfile in Hf. inversion Hf. subst txt.
      rewrite Hrec in Hp. inversion Hp. subst n. exact He.
  - intros Hnz. revert Ht.
    rewrite (kill_pidfile_unfold pid_path w2 _ Hfile), Hrec. cbn zeta.
    destruct (Z.eqb_spec (pid proc) 0) as [|_]; [contradiction|]. cbn [negb].
    set (w3 := call 0 (call 0 w2)).
    assert (Hprobe : exists a d1,
      trace (snd (terminate_pid (pid proc) default_timeout w3))
      = trace w2 ++ EvKill (pid proc) SIG0 a :: d1).
    { destruct (emits_terminate_pid (pid proc) default_timeout w3) as (d1 & Ht1 & _).
      revert Ht1. rewrite terminate_pid_unfold. cbn zeta.
      set (a0 := kill_ans (env w3) (tick w3) (pid proc) SIG0).
      set (w4 := log (EvKill (pid proc) SIG0 a0) (call 0 w3)).
      intros _. exists a0.
      assert (H4 : trace w4 = trace w2 ++ [EvKill (pid proc) SIG0 a0]) by reflexivity.
      destruct (alive_answer a0).
      2:{ exists []. exact H4. }
      set (a1 := kill_ans (env w4) (tick w4) (pid proc) SIGTERM).
      set (w5 := log (EvKill (pid proc) SIGTERM a1) (call 0 w4)).
      assert (H5 : trace w5 = trace w2 ++ EvKill (pid proc) SIG0 a0
                                 :: [EvKill (pid proc) SIGTERM a1]).
      { subst w5. cbn [trace log call]. rewrite H4, <- app_assoc. reflexivity. }
      destruct a1; cbn [snd]; try (eexists; exact H5).
      set (start := clock (call 0 w5)).
      set (w6 := log (EvTime start) (call 0 w5)).
      destruct (emits_wait_loop (pid proc) (wait_bound default_timeout) start
                  default_timeout w6) as (d6 & Ht6 & _).
      assert (H6 : trace w6 = trace w2 ++ EvKill (pid proc) SIG0 a0
                                 :: [EvKill (pid proc) SIGTERM KillOk; EvTime start]).
      { subst w6. cbn [trace log call]. rewrite H5, <- app_assoc. reflexivity. }
      destruct (wait_loop _ _ _ _ w6) as [[[|]|e] w7]; cbn [snd] in *;
        rewrite ?trace_log, ?trace_call, Ht6, H6, <- ?app_assoc; cbn [app];
        eexists; reflexivity. }
    destruct Hprobe as (a & d1 & Hp1).
    destruct (terminate_pid (pid proc) default_timeout w3) as [[[]|e] w8];
      cbn [snd] in Hp1 |- *.
    + rewrite clear_marker_unfold.
      destruct (fs w8 !! pid_path); cbn [snd trace log call with_fs]; rewrite Hp1;
        intros Ht; exists a.
      * exists (d1 ++ [EvUnlink pid_path]).
        rewrite <- app_assoc in Ht. apply app_inv_head in Ht. exact (eq_sym Ht).
      * exists d1. apply app_inv_head in Ht. exact (eq_sym Ht).
    + rewrite Hp1. intros Ht. exists a, d1.
      apply app_inv_head in Ht. exact (eq_sym Ht).
Qed.

End Starting.

Lemma start_process_failure_witness :
  LOGS !! "auth" = Some "auth.log" /\
  popen_ans (env (Sample.boot Scenario.no_npm []))
    (S (tick (Sample.boot Scenario.no_npm []))) ["npm"; "run"; "dev"]
  = SpawnFailed /\
  fst (start_process "auth" ["npm"; "run"; "dev"] (Some "services/auth") []
         (Sample.boot Scenario.no_npm []))
  = Raise FileNotFoundError /\
  fs (snd (start_process "auth" ["npm"; "run"; "dev"] (Some "services/auth")
             [] (Sample.boot Scenario.no_npm []))) !! "auth.pid" = None.
Proof.
  split; [reflexivity|]. split; [reflexivity|].
  destruct (proj2 (start_process_failure "auth" ["npm"; "run"; "dev"]
                     (Some "services/auth") [] (Sample.boot Scenario.no_npm []))
              "auth.log" eq_refl eq_refl) as (Hr & _ & _ & Hm).
  split; [exact Hr|].
  rewrite (Hm "auth.pid" (ex_intro _ "auth" eq_refl)). reflexivity.
Defined.

Lemma start_process_success_witness :
  fst (start_process "auth" ["npm"; "run"; "dev"] (Some "services/auth") []
         (Sample.boot Sample.calm [("auth.log", "old")]))
  = Ret {| pid := 4001 |} /\
  exists log_path pid_path,
    LOGS !! "auth" = Some log_path /\ PIDS !! "auth" = Some pid_path /\
    popen_ans (env (Sample.boot Sample.calm [("auth.log", "old")]))
      (S (tick (Sample.boot Sample.calm [("auth.log", "old")])))
      ["npm"; "run"; "dev"] = Spawned 4001.
Proof.
  split; [reflexivity|].
  destruct (start_process_success "auth" ["npm"; "run"; "dev"]
              (Some "services/auth") []
              (Sample.boot Sample.calm [("auth.log", "old")])
              {| pid := 4001 |} eq_refl)
    as (log_path & pid_path & H1 & H2 & H3 & _).
  exists log_path, pid_path. auto.
Defined.

Lemma start_then_kill_pidfile_witness :
  PIDS !! "auth" = Some "auth.pid" /\
  fst (start_process "auth" ["npm"; "run"; "dev"] (Some "services/auth") []
         (Sample.boot Sample.stubborn []))
  = Ret {| pid := 4001 |} /\
  recorded (snd (start_process "auth" ["npm"; "run"; "dev"]
                   (Some "services/auth") [] (Sample.boot Sample.stubborn [])))
    "auth.pid" 4001.
Proof.
  split; [reflexivity|]. split; [reflexivity|].
  exact (proj1 (start_then_kill_pidfile "auth" ["npm"; "run"; "dev"]
                  (Some "services/auth") [] (Sample.boot Sample.stubborn [])
                  {| pid := 4001 |} "auth.pid"
                  (snd (start_process "auth" ["npm"; "run"; "dev"]
                          (Some "services/auth") []
                          (Sample.boot Sample.stubborn [])))
                  eq_refl eq_refl eq_refl)).
Defined.

(** ** Clean-up and start-up as wholes *)

Section Whole.

Lemma tame_gone {A} (m : M A) w p :
  tame m -> fs w !! p = None -> fs (snd (m w)) !! p = None.
Proof.
  intros Hm Hp. destruct (Hm w) as [_ Hf].
  destruct (Hf p) as [E | [_ E]]; [rewrite E; exact Hp | exact E].
Qed.

Lemma kill_pidfile_gone path w :
  fst (kill_pidfile path w) = Ret tt ->
  fs (snd (kill_pidfile path w)) !! path = None.
Proof.
  destruct (fs w !! path) as [txt|] eqn:Hf.
  - destruct (kill_pidfile_cases path w txt Hf)
      as [(_ & Hgone) | (n & e & _ & _ & _ & Hr & _)]; [auto|].
    rewrite Hr. discriminate.
  - rewrite (kill_pidfile_absent path w Hf). cbn [fst snd fs call]. auto.
Qed.

Lemma cleanup_unfold w :
  cleanup w =
  match kill_pidfile "website.pid" w with
  | (Ret _, w1) =>
      match kill_pidfile "network.pid" w1 with
      | (Ret _, w2) =>
          match kill_pidfile "auth.pid" w2 with
          | (Ret _, w3) => for_each cleanup_patterns kill_by_pattern w3
          | (Raise e, w3) => (Raise e, w3)
          end
      | (Raise e, w2) => (Raise e, w2)
      end
  | (Raise e, w1) => (Raise e, w1)
  end.
Proof.
  unfold cleanup. cbn [for_each]. unfold bind, dict_item, ret.
  change (PIDS !! "website") with (Some "website.pid").
  change (PIDS !! "network") with (Some "network.pid").
  change (PIDS !! "auth") with (Some "auth.pid").
  cbv iota beta.
  destruct (kill_pidfile "website.pid" w) as [[[]|e1] w1]; [|reflexivity].
  destruct (kill_pidfile "network.pid" w1) as [[[]|e2] w2]; [|reflexivity].
  destruct (kill_pidfile "auth.pid" w2) as [[[]|e3] w3]; reflexivity.
Qed.

Lemma cleanup_gone w :
  fst (cleanup w) = Ret tt ->
  forall p, is_marker p -> fs (snd (cleanup w)) !! p = None.
Proof.
  assert (Hw : is_marker "website.pid") by (exists "website"; reflexivity).
  assert (Hn : is_marker "network.pid") by (exists "network"; reflexivity).
  assert (Ha : is_marker "auth.pid") by (exists "auth"; reflexivity).
  rewrite cleanup_unfold.
  pose proof (kill_pidfile_gone "website.pid" w) as G1.
  destruct (kill_pidfile "website.pid" w) as [[[]|e1] w1]; [|discriminate].
  specialize (G1 eq_refl). cbn [snd] in G1.
  pose proof (kill_pidfile_gone "network.pid" w1) as G2.
  pose proof (tame_gone (kill_pidfile "network.pid") w1 "website.pid"
                (tame_kill_pidfile _ Hn) G1) as G1'.
  destruct (kill_pidfile "network.pid" w1) as [[[]|e2] w2]; [|discriminate].
  specialize (G2 eq_refl). cbn [snd] in G2, G1'.
  pose proof (kill_pidfile_gone "auth.pid" w2) as G3.
  pose proof (tame_gone (kill_pidfile "auth.pid") w2 "website.pid"
                (tame_kill_pidfile _ Ha) G1') as G1''.
  pose proof (tame_gone (kill_pidfile "auth.pid") w2 "network.pid"
                (tame_kill_pidfile _ Ha) G2) as G2'.
  destruct (kill_pidfile "auth.pid" w2) as [[[]|e3] w3]; [|discriminate].
  specialize (G3 eq_refl). cbn [snd] in G3, G1'', G2'.
  intros _ p Hp. apply is_marker_cases in Hp.
  apply tame_gone.
  { apply tame_for_each. intros; apply tame_kill_by_pattern. }
  destruct Hp as [-> | [-> | ->]]; assumption.
Qed.

(** X14. A clean-up that returns has cleared the registry: every marker
    file is gone, whether or not it existed, and every other file is as
    it was; the clean-up has only probed, signalled, slept, read the
    clock, listed processes and removed files. *)
Theorem cleanup_clears_registry w :
  fst (cleanup w) = Ret tt ->
  (forall p, is_marker p -> fs (snd (cleanup w)) !! p = None) /\
  (forall p, ~ is_marker p -> fs (snd (cleanup w)) !! p = fs w !! p) /\
  exists d, trace (snd (cleanup w)) = trace w ++ d /\ Forall sweep_event d.
Proof.
  intros Hret. split; [exact (cleanup_gone w Hret)|].
  destruct (tame_cleanup w) as [Hd Hf]. split; [|exact Hd].
  intros p Hp. destruct (Hf p) as [E | [Hm _]]; [exact E | contradiction].
Qed.

(** *** On a cooperative system the clean-up cannot fail *)

Lemma sure_bind I {A B} (m : M A) (k : A -> M B) :
  sure I m -> keeps env m -> (forall a, sure I (k a)) -> sure I (bind m k).
Proof.
  intros Hm He Hk w Hw. unfold bind.
  destruct (Hm w Hw) as (a & Ha). specialize (He w).
  destruct (m w) as [r w1]; cbn [fst snd] in *. subst r.
  apply Hk. rewrite He. exact Hw.
Qed.

Lemma sure_for_each I {A} (xs : list A) body :
  (forall x, In x xs -> sure I (body x)) -> (forall x, keeps env (body x)) ->
  sure I (for_each xs body).
Proof.
  intros Hs He. induction xs as [|x xs IH]; cbn [for_each].
  - intros w _. exists tt. reflexivity.
  - apply sure_bind; [apply Hs; left; reflexivity | apply He |].
    intros _. apply IH. intros y Hy. apply Hs. right. exact Hy.
Qed.

Lemma wait_loop_accepted p start timeout n : forall w,
  signals_accepted (env w) ->
  match fst (wait_loop n p start timeout w) with
  | Ret _ => True
  | Raise e => e = Diverged
  end.
Proof.
  induction n as [|n IH]; intros w Hw; [reflexivity|].
  cbn [wait_loop]. unfold bind at 1. unfold Sys.time_time at 1.
  destruct (_ <? timeout); [|exact I].
  unfold bind at 1. rewrite pid_exists_spec. cbn zeta. cbn [env tick log call].
  destruct (Hw (S (tick w)) p SIG0) as [-> | ->]; cbn [negb]; [|exact I].
  unfold bind at 1. unfold Sys.time_sleep at 1. apply IH. exact Hw.
Qed.

Lemma terminate_pid_accepted p timeout w :
  signals_accepted (env w) -> fst (terminate_pid p timeout w) = Ret tt.
Proof.
  intros Hw. pose proof (terminate_pid_finishes p timeout w) as Hfin.
  revert Hfin. rewrite terminate_pid_unfold. cbn zeta. cbn [env tick log call].
  destruct (Hw (tick w) p SIG0) as [-> | ->]; cbn [alive_answer fst]; [|reflexivity].
  destruct (Hw (S (tick w)) p SIGTERM) as [-> | ->]; [|reflexivity].
  match goal with |- context [wait_loop ?n ?q ?s ?tm ?w3] =>
    pose proof (wait_loop_accepted q s tm n w3 Hw) as Hl;
    pose proof (keeps_wait_loop env env_log env_call q n s tm w3) as He;
    destruct (wait_loop n q s tm w3) as [r w4] end.
  cbn [fst snd] in Hl, He. cbn [env log call] in He.
  destruct r as [[|]|e]; cbn [fst].
  - reflexivity.
  - rewrite He. destruct (Hw (tick w4) p SIGKILL) as [-> | ->]; reflexivity.
  - subst e. congruence.
Qed.

Lemma keeps_env_kill_pidfile path : keeps env (kill_pidfile path).
Proof.
  unfold kill_pidfile. apply keeps_bind; [intros w; reflexivity|]. intros present.
  apply keeps_if; [apply keeps_ret|].
  apply keeps_bind.
  { intros w. unfold read_pid, try_except, bind, Sys.read_text.
    destruct (fs w !! path) as [txt|]; [|reflexivity].
    destruct (py_int (strip txt)); reflexivity. }
  intros pid. apply keeps_bind.
  { destruct pid as [n|]; [|apply keeps_ret].
    apply keeps_if; [|apply keeps_ret].
    apply keeps_terminate_pid; [exact env_log | exact env_call]. }
  intros _. intros w. unfold try_except, Sys.unlink.
  destruct (fs w !! path); reflexivity.
Qed.

Lemma sure_kill_pidfile path : sure cooperative (kill_pidfile path).
Proof.
  intros w [Hw _]. exists tt.
  destruct (fs w !! path) as [txt|] eqn:Hf.
  - destruct (kill_pidfile_cases path w txt Hf)
      as [(Hr & _) | (n & e & _ & _ & Ht & _)]; [exact Hr|].
    rewrite terminate_pid_accepted in Ht by exact Hw. discriminate.
  - rewrite (kill_pidfile_absent path w Hf). reflexivity.
Qed.

Lemma sure_kill_by_pattern pattern : sure cooperative (kill_by_pattern pattern).
Proof.
  intros w [Hw Hg]. exists tt.
  unfold kill_by_pattern. unfold bind at 1. rewrite run_pgrep_unfold.
  specialize (Hg (tick w) pattern).
  destruct (pgrep_ans (env w) (tick w) pattern) as [|rc out]; [contradiction|].
  cbn [fst snd listing_ok] in *.
  destruct (negb (rc =? 0)); [reflexivity|].
  set (w1 := log _ _).
  assert (Hw1 : signals_accepted (env w1)) by exact Hw.
  clearbody w1. revert w1 Hw1.
  induction (split out) as [|token tokens IH]; intros w1 Hw1; [reflexivity|].
  cbn [for_each]. unfold bind at 1.
  assert (Hbody : exists w2,
    (if negb (isdigit token) then ret tt
     else match py_int token with
          | Some n => terminate_pid n default_timeout
          | None => raise ValueError
          end) w1 = (Ret tt, w2) /\ env w2 = env w1).
  { destruct (isdigit token) eqn:Hd; cbn [negb]; [|exists w1; auto].
    destruct (py_int token) as [n|] eqn:Hp.
    2:{ exfalso. apply (Hg token); [left; reflexivity | exact Hd | exact Hp]. }
    pose proof (terminate_pid_accepted n default_timeout w1 Hw1) as Hr.
    pose proof (keeps_terminate_pid env env_log env_call n default_timeout w1) as He.
    destruct (terminate_pid n default_timeout w1) as [r w2]; cbn [fst snd] in *.
    subst r. exists w2. auto. }
  destruct Hbody as (w2 & -> & He).
  apply IH.
  - intros t Ht. apply Hg. right. exact Ht.
  - rewrite He. exact Hw1.
Qed.

Lemma sure_cleanup : sure cooperative cleanup.
Proof.
  intros w Hw. exists tt. rewrite cleanup_unfold.
  assert (Hstep : forall path v, cooperative (env v) ->
    exists v', kill_pidfile path v = (Ret tt, v') /\ cooperative (env v')).
  { intros path v Hv. destruct (sure_kill_pidfile path v Hv) as ([] & Hr).
    pose proof (keeps_env_kill_pidfile path v) as He.
    destruct (kill_pidfile path v) as [r v']; cbn [fst snd] in *. subst r.
    exists v'. rewrite He. auto. }
  destruct (Hstep "website.pid" w Hw) as (w1 & -> & H1).
  destruct (Hstep "network.pid" w1 H1) as (w2 & -> & H2).
  destruct (Hstep "auth.pid" w2 H2) as (w3 & -> & H3).
  destruct (sure_for_each cooperative cleanup_patterns kill_by_pattern) with (w := w3)
    as ([] & Hr); auto.
  - intros; apply sure_kill_by_pattern.
  - intros pattern. apply keeps_kill_by_pattern; [exact env_log | exact env_call].
Qed.

(** X15. On a cooperative system the clean-up cannot fail: when the
    system accepts the signals of the script (a process is signalled, or
    turns out to be gone) and [pgrep] is installed and lists process
    identifiers, [cleanup] returns normally and leaves no marker file,
    whatever the marker files held and however long the processes take
    to stop. *)
Theorem cleanup_succeeds w :
  cooperative (env w) ->
  fst (cleanup w) = Ret tt /\
  (forall p, is_marker p -> fs (snd (cleanup w)) !! p = None).
Proof.
  intros Hw. destruct (sure_cleanup w Hw) as ([] & Hr).
  split; [exact Hr | exact (cleanup_gone w Hr)].
Qed.

Lemma keeps_env_cleanup : keeps env cleanup.
Proof.
  unfold cleanup. apply keeps_bind.
  - apply keeps_for_each. intros key _. apply keeps_bind.
    + unfold dict_item. destruct (PIDS !! key); [apply keeps_ret | apply keeps_raise].
    + intros path. apply keeps_env_kill_pidfile.
  - intros _. apply keeps_for_each. intros pattern _.
    apply keeps_kill_by_pattern; [exact env_log | exact env_call].
Qed.

End Whole.

(** ** A start that goes through *)

Section Serving.

Lemma run_checked_ok cmd w :
  run_ans (env w) (tick w) cmd = true ->
  Sys.run_checked cmd w = (Ret tt, log (EvRun cmd true) (call 0 w)).
Proof. intros H. unfold Sys.run_checked. cbn zeta. rewrite H. reflexivity. Qed.

Lemma start_process_spawned name cmd cwd child_env w log_path pid_path :
  LOGS !! name = Some log_path -> PIDS !! name = Some pid_path ->
  log_path <> pid_path ->
  popen_ans (env w) (S (tick w)) cmd <> SpawnFailed ->
  exists child w',
    start_process name cmd cwd child_env w = (Ret {| pid := child |}, w') /\
    env w' = env w /\
    trace w' = trace w ++ [EvPopen name cmd (Spawned child);
                           EvWriteText pid_path (py_str child)] /\
    fs w' !! pid_path = Some (py_str child) /\
    (forall q, q <> pid_path -> q <> log_path -> fs w' !! q = fs w !! q).
Proof.
  intros Hlog Hpid Hne Hspawn.
  rewrite (start_process_known _ _ _ _ _ _ _ Hlog Hpid). cbn zeta.
  destruct (popen_ans (env w) (S (tick w)) cmd) as [|child]; [congruence|].
  eexists child, _. split; [reflexivity|]. cbn [env trace fs log call with_fs].
  split; [reflexivity|]. split; [rewrite <- app_assoc; reflexivity|].
  split; [apply lookup_insert_eq|].
  intros q Hq1 Hq2. rewrite lookup_insert_ne by done.
  destruct (fs w !! log_path); [reflexivity|].
  rewrite lookup_insert_ne by done. reflexivity.
Qed.

Lemma startup_found args w wtxt :
  fs w !! "website/.env.local" = Some wtxt ->
  config_complete args w ->
  (forall i cmd, run_ans (env w) i cmd = true) ->
  (forall i cmd, popen_ans (env w) i cmd <> SpawnFailed) ->
  exists network auth website w',
    startup args w
    = (Ret (Serving [{| pid := network |}; {| pid := auth |};
                     {| pid := website |}]), w') /\
    trace w' = trace w
               ++ launch_events args (convex_settings w) network auth website /\
    fs w' !! "network.pid" = Some (py_str network) /\
    fs w' !! "auth.pid" = Some (py_str auth) /\
    fs w' !! "website.pid" = Some (py_str website).
Proof.
  intros Hw (H1 & H2 & H3 & H4 & H5 & H6 & H7) Hrun Hspawn.
  unfold website_settings in H1, H2, H3. rewrite Hw in H1, H2, H3.
  unfold startup. unfold bind at 1. rewrite (ensure_found w wtxt Hw).
  unfold bind at 1. rewrite read_env_file_spec. cbn [fs call]. rewrite Hw.
  unfold bind at 1. rewrite read_env_file_spec. cbn [fs call].
  unfold convex_settings in *.
  destruct (fs w !! "docker/convex/.env") as [ctxt|] eqn:Hc;
    [|exfalso; revert H4; clear; vm_compute; discriminate].
  cbn zeta. rewrite H1, H2, H3, H4, H5, H6. cbn [orb].
  unfold bind at 1. unfold Sys.path_exists at 1. cbn [fs call].
  rewrite bool_decide_eq_true_2 by exact H7. cbn [negb].
  do 5 (unfold bind at 1; rewrite run_checked_ok by (cbn [env log call]; apply Hrun)).
  set (w5 := log _ _).
  assert (E5 : env w5 = env w) by reflexivity.
  assert (F5 : fs w5 = fs w) by reflexivity.
  assert (T5 : trace w5 = trace w ++ ((fun cmd => EvRun cmd true)
                                        <$> convex_commands (parse_env ctxt))).
  { subst w5. cbn [trace log call fmap list_fmap convex_commands].
    rewrite <- !app_assoc. reflexivity. }
  clearbody w5.
  unfold bind at 1.
  destruct (start_process_spawned "network"
              (["scripts/start-local-network.sh"; config_dir args; py_str (nodes args)]
               ++ (if fresh args then ["--fresh"] else [])
               ++ (if no_build args then ["--no-build"] else []))
              None
              [("ALLOW_HTTP_NO_ORIGIN", "1"); ("ALLOW_WS_NO_ORIGIN", "1");
               ("ALLOWED_HTTP_ORIGINS",
                 join "," ["http://localhost:" +:+ py_str (web_port args);
                           "http://127.0.0.1:" +:+ py_str (web_port args);
                           "http://localhost:3000"; "http://127.0.0.1:3000"]);
               ("ALLOWED_WS_ORIGINS",
                 join "," ["http://localhost:" +:+ py_str (web_port args);
                           "http://127.0.0.1:" +:+ py_str (web_port args);
                           "http://localhost:3000"; "http://127.0.0.1:3000"])]
              w5 "network.log" "network.pid" eq_refl eq_refl)
    as (network & w6 & -> & E6 & T6 & P6 & F6);
    [discriminate | rewrite E5; apply Hspawn |].
  unfold bind at 1.
  destruct (start_process_spawned "auth" ["npm"; "run"; "dev"]
              (Some "services/auth")
              [("AUTH_ALLOWED_ORIGINS",
                 join "," ["http://localhost:" +:+ py_str (web_port args);
                           "http://127.0.0.1:" +:+ py_str (web_port args);
                           "http://localhost:3000"; "http://127.0.0.1:3000"])]
              w6 "auth.log" "auth.pid" eq_refl eq_refl)
    as (auth & w7 & -> & E7 & T7 & P7 & F7);
    [discriminate | rewrite E6, E5; apply Hspawn |].
  unfold bind at 1.
  destruct (start_process_spawned "website"
              ["npm"; "run"; "dev"; "--"; "--host"; "127.0.0.1"; "--port";
               py_str (web_port args)]
              (Some "website") [] w7 "website.log" "website.pid" eq_refl eq_refl)
    as (website & w8 & -> & E8 & T8 & P8 & F8);
    [discriminate | rewrite E7, E6, E5; apply Hspawn |].
  exists network, auth, website, w8. split; [reflexivity|].
  split.
  { rewrite T8, T7, T6, T5. unfold launch_events, network_cmd, auth_cmd, website_cmd.
    rewrite <- !app_assoc. reflexivity. }
  split; [|split].
  - rewrite F8, F7 by discriminate. exact P6.
  - rewrite F8 by discriminate. exact P7.
  - exact P8.
Qed.

Lemma startup_copied args w txt :
  fs w !! "website/.env.local" = None ->
  fs w !! "configs/local/.env.local" = Some txt ->
  startup args w
  = startup args
      (log (EvWriteText "website/.env.local" txt)
         (with_fs (<["website/.env.local" := txt]> (fs w))
            (call 0 (call 0 (call 0 w))))).
Proof.
  intros Hw Hfb. unfold startup. unfold bind at 1.
  rewrite (ensure_copied w txt Hw Hfb). symmetry. unfold bind at 1.
  rewrite (ensure_found _ txt) by (cbn [fs log with_fs call]; apply lookup_insert_eq).
  reflexivity.
Qed.

(** The world in which [startup] goes on after the settings are in
    place. *)
Lemma startup_settled args w :
  (exists txt, fs w !! "website/.env.local" = Some txt) \/
  (fs w !! "website/.env.local" = None /\
   fs w !! "configs/local/.env.local" = None) \/
  (exists txt v,
     fs w !! "website/.env.local" = None /\
     fs w !! "configs/local/.env.local" = Some txt /\
     startup args w = startup args v /\
     fs v !! "website/.env.local" = Some txt /\
     env v = env w /\
     trace v = trace w ++ [EvWriteText "website/.env.local" txt] /\
     (forall q, q <> "website/.env.local" -> fs v !! q = fs w !! q)).
Proof.
  destruct (fs w !! "website/.env.local") as [txt|] eqn:Hw; [left; eauto|].
  destruct (fs w !! "configs/local/.env.local") as [txt|] eqn:Hfb; [|auto].
  right. right. eexists txt, _. split; [reflexivity|]. split; [reflexivity|].
  split; [exact (startup_copied args w txt Hw Hfb)|].
  cbn [fs env trace log with_fs call].
  split; [apply lookup_insert_eq|]. split; [reflexivity|]. split; [reflexivity|].
  intros q Hq. apply lookup_insert_ne. congruence.
Qed.

Lemma settings_after_copy args w v txt :
  fs w !! "website/.env.local" = None ->
  fs w !! "configs/local/.env.local" = Some txt ->
  fs v !! "website/.env.local" = Some txt ->
  (forall q, q <> "website/.env.local" -> fs v !! q = fs w !! q) ->
  website_settings v = website_settings w /\
  convex_settings v = convex_settings w /\
  fs v !! (config_dir args +:+ "/node0.yaml")
  = fs w !! (config_dir args +:+ "/node0.yaml").
Proof.
  intros Hw Hfb Hv Hframe. unfold website_settings, convex_settings.
  rewrite Hv, Hw, Hfb, (Hframe "docker/convex/.env") by discriminate.
  repeat split. apply Hframe. apply node0_not_website_env.
Qed.

Lemma startup_launches args w :
  config_complete args w ->
  (forall i cmd, run_ans (env w) i cmd = true) ->
  (forall i cmd, popen_ans (env w) i cmd <> SpawnFailed) ->
  exists network auth website w',
    startup args w
    = (Ret (Serving [{| pid := network |}; {| pid := auth |};
                     {| pid := website |}]), w') /\
    trace w' = trace w ++ settings_copy w
               ++ launch_events args (convex_settings w) network auth website /\
    fs w' !! "network.pid" = Some (py_str network) /\
    fs w' !! "auth.pid" = Some (py_str auth) /\
    fs w' !! "website.pid" = Some (py_str website).
Proof.
  intros Hc Hrun Hspawn. unfold settings_copy.
  destruct (startup_settled args w)
    as [(txt & Hw) | [(Hw & Hfb) | (txt & v & Hw & Hfb & Heq & Hv & He & Ht & Hf)]].
  - rewrite Hw. apply (startup_found args w txt Hw Hc Hrun Hspawn).
  - exfalso. destruct Hc as (H1 & _). revert H1. unfold website_settings.
    rewrite Hw, Hfb. vm_compute. discriminate.
  - rewrite Hw, Hfb, Heq.
    destruct (settings_after_copy args w v txt Hw Hfb Hv Hf) as (S1 & S2 & S3).
    destruct (startup_found args v txt Hv) as (n & a & s & w' & Hr & Htr & Hm).
    + unfold config_complete. rewrite S1, S2, S3. exact Hc.
    + rewrite He. exact Hrun.
    + rewrite He. exact Hspawn.
    + exists n, a, s, w'. split; [exact Hr|]. split; [|exact Hm].
      rewrite Htr, Ht, S2, <- app_assoc. reflexivity.
Qed.

(** X16. With a complete configuration, on a system where the set-up
    commands succeed and processes can be spawned, [startup] reaches the
    serving state: it copies the fallback settings if the website has
    none, runs the five Convex commands in order, with the values of the
    settings file as arguments, then starts the network, the
    authentication service and the website, in this order, and writes the
    marker of each right after its start; the handles it returns carry
    the identifiers that the markers hold.  Nothing is printed on
    standard error. *)
Theorem startup_serves args w :
  config_complete args w ->
  (forall i cmd, run_ans (env w) i cmd = true) ->
  (forall i cmd, popen_ans (env w) i cmd <> SpawnFailed) ->
  exists network auth website,
    fst (startup args w)
    = Ret (Serving [{| pid := network |}; {| pid := auth |};
                    {| pid := website |}]) /\
    trace (snd (startup args w))
    = trace w ++ settings_copy w
      ++ launch_events args (convex_settings w) network auth website /\
    fs (snd (startup args w)) !! "network.pid" = Some (py_str network) /\
    fs (snd (startup args w)) !! "auth.pid" = Some (py_str auth) /\
    fs (snd (startup args w)) !! "website.pid" = Some (py_str website).
Proof.
  intros Hc Hrun Hspawn.
  destruct (startup_launches args w Hc Hrun Hspawn) as (n & a & s & w' & -> & H).
  exists n, a, s. exact (conj eq_refl H).
Qed.

End Serving.

(** ** A start that stops at a command *)

Section Halting.

Lemma start_process_raises name cmd cwd child_env w e w' :
  start_process name cmd cwd child_env w = (Raise e, w') ->
  e = KeyError \/ e = FileNotFoundError \/ e = PermissionError \/
  e = OtherOSError.
Proof.
  destruct (service_paths name)
    as [(Hlog & _) | (log_path & pid_path & Hlog & Hpid & _)].
  - rewrite (start_process_unknown _ _ _ _ _ Hlog). intros H. inversion H. auto.
  - rewrite (start_process_known _ _ _ _ _ _ _ Hlog Hpid). cbn zeta.
    destruct (popen_ans _ _ _); intros H; inversion H.
    destruct (popen_err _ _ _); cbn [spawn_exn]; auto.
Qed.

Lemma bind_inv {A B} (m : M A) (k : A -> M B) w r w' :
  bind m k w = (r, w') ->
  (exists e, m w = (Raise e, w') /\ r = Raise e) \/
  (exists a w1, m w = (Ret a, w1) /\ k a w1 = (r, w')).
Proof.
  unfold bind. destruct (m w) as [[a|e] w1]; intros H.
  - right. eauto.
  - left. inversion H. eauto.
Qed.

Lemma if_inv {A} (b : bool) (m1 m2 : M A) w r :
  (if b then m1 else m2) w = r ->
  (b = true /\ m1 w = r) \/ (b = false /\ m2 w = r).
Proof. destruct b; auto. Qed.

Lemma exit_not_raise msg w e w' :
  (do _ <- Sys.print_stderr msg ;; ret (Exit 1)) w = (Raise e, w') -> False.
Proof. unfold bind, Sys.print_stderr, ret. discriminate. Qed.

Lemma run_checked_inv cmd w r w' :
  Sys.run_checked cmd w = (r, w') ->
  (r = Ret tt /\ w' = log (EvRun cmd true) (call 0 w)) \/
  (r = Raise CalledProcessError /\ w' = log (EvRun cmd false) (call 0 w)).
Proof.
  unfold Sys.run_checked. cbn zeta. destruct (run_ans _ _ _); intros H;
    inversion H; auto.
Qed.

(** One command of the start-up: it fails and the start-up ends there, or
    it succeeds and the start-up goes on. *)
Lemma run_step cmd (k : M main_result) w w' :
  (do _ <- Sys.run_checked cmd ;; k) w = (Raise CalledProcessError, w') ->
  w' = log (EvRun cmd false) (call 0 w) \/
  k (log (EvRun cmd true) (call 0 w)) = (Raise CalledProcessError, w').
Proof.
  intros E. apply bind_inv in E as [(e & E1 & _) | (a & w1 & E1 & E)];
    apply run_checked_inv in E1 as [(H1 & H2) | (H1 & H2)];
    try discriminate; subst; auto.
Qed.

Lemma start_step name cmd cwd child_env (k : Popen -> M main_result) w w' :
  (do proc <- start_process name cmd cwd child_env ;; k proc) w
  = (Raise CalledProcessError, w') ->
  exists proc w1, k proc w1 = (Raise CalledProcessError, w').
Proof.
  intros E. apply bind_inv in E as [(e & E1 & He) | (a & w1 & E1 & E)].
  - inversion He. subst e.
    destruct (start_process_raises _ _ _ _ _ _ _ E1) as [H0 | [H0 | [H0 | H0]]];
      discriminate.
  - eauto.
Qed.

Lemma startup_found_failure args w wtxt w' :
  fs w !! "website/.env.local" = Some wtxt ->
  startup args w = (Raise CalledProcessError, w') ->
  exists done cmd rest,
    convex_commands (convex_settings w) = done ++ cmd :: rest /\
    trace w' = trace w ++ ((fun c => EvRun c true) <$> done)
                 ++ [EvRun cmd false] /\
    fs w' = fs w.
Proof.
  intros Hw E. unfold startup in E.
  apply bind_inv in E as [(e & E1 & _) | (path & w1 & E1 & E)];
    rewrite (ensure_found w wtxt Hw) in E1; inversion E1; subst path w1; clear E1.
  apply bind_inv in E as [(e & E1 & _) | (website_env & w1 & E1 & E)];
    rewrite read_env_file_spec in E1; cbn [fs call] in E1; rewrite Hw in E1;
    inversion E1; subst website_env w1; clear E1.
  apply bind_inv in E as [(e & E1 & _) | (convex_env & w1 & E1 & E)];
    rewrite read_env_file_spec in E1; cbn [fs call] in E1.
  { destruct (fs w !! "docker/convex/.env"); discriminate E1. }
  assert (Hconvex : convex_env = convex_settings w /\ fs w1 = fs w /\
                    trace w1 = trace w).
  { unfold convex_settings.
    destruct (fs w !! "docker/convex/.env"); inversion E1; subst; auto. }
  clear E1. destruct Hconvex as (-> & F1 & T1).
  cbv zeta in E.
  apply if_inv in E as [(_ & E) | (_ & E)]; [destruct (exit_not_raise _ _ _ _ E)|].
  apply if_inv in E as [(_ & E) | (_ & E)]; [destruct (exit_not_raise _ _ _ _ E)|].
  apply if_inv in E as [(_ & E) | (_ & E)]; [destruct (exit_not_raise _ _ _ _ E)|].
  apply bind_inv in E as [(e & E1 & _) | (present & w2 & E1 & E)];
    unfold Sys.path_exists in E1; inversion E1; subst present w2; clear E1.
  apply if_inv in E as [(_ & E) | (_ & E)]; [destruct (exit_not_raise _ _ _ _ E)|].
  unfold convex_commands.
  apply run_step in E as [-> | E].
  { eexists [], _, _. split; [reflexivity|]. cbn [trace fs log call fmap list_fmap app].
    rewrite T1, F1. split; reflexivity. }
  apply run_step in E as [-> | E].
  { eexists [_], _, _. split; [reflexivity|]. cbn [trace fs log call fmap list_fmap app].
    rewrite T1, F1, <- !app_assoc. split; reflexivity. }
  apply run_step in E as [-> | E].
  { eexists [_; _], _, _. split; [reflexivity|].
    cbn [trace fs log call fmap list_fmap app].
    rewrite T1, F1, <- !app_assoc. split; reflexivity. }
  apply run_step in E as [-> | E].
  { eexists [_; _; _], _, _. split; [reflexivity|].
    cbn [trace fs log call fmap list_fmap app].
    rewrite T1, F1, <- !app_assoc. split; reflexivity. }
  apply run_step in E as [-> | E].
  { eexists [_; _; _; _], _, _. split; [reflexivity|].
    cbn [trace fs log call fmap list_fmap app].
    rewrite T1, F1, <- !app_assoc. split; reflexivity. }
  exfalso.
  apply start_step in E as (network & w6 & E).
  apply start_step in E as (auth & w7 & E).
  apply start_step in E as (website & w8 & E).
  discriminate E.
Qed.

(** X17. A set-up command that fails ends the start-up on the spot.  When
    [startup] ends with the error of a failed command, the commands before
    it have run, in order and with success, the failed command is the
    last thing that happened, no service has been started, and no marker
    file has been written or changed. *)
Theorem startup_command_failure args w :
  fst (startup args w) = Raise CalledProcessError ->
  exists done cmd rest,
    convex_commands (convex_settings w) = done ++ cmd :: rest /\
    trace (snd (startup args w))
    = trace w ++ settings_copy w ++ ((fun c => EvRun c true) <$> done)
        ++ [EvRun cmd false] /\
    (forall p, is_marker p -> fs (snd (startup args w)) !! p = fs w !! p).
Proof.
  intros Hr. destruct (startup args w) as [r w'] eqn:E. cbn [fst snd] in *.
  subst r. unfold settings_copy.
  destruct (startup_settled args w)
    as [(txt & Hw) | [(Hw & Hfb) | (txt & v & Hw & Hfb & Heq & Hv & He & Ht & Hf)]].
  - rewrite Hw.
    destruct (startup_found_failure args w txt w' Hw E) as (done & cmd & rest & H1 & H2 & H3).
    exists done, cmd, rest. rewrite H3. auto.
  - exfalso. revert E. unfold startup. unfold bind at 1.
    rewrite (ensure_missing w Hw Hfb). discriminate.
  - rewrite Hw, Hfb. rewrite Heq in E.
    destruct (settings_after_copy args w v txt Hw Hfb Hv Hf) as (_ & S2 & _).
    destruct (startup_found_failure args v txt w' Hv E) as (done & cmd & rest & H1 & H2 & H3).
    exists done, cmd, rest. rewrite <- S2. split; [exact H1|]. split.
    + rewrite H2, Ht, <- app_assoc. reflexivity.
    + intros p Hp. rewrite H3. apply Hf. intros ->.
      exact (website_env_not_marker Hp).
Qed.

End Halting.

Lemma startup_command_failure_witness :
  fst (startup Sample.default_args
         (Sample.boot Scenario.docker_down Sample.config_files))
  = Raise CalledProcessError /\
  exists done cmd rest,
    convex_commands
      (convex_settings (Sample.boot Scenario.docker_down Sample.config_files))
    = done ++ cmd :: rest /\
    trace (snd (startup Sample.default_args
                  (Sample.boot Scenario.docker_down Sample.config_files)))
    = trace (Sample.boot Scenario.docker_down Sample.config_files)
      ++ settings_copy (Sample.boot Scenario.docker_down Sample.config_files)
      ++ ((fun c => EvRun c true) <$> done) ++ [EvRun cmd false].
Proof.
  assert (H : fst (startup Sample.default_args
                     (Sample.boot Scenario.docker_down Sample.config_files))
              = Raise CalledProcessError) by (vm_compute; reflexivity).
  split; [exact H|].
  destruct (startup_command_failure Sample.default_args
              (Sample.boot Scenario.docker_down Sample.config_files) H)
    as (done & cmd & rest & H1 & H2 & _).
  exists done, cmd, rest. auto.
Defined.

(** ** The whole run, when all goes well *)

Section GoodRun.

Lemma node0_not_marker dir : ~ is_marker (dir +:+ "/node0.yaml").
Proof.
  intros Hm. apply is_marker_cases in Hm.
  assert (Hlen : forall s, dir +:+ "/node0.yaml" = s ->
                 (String.length dir + 11 = String.length s)%nat).
  { intros s <-. rewrite length_append. reflexivity. }
  destruct Hm as [Hm | [Hm | Hm]]; pose proof (Hlen _ Hm) as Hl; cbn in Hl;
    try lia.
  all: destruct dir; [discriminate Hm | cbn in Hl; lia].
Qed.

Lemma settings_after_cleanup args w w' :
  (forall p, fs w' !! p = fs w !! p \/ (is_marker p /\ fs w' !! p = None)) ->
  website_settings w' = website_settings w /\
  convex_settings w' = convex_settings w /\
  settings_copy w' = settings_copy w /\
  fs w' !! (config_dir args +:+ "/node0.yaml")
  = fs w !! (config_dir args +:+ "/node0.yaml").
Proof.
  intros Hdel.
  assert (Hkeep : forall p, ~ is_marker p -> fs w' !! p = fs w !! p).
  { intros p Hp. destruct (Hdel p) as [E|[Hm _]]; [exact E | contradiction]. }
  assert (H1 : ~ is_marker "website/.env.local").
  { rewrite is_marker_cases. intros [H|[H|H]]; discriminate H. }
  assert (H2 : ~ is_marker "configs/local/.env.local").
  { rewrite is_marker_cases. intros [H|[H|H]]; discriminate H. }
  assert (H3 : ~ is_marker "docker/convex/.env").
  { rewrite is_marker_cases. intros [H|[H|H]]; discriminate H. }
  unfold website_settings, convex_settings, settings_copy.
  rewrite (Hkeep _ H1), (Hkeep _ H2), (Hkeep _ H3),
    (Hkeep _ (node0_not_marker (config_dir args))).
  auto.
Qed.

(** X18. The whole run, when all goes well.  On a cooperative system,
    with a complete configuration, commands that succeed and processes
    that can be spawned, [main] gets from any leftover of an earlier run
    to the serving state: it first sweeps, and then starts the stack; the
    markers it leaves are those of the three services it has just
    started, whatever the markers held before, and the script keeps
    running. *)
Theorem main_serves args w :
  cooperative (env w) ->
  config_complete args w ->
  (forall i cmd, run_ans (env w) i cmd = true) ->
  (forall i cmd, popen_ans (env w) i cmd <> SpawnFailed) ->
  exists network auth website sweep,
    fst (main args w)
    = Ret (Serving [{| pid := network |}; {| pid := auth |};
                    {| pid := website |}]) /\
    exit_status (fst (main args w)) = None /\
    trace (snd (main args w))
    = trace w ++ sweep ++ settings_copy w
      ++ launch_events args (convex_settings w) network auth website /\
    Forall sweep_event sweep /\
    fs (snd (main args w)) !! "network.pid" = Some (py_str network) /\
    fs (snd (main args w)) !! "auth.pid" = Some (py_str auth) /\
    fs (snd (main args w)) !! "website.pid" = Some (py_str website).
Proof.
  intros Hco Hc Hrun Hspawn. unfold main, bind.
  destruct (sure_cleanup w Hco) as ([] & Hr).
  destruct (tame_cleanup w) as [(sweep & Ht & Hsw) Hf].
  pose proof (keeps_env_cleanup w) as He.
  destruct (cleanup w) as [r w1]; cbn [fst snd] in *. subst r.
  destruct (settings_after_cleanup args w w1 Hf) as (S1 & S2 & S3 & S4).
  destruct (startup_launches args w1) as (n & a & s & w' & -> & Htr & Hm).
  - unfold config_complete. rewrite S1, S2, S4. exact Hc.
  - rewrite He. exact Hrun.
  - rewrite He. exact Hspawn.
  - exists n, a, s, sweep. cbn [fst snd exit_status].
    split; [reflexivity|]. split; [reflexivity|].
    split; [rewrite Htr, Ht, S2, S3, <- app_assoc; reflexivity|].
    split; [exact Hsw | exact Hm].
Qed.

End GoodRun.

Lemma cleanup_clears_registry_witness :
  fst (cleanup (Sample.boot Sample.stubborn
                  [("auth.pid", "4024"); ("notes.txt", "keep")])) = Ret tt /\
  (forall p, is_marker p ->
     fs (snd (cleanup (Sample.boot Sample.stubborn
                         [("auth.pid", "4024"); ("notes.txt", "keep")]))) !! p
     = None).
Proof.
  assert (H : fst (cleanup (Sample.boot Sample.stubborn
                              [("auth.pid", "4024"); ("notes.txt", "keep")]))
              = Ret tt) by (vm_compute; reflexivity).
  split; [exact H|].
  exact (proj1 (cleanup_clears_registry _ H)).
Defined.

Lemma cleanup_succeeds_witness :
  cooperative (env (Sample.boot Sample.calm [("network.pid", "77")])) /\
  fst (cleanup (Sample.boot Sample.calm [("network.pid", "77")])) = Ret tt.
Proof.
  assert (H : cooperative (env (Sample.boot Sample.calm [("network.pid", "77")]))).
  { split.
    - intros i p sig. right. reflexivity.
    - intros i pattern token []. }
  split; [exact H|].
  exact (proj1 (cleanup_succeeds _ H)).
Defined.

Lemma startup_serves_witness :
  config_complete Sample.default_args
    (Sample.boot Sample.calm Sample.config_files) /\
  (forall i cmd,
     run_ans (env (Sample.boot Sample.calm Sample.config_files)) i cmd = true) /\
  (forall i cmd,
     popen_ans (env (Sample.boot Sample.calm Sample.config_files)) i cmd
     <> SpawnFailed) /\
  exists network auth website,
    fst (startup Sample.default_args
           (Sample.boot Sample.calm Sample.config_files))
    = Ret (Serving [{| pid := network |}; {| pid := auth |};
                    {| pid := website |}]).
Proof.
  assert (H1 : config_complete Sample.default_args
                 (Sample.boot Sample.calm Sample.config_files)).
  { repeat split; try (vm_compute; reflexivity). eexists. vm_compute. reflexivity. }
  assert (H2 : forall i cmd,
     run_ans (env (Sample.boot Sample.calm Sample.config_files)) i cmd = true).
  { intros i cmd. reflexivity. }
  assert (H3 : forall i cmd,
     popen_ans (env (Sample.boot Sample.calm Sample.config_files)) i cmd
     <> SpawnFailed).
  { intros i cmd. discriminate. }
  split; [exact H1|]. split; [exact H2|]. split; [exact H3|].
  destruct (startup_serves Sample.default_args
              (Sample.boot Sample.calm Sample.config_files) H1 H2 H3)
    as (n & a & s & H & _).
  exists n, a, s. exact H.
Defined.

Lemma main_serves_witness :
  cooperative (env (Sample.boot Sample.calm Sample.config_files)) /\
  config_complete Sample.default_args
    (Sample.boot Sample.calm Sample.config_files) /\
  exists network auth website,
    fst (main Sample.default_args (Sample.boot Sample.calm Sample.config_files))
    = Ret (Serving [{| pid := network |}; {| pid := auth |};
                    {| pid := website |}]).
Proof.
  assert (H0 : cooperative (env (Sample.boot Sample.calm Sample.config_files))).
  { split.
    - intros i p sig. right. reflexivity.
    - intros i pattern token []. }
  assert (H1 : config_complete Sample.default_args
                 (Sample.boot Sample.calm Sample.config_files)).
  { repeat split; try (vm_compute; reflexivity). eexists. vm_compute. reflexivity. }
  split; [exact H0|]. split; [exact H1|].
  destruct (main_serves Sample.default_args
              (Sample.boot Sample.calm Sample.config_files) H0 H1
              (fun i cmd => eq_refl))
    as (n & a & s & sweep & H & _).
  { intros i cmd. discriminate. }
  exists n, a, s. exact H.
Defined.

(** ** ShutdownCoordinator: reach of the handler *)

Section Handler.

Lemma raises_only_ret {A} P (a : A) : raises_only P (ret a).
Proof. intros w e H. discriminate H. Qed.

Lemma raises_only_bind {A B} P (m : M A) (k : A -> M B) :
  raises_only P m -> (forall a, raises_only P (k a)) -> raises_only P (bind m k).
Proof.
  intros Hm Hk w e. unfold bind. specialize (Hm w).
  destruct (m w) as [[a|e1] w1]; cbn [fst] in *.
  - apply Hk.
  - intros H. inversion H. subst. apply Hm. reflexivity.
Qed.

Lemma raises_only_for_each {A} P (xs : list A) body :
  (forall x, raises_only P (body x)) -> raises_only P (for_each xs body).
Proof.
  intros Hb. induction xs as [|x xs IH]; cbn [for_each].
  - apply raises_only_ret.
  - apply raises_only_bind; [apply Hb | intros _; exact IH].
Qed.

Variable ps : list Popen.

Lemma emits_internal_poll p :
  In p ps -> emits (coordinator_event ps) (internal_poll p).
Proof.
  intros Hp w. rewrite internal_poll_spec.
  destruct (returncode w !! pid p).
  { exists []. rewrite app_nil_r. split; [reflexivity | constructor]. }
  cbn zeta. exists [EvWaitpid (pid p) (waitpid_ans (env w) (tick w) (pid p))].
  split; [destruct (waitpid_ans _ _ _); reflexivity|].
  repeat constructor. exists p. auto.
Qed.

Lemma emits_send_signal p sig :
  In p ps -> sig <> SIG0 -> emits (coordinator_event ps) (send_signal p sig).
Proof.
  intros Hp Hsig. unfold send_signal.
  apply emits_bind; [apply emits_internal_poll, Hp|]. intros [c|]; [apply emits_ret|].
  apply emits_try.
  - apply emits_os_kill. intros a. split; [exists p; auto | exact Hsig].
  - clauses ltac:(apply emits_ret).
Qed.

Lemma emits_log (e : event) :
  coordinator_event ps e ->
  emits (coordinator_event ps) (fun w => (Ret tt, log e w)).
Proof.
  intros He. apply emits_one. intros w. exists e. split; [exact He | reflexivity].
Qed.

Lemma emits_terminate p : In p ps -> emits (coordinator_event ps) (terminate p).
Proof.
  intros Hp. unfold terminate. apply emits_bind.
  - apply emits_log. exists p. auto.
  - intros _. apply emits_send_signal; [exact Hp | discriminate].
Qed.

Lemma emits_second_loop p : In p ps -> emits (coordinator_event ps) (second_loop p).
Proof.
  intros Hp. unfold second_loop, poll, kill.
  apply emits_bind.
  - apply emits_bind; [apply emits_internal_poll, Hp|]. intros rc.
    apply emits_bind; [|intros; apply emits_ret].
    apply emits_log. exists p. auto.
  - intros [c|]; [apply emits_ret|].
    apply emits_bind.
    + apply emits_log. exists p. auto.
    + intros _. apply emits_send_signal; [exact Hp | discriminate].
Qed.

End Handler.

(** What neither a call, a trace entry nor a recorded return code
    changes is kept by everything the handler does after setting the
    flag. *)
Section AfterFlag.

Context {X : Type} (f : World -> X).
Hypothesis f_log : forall e w, f (log e w) = f w.
Hypothesis f_call : forall ms w, f (call ms w) = f w.
Hypothesis f_rc : forall r w, f (with_returncode r w) = f w.

Lemma keeps_internal_poll p : keeps f (internal_poll p).
Proof.
  intros w. rewrite internal_poll_spec. destruct (returncode w !! pid p); [reflexivity|].
  cbn zeta. destruct (waitpid_ans _ _ _); cbn [snd];
    rewrite ?f_rc, f_log, f_call; reflexivity.
Qed.

Lemma keeps_send_signal p sig : keeps f (send_signal p sig).
Proof.
  unfold send_signal. apply keeps_bind; [apply keeps_internal_poll|].
  intros [c|]; [apply keeps_ret|].
  apply keeps_try; [apply keeps_os_kill; assumption|].
  clauses ltac:(apply keeps_ret).
Qed.

Lemma keeps_terminate p : keeps f (terminate p).
Proof.
  unfold terminate. apply keeps_bind; [intros w; apply f_log|].
  intros _. apply keeps_send_signal.
Qed.

Lemma keeps_second_loop p : keeps f (second_loop p).
Proof.
  unfold second_loop, poll, kill. apply keeps_bind.
  - apply keeps_bind; [apply keeps_internal_poll|]. intros rc.
    apply keeps_bind; [intros w; apply f_log | intros; apply keeps_ret].
  - intros [c|]; [apply keeps_ret|].
    apply keeps_bind; [intros w; apply f_log | intros _; apply keeps_send_signal].
Qed.

Lemma keeps_after_flag ps :
  keeps f (do _ <- for_each ps terminate ;;
           do _ <- Sys.time_sleep 1000 ;;
           for_each ps second_loop).
Proof.
  apply keeps_bind; [apply keeps_for_each; intros; apply keeps_terminate|].
  intros _. apply keeps_bind; [apply keeps_time_sleep; assumption|].
  intros _. apply keeps_for_each. intros; apply keeps_second_loop.
Qed.

End AfterFlag.

Section HandlerWhole.

Lemma raises_only_send_signal p sig : raises_only signal_error (send_signal p sig).
Proof.
  unfold send_signal. apply raises_only_bind.
  { intros w e. rewrite internal_poll_spec. destruct (returncode w !! pid p);
      [discriminate|]. cbn zeta. destruct (waitpid_ans _ _ _); discriminate. }
  intros [c|]; [apply raises_only_ret|].
  intros w e. unfold try_except, Sys.os_kill. cbn zeta.
  destruct (kill_ans _ _ _ _); cbn [fst]; intros H; inversion H;
    unfold signal_error; auto.
Qed.

Lemma raises_only_handle_signal ps : raises_only signal_error (handle_signal ps).
Proof.
  unfold handle_signal.
  apply raises_only_bind; [intros w e; discriminate|]. intros _.
  apply raises_only_bind.
  { apply raises_only_for_each. intros p. unfold terminate.
    apply raises_only_bind; [intros w e; discriminate|].
    intros _. apply raises_only_send_signal. }
  intros _. apply raises_only_bind; [intros w e; discriminate|]. intros _.
  apply raises_only_for_each. intros p. unfold second_loop, poll, kill.
  apply raises_only_bind.
  { apply raises_only_bind.
    - intros w e. rewrite internal_poll_spec. destruct (returncode w !! pid p);
        [discriminate|]. cbn zeta. destruct (waitpid_ans _ _ _); discriminate.
    - intros rc. apply raises_only_bind; [intros w e; discriminate|].
      intros _. apply raises_only_ret. }
  intros [c|]; [apply raises_only_ret|].
  apply raises_only_bind; [intros w e; discriminate|].
  intros _. apply raises_only_send_signal.
Qed.

(** X19. The handler reaches nothing but the processes it was given, and
    sets the flag whatever happens.  After [handle_signal], whether it
    returned or was cut short by an error, the stop flag is set; every
    poll and every signal concerned a process of the list, and every
    signal was a graceful stop or a forced kill, never a probe; no file
    was touched; and the only errors it can end with are those of a
    refused signal. *)
Theorem handle_signal_footprint ps w :
  stop_event (snd (handle_signal ps w)) = true /\
  fs (snd (handle_signal ps w)) = fs w /\
  (exists d, trace (snd (handle_signal ps w)) = trace w ++ d /\
             Forall (coordinator_event ps) d) /\
  match fst (handle_signal ps w) with
  | Ret _ => True
  | Raise e => e = PermissionError \/ e = OtherOSError
  end.
Proof.
  split; [|split; [|split]].
  - unfold handle_signal. unfold bind at 1. unfold stop_event_set at 1.
    rewrite (keeps_after_flag stop_event) by reflexivity. reflexivity.
  - unfold handle_signal. unfold bind at 1. unfold stop_event_set at 1.
    rewrite (keeps_after_flag fs) by reflexivity. reflexivity.
  - unfold handle_signal.
    apply emits_bind; [apply emits_log; exact I|]. intros _.
    apply emits_bind; [apply emits_for_each; intros; apply emits_terminate; assumption|].
    intros _. apply emits_bind; [apply emits_time_sleep; reflexivity|].
    intros _. apply emits_for_each. intros; apply emits_second_loop; assumption.
  - pose proof (raises_only_handle_signal ps w) as H.
    destruct (fst (handle_signal ps w)) as [|e]; [exact I|].
    apply H. reflexivity.
Qed.

End HandlerWhole.

(** ** LogTailer: whole lines, and a flag set from the start *)

Section Lines.

Variable prefix : string.

Lemma skip_all s : skip (String.length s) s = "".
Proof. induction s as [|c s IH]; [reflexivity | exact IH]. Qed.

Lemma skip_add a : forall b s, skip (a + b) s = skip b (skip a s).
Proof.
  induction a as [|a IH]; intros b s; [reflexivity|].
  destruct s as [|c s]; cbn [Nat.add skip]; [destruct b; reflexivity | apply IH].
Qed.

Lemma skip_app_le n : forall a b,
  (n <= String.length a)%nat -> skip n (a +:+ b) = skip n a +:+ b.
Proof.
  induction n as [|n IH]; intros a b Hn; [reflexivity|].
  destruct a as [|c a]; cbn [String.length] in Hn; [lia|].
  rewrite app_cons_str. cbn [skip]. apply IH. lia.
Qed.

Lemma ends_with_lf_cons c s :
  s <> "" -> ends_with_lf (String c s) = ends_with_lf s.
Proof. destruct s; [congruence | reflexivity]. Qed.

Lemma ends_with_lf_not_empty s : ends_with_lf s = true -> s <> "".
Proof. destruct s; [discriminate | discriminate]. Qed.

Lemma ends_with_lf_app r s :
  ends_with_lf s = true -> ends_with_lf (r +:+ s) = true.
Proof.
  intros Hs. induction r as [|c r IH]; [exact Hs|].
  rewrite app_cons_str, ends_with_lf_cons; [exact IH|].
  destruct r; [rewrite app_nil_l_str; apply ends_with_lf_not_empty, Hs | discriminate].
Qed.

Lemma lf_tail_app r s :
  lf_tail r -> s = "" \/ ends_with_lf s = true -> lf_tail (r +:+ s).
Proof.
  intros Hr [-> | Hs].
  - rewrite app_nil_r_str. exact Hr.
  - right. apply ends_with_lf_app, Hs.
Qed.

Lemma lf_tail_rest c r : ends_with_lf (String c r) = true -> lf_tail r.
Proof.
  intros H. destruct r as [|c' r]; [left; reflexivity | right; exact H].
Qed.

Lemma read_line_whole r :
  ends_with_lf r = true ->
  ends_with_lf (read_line r) = true /\
  lf_tail (skip (line_span r) r).
Proof.
  induction r as [|c r IH]; [discriminate|]. intros Hr.
  cbn [read_line line_span]. destruct (Ascii.eqb c LF) eqn:Hc.
  { cbn [orb skip]. split; [reflexivity|]. exact (lf_tail_rest _ _ Hr). }
  cbn [orb].
  destruct r as [|c' r]; [cbn [ends_with_lf] in Hr; congruence|].
  assert (Hr' : ends_with_lf (String c' r) = true) by exact Hr.
  destruct (Ascii.eqb c CR).
  - split; [reflexivity|]. destruct (Ascii.eqb c' LF).
    + cbn [skip]. exact (lf_tail_rest _ _ Hr').
    + cbn [skip]. right. exact Hr'.
  - destruct (IH Hr') as (H1 & H2). cbn [skip]. split; [|exact H2].
    rewrite ends_with_lf_cons; [exact H1 | apply ends_with_lf_not_empty, H1].
Qed.

Lemma line_span_length r : (line_span r <= String.length r)%nat.
Proof.
  induction r as [|c r IH]; [reflexivity|]. cbn [line_span String.length].
  destruct (Ascii.eqb c LF); [lia|]. destruct (Ascii.eqb c CR); [|lia].
  destruct r as [|c' r]; [lia|]. destruct (Ascii.eqb c' LF); cbn [String.length]; lia.
Qed.

Lemma length_skip n : forall s, String.length (skip n s) = (String.length s - n)%nat.
Proof.
  induction n as [|n IH]; intros s; cbn [skip]; [lia|].
  destruct s as [|c s]; cbn [String.length]; [reflexivity | apply IH].
Qed.

Lemma whole_step c :
  consistent prefix c -> reads_whole_lines prefix c ->
  reads_whole_lines prefix (step prefix c).
Proof.
  unfold consistent, reads_whole_lines, step. intros Hc Hw.
  destruct (attached c) as [a|] eqn:Ha.
  - destruct Hc as [_ Hpc].
    destruct Hw as (txt & Hf & Hpos & Htail & Hgood & Hline).
    destruct (at_pc c) eqn:Hpcc; try contradiction;
      cbn [attached file pos stdout at_pc goto nap]; rewrite ?Ha.
    + destruct (stop c); cbn [attached file pos stdout at_pc goto]; rewrite Ha;
        exists txt; auto.
    + rewrite Hf. cbn [default from_option id].
      destruct (read_line (skip (pos c) txt)) as [|ch l] eqn:Hread;
        cbn [attached file pos stdout at_pc goto]; rewrite ?Ha.
      * exists txt. rewrite ?Hf. auto.
      * assert (Hne : skip (pos c) txt <> "").
        { intros E. rewrite E in Hread. discriminate. }
        destruct Htail as [E | Htail]; [contradiction|].
        destruct (read_line_whole _ Htail) as (H1 & H2).
        pose proof (line_span_length (skip (pos c) txt)) as Hlen.
        rewrite length_skip in Hlen. rewrite Hread in H1.
        exists txt. split; [reflexivity|]. split; [lia|].
        split; [rewrite skip_add; exact H2|]. split; [exact Hgood | exact H1].
    + exists txt. split; [exact Hf|]. split; [exact Hpos|]. split; [exact Htail|].
      split; [|exact I]. apply Forall_app. split; [exact Hgood|].
      constructor; [|constructor]. exists line. auto.
    + exists txt. auto.
    + exists txt. rewrite Hpcc. auto.
  - destruct Hc as [Hout Hpc].
    destruct (at_pc c) eqn:Hpcc; try contradiction;
      cbn [attached file pos stdout at_pc goto nap]; rewrite ?Ha; try exact I.
    + destruct (file c); cbn [attached goto]; rewrite Ha; exact I.
    + destruct (stop c); cbn [attached goto]; rewrite Ha; exact I.
    + destruct (stop c); cbn [attached goto]; rewrite Ha; exact I.
    + destruct (file c) as [txt|] eqn:Hf; cbn [attached file pos stdout at_pc goto];
        [|rewrite Ha; exact I].
      exists txt. split; [reflexivity|]. split; [lia|].
      split; [left; apply skip_all|]. rewrite Hout. split; [constructor | exact I].
Qed.

Lemma whole_apply c m :
  whole_lines m = true ->
  consistent prefix c -> reads_whole_lines prefix c ->
  reads_whole_lines prefix (apply prefix c m).
Proof.
  intros Hm Hc Hw. destruct m as [| |s|]; cbn [apply].
  - apply whole_step; assumption.
  - destruct (file c) as [txt|] eqn:Hf; [exact Hw|].
    unfold reads_whole_lines in *.
    cbn [attached set_file]. destruct (attached c); [|exact I].
    destruct Hw as (txt & Hf' & _). congruence.
  - unfold reads_whole_lines in *. cbn [attached file pos stdout at_pc set_file].
    destruct (attached c); [|exact I].
    destruct Hw as (txt & Hf & Hpos & Htail & Hgood & Hline).
    rewrite Hf. cbn [default from_option id].
    exists (txt +:+ s). split; [reflexivity|].
    split; [rewrite length_app_str; lia|].
    split; [|auto]. rewrite skip_app_le by exact Hpos.
    apply lf_tail_app; [exact Htail|].
    destruct s; [left; reflexivity | right; exact Hm].
  - unfold reads_whole_lines in *. cbn [attached file pos stdout at_pc]. exact Hw.
Qed.

Lemma whole_run ms : forall c,
  forallb whole_lines ms = true ->
  consistent prefix c -> reads_whole_lines prefix c ->
  reads_whole_lines prefix (run prefix ms c).
Proof.
  induction ms as [|m ms IH]; intros c Hms Hc Hw; [exact Hw|].
  cbn [forallb] in Hms. apply andb_prop in Hms as [Hm Hms].
  unfold run. cbn [foldl]. apply IH; [exact Hms | |].
  - apply consistent_apply, Hc.
  - apply whole_apply; assumption.
Qed.

(** X20. A writer that writes whole lines is tailed line by line.  When
    every piece that is appended to the log ends with a line feed,
    however many lines it holds, then every write of the tailer, at any
    moment of any run, is exactly one line: the prefix, the text of the
    line, and its line feed, whatever was in the file before the tailer
    attached. *)
Theorem tail_file_whole_lines f s ms :
  forallb whole_lines ms = true ->
  Forall (line_write prefix) (stdout (run prefix ms (start f s))).
Proof.
  intros Hms.
  pose proof (consistent_run prefix ms (start f s) (consistent_start prefix f s)) as Hc.
  pose proof (whole_run ms (start f s) Hms (consistent_start prefix f s) I) as Hw.
  unfold consistent in Hc. unfold reads_whole_lines in Hw.
  destruct (attached (run prefix ms (start f s))).
  - destruct Hw as (txt & _ & _ & _ & Hgood & _). exact Hgood.
  - destruct Hc as [-> _]. constructor.
Qed.

(** With the flag set, a tailer that has not attached stays that way. *)
Lemma stopped_start_run ms : forall c,
  stop c = true /\ stdout c = [] /\ attached c = None /\ naps c = 0%nat /\
  (at_pc c = AtExists \/ at_pc c = AtWaitStop \/ at_pc c = AtStopCheck \/
   at_pc c = Returned) ->
  let c' := run prefix ms c in
  stop c' = true /\ stdout c' = [] /\ attached c' = None /\ naps c' = 0%nat /\
  (at_pc c' = AtExists \/ at_pc c' = AtWaitStop \/ at_pc c' = AtStopCheck \/
   at_pc c' = Returned).
Proof.
  induction ms as [|m ms IH]; intros c Hc; [exact Hc|].
  unfold run. cbn [foldl]. apply IH.
  destruct Hc as (H1 & H2 & H3 & H4 & H5).
  destruct m as [| |s|]; cbn [apply].
  - unfold step.
    destruct H5 as [E | [E | [E | E]]]; rewrite E;
      [destruct (file c) | rewrite H1 | rewrite H1 |];
      cbn [stop stdout attached naps at_pc goto]; auto 10.
  - destruct (file c); cbn [stop stdout attached naps at_pc set_file]; auto 10.
  - cbn [stop stdout attached naps at_pc set_file]. auto 10.
  - cbn [stop stdout attached naps at_pc]. auto 10.
Qed.

(** X21. A tailer that starts with the stop flag already set never opens
    the log: whatever happens around it, it writes nothing, does not
    sleep, does not fail, and has returned after at most three of its own
    statements. *)
Theorem tail_file_stopped_at_start f ms :
  let c := run prefix ms (start f true) in
  stdout c = [] /\ attached c = None /\ naps c = 0%nat /\
  at_pc c <> Failed /\
  ((count_ticks ms < 3)%nat \/ at_pc c = Returned).
Proof.
  cbn zeta.
  destruct (stopped_start_run ms (start f true)) as (H1 & H2 & H3 & H4 & H5).
  { cbn. auto 10. }
  destruct (run_after_stop prefix ms (start f true) eq_refl) as (_ & Hleft & _).
  cbn [at_pc start steps_left] in Hleft.
  split; [exact H2|]. split; [exact H3|]. split; [exact H4|]. split.
  - destruct H5 as [E | [E | [E | E]]]; rewrite E; discriminate.
  - destruct (Nat.lt_ge_cases (count_ticks ms) 3) as [Hlt | Hge]; [left; exact Hlt|].
    right. destruct H5 as [E | [E | [E | E]]]; rewrite E in *; cbn in Hleft;
      try lia; reflexivity.
Qed.

End Lines.

Lemma tail_file_whole_lines_witness :
  forallb whole_lines Scenario.line_writer = true /\
  Forall (line_write "auth")
    (stdout (run "auth" Scenario.line_writer (start None false))) /\
  length (stdout (run "auth" Scenario.line_writer (start None false))) = 3%nat.
Proof.
  split; [reflexivity|]. split; [|vm_compute; reflexivity].
  exact (tail_file_whole_lines "auth" None false Scenario.line_writer eq_refl).
Defined.

(** ** The main thread: serving until signalled *)

Import Serve.

Section Serving.

Variable ps : list Popen.

Lemma handle_signal_sets_flag w : stop_event (snd (handle_signal ps w)) = true.
Proof.
  unfold handle_signal. unfold bind at 1. unfold stop_event_set at 1.
  rewrite (keeps_after_flag stop_event) by reflexivity. reflexivity.
Qed.

Lemma handle_signal_returns w :
  signals_accepted (env w) ->
  exists w', handle_signal ps w = (Ret tt, w') /\ env w' = env w.
Proof.
  intros Hacc. unfold handle_signal. unfold bind at 1. unfold stop_event_set at 1.
  unfold bind at 1.
  destruct (terminate_all_requests ps (log EvSetStop (with_stop true w)) Hacc)
    as (w1 & -> & _ & He1 & _).
  unfold bind at 1. unfold Sys.time_sleep at 1.
  destruct (second_loop_requests ps (log (EvSleep 1000) (call 1000 w1)))
    as (rcs & w2 & -> & _ & _ & He2 & _).
  { cbn [env log call]. rewrite He1. exact Hacc. }
  exists w2. split; [reflexivity|]. rewrite He2. cbn [env log call]. exact He1.
Qed.

Lemma flagged_apply c m signalled :
  flagged signalled c -> flagged (signalled || is_signal m) (react ps c m).
Proof.
  unfold flagged. intros Hc. destruct m; cbn [react is_signal].
  - rewrite orb_false_r. unfold advance.
    destruct (place_now c) eqn:Hpc; cbn [place_now world]; rewrite ?Hpc; auto.
    + destruct (stop_event (world c)) eqn:Hs; auto.
    + destruct Hc as (_ & Hsig). cbn [snd stop_event_set stop_event log with_stop]. auto.
  - rewrite orb_true_r. unfold deliver.
    pose proof (handle_signal_sets_flag (world c)) as Hflag.
    pose proof (raises_only_handle_signal ps (world c)) as Herr.
    destruct (place_now c) eqn:Hpc;
      try (destruct (handle_signal ps (world c)) as [[[]|e] w'] eqn:Hh;
           cbn [fst snd] in *; cbn [place_now world in_try]; rewrite ?Hpc;
           cbn [snd stop_event_set stop_event log with_stop];
           repeat split; auto; apply Herr; reflexivity).
    + rewrite Hpc. destruct Hc as (H1 & H2 & _). auto.
    + rewrite Hpc. destruct Hc as (H1 & H2 & _). auto.
Qed.

Lemma flagged_run ms : forall c signalled,
  flagged signalled c ->
  flagged (signalled || existsb is_signal ms) (play ps ms c).
Proof.
  induction ms as [|m ms IH]; intros c signalled Hc.
  - cbn [existsb]. rewrite orb_false_r. exact Hc.
  - unfold play. cbn [foldl existsb]. rewrite orb_assoc.
    apply IH, flagged_apply, Hc.
Qed.

(** X22. Left alone, the script serves for ever.  As long as no
    termination signal arrives, the main thread never leaves its loop,
    however many statements it executes: it has not ended, the stop flag
    is still clear, and all it has done is sleep half a second at a
    time. *)
Theorem serve_until_signalled w n :
  let c := play ps (repeat Statement n) (init w) in
  ended c = false /\
  stop_event (world c) = false /\
  fs (world c) = fs w /\
  exists k, trace (world c) = trace w ++ repeat (EvSleep 500) k.
Proof.
  cbn zeta.
  assert (Hinv : forall n c,
    stop_event (world c) = false ->
    place_now c = InBanner \/ place_now c = InCheck \/ place_now c = InSleep ->
    let c' := play ps (repeat Statement n) c in
    stop_event (world c') = false /\
    (place_now c' = InBanner \/ place_now c' = InCheck \/ place_now c' = InSleep) /\
    fs (world c') = fs (world c) /\
    exists k, trace (world c') = trace (world c) ++ repeat (EvSleep 500) k).
  { clear n. induction n as [|n IH]; intros c Hs Hpc.
    - cbn. repeat split; auto. exists 0%nat. cbn. rewrite app_nil_r. reflexivity.
    - cbn [repeat]. unfold play. cbn [foldl react]. fold (play ps (repeat Statement n) (advance c)).
      assert (Hone : stop_event (world (advance c)) = false /\
        (place_now (advance c) = InBanner \/ place_now (advance c) = InCheck \/
         place_now (advance c) = InSleep) /\
        fs (world (advance c)) = fs (world c) /\
        exists j, trace (world (advance c))
                  = trace (world c) ++ repeat (EvSleep 500) j).
      { unfold advance. destruct Hpc as [-> | [-> | ->]]; cbn [world place_now];
          rewrite ?Hs; (split; [auto|]); (split; [auto|]);
          (split; [reflexivity|]).
        - exists 0%nat. cbn. rewrite app_nil_r. reflexivity.
        - exists 0%nat. cbn. rewrite app_nil_r. reflexivity.
        - exists 1%nat. reflexivity. }
      destruct Hone as (S1 & S2 & S3 & j & S4).
      destruct (IH (advance c) S1 S2) as (H1 & H2 & H3 & k & H4).
      cbn zeta. split; [exact H1|]. split; [exact H2|].
      split; [rewrite H3; exact S3|]. exists (j + k)%nat.
      rewrite H4, S4, repeat_app, <- app_assoc. reflexivity. }
  destruct (Hinv n (init w) eq_refl (or_introl eq_refl)) as (H1 & H2 & H3 & H4).
  split; [|split; [exact H1 | split; [exact H3 | exact H4]]].
  unfold ended. destruct H2 as [-> | [-> | ->]]; reflexivity.
Qed.

(** X23. The script ends only on a signal, and always with the flag set.
    In every run, with signals arriving at any moments: when the main
    thread has returned, it has returned 0; when it was ended by an
    exception, this is the error of a signal that the system refused to
    deliver, raised by the handler; in both cases a termination signal
    has arrived and the stop flag is set, so that the tailers stop
    too. *)
Theorem serve_ends_flagged w ms :
  let c := play ps ms (init w) in
  match place_now c with
  | Done code =>
      code = 0 /\ stop_event (world c) = true /\ existsb is_signal ms = true
  | Crashed e =>
      (e = PermissionError \/ e = OtherOSError) /\
      stop_event (world c) = true /\ existsb is_signal ms = true
  | _ => True
  end.
Proof.
  cbn zeta.
  pose proof (flagged_run ms (init w) false) as H.
  cbn [orb] in H. unfold flagged in H.
  destruct (place_now (play ps ms (init w))); try exact I; apply H;
    cbn; discriminate.
Qed.

(** X24. One signal, on a system that accepts the signals of the script,
    ends the run in good order: whatever the main thread was doing, the
    handler returns, and four statements later at most the main thread
    has returned 0, after at most one more sleep of half a second. *)
Theorem serve_shutdown c ms :
  ended c = false ->
  signals_accepted (env (world c)) ->
  (4 <= length ms)%nat ->
  Forall (fun m => m = Statement) ms ->
  let c1 := deliver ps c in
  let c2 := play ps ms c1 in
  place_now c2 = Done 0 /\ exit_code c2 = Some 0 /\
  stop_event (world c2) = true /\
  (count_sleeps (trace (world c2)) <= count_sleeps (trace (world c1)) + 1)%nat.
Proof.
  intros Hh Hacc Hlen Hticks. cbn zeta.
  destruct (handle_signal_returns (world c) Hacc) as (w' & Hw' & _).
  pose proof (handle_signal_sets_flag (world c)) as Hflag.
  rewrite Hw' in Hflag. cbn [snd] in Hflag.
  assert (Hc1 : world (deliver ps c) = w' /\ place_now (deliver ps c) = place_now c).
  { unfold deliver. rewrite Hw'. unfold ended in Hh.
    destruct (place_now c); try discriminate; auto. }
  destruct Hc1 as (Hw1 & Hpc1). revert Hw1 Hpc1.
  generalize (deliver ps c). intros c1 Hw1 Hpc1. subst w'.
  assert (Hstep : forall c0, stop_event (world c0) = true ->
    stop_event (world (advance c0)) = true).
  { intros c0 H0. unfold advance. destruct (place_now c0); cbn [world]; auto. }
  destruct ms as [|m1 [|m2 [|m3 [|m4 ms]]]]; cbn [length] in Hlen; try lia.
  inversion Hticks as [|? ? -> Ht1]; subst.
  inversion Ht1 as [|? ? -> Ht2]; subst.
  inversion Ht2 as [|? ? -> Ht3]; subst.
  inversion Ht3 as [|? ? -> Ht4]; subst.
  unfold play. cbn [foldl react].
  assert (Hdone : forall c0 code, place_now c0 = Done code -> forall ms0,
            Forall (fun m => m = Statement) ms0 -> foldl (react ps) c0 ms0 = c0).
  { intros c0 code H0 ms0 Hms0. induction Hms0 as [|m ms0 -> _ IH]; [reflexivity|].
    cbn [foldl react].
    assert (Hsame : advance c0 = c0) by (unfold advance; rewrite H0; reflexivity).
    rewrite Hsame. exact IH. }
  assert (Hfour : exists c4,
    advance (advance (advance (advance c1))) = c4 /\ place_now c4 = Done 0 /\
    stop_event (world c4) = true /\
    (count_sleeps (trace (world c4)) <= count_sleeps (trace (world c1)) + 1)%nat).
  { eexists. split; [reflexivity|]. unfold ended in Hh. rewrite <- Hpc1 in Hh.
    unfold advance.
    destruct (place_now c1) eqn:Hpc; try discriminate;
      repeat (progress
                (cbn [place_now world snd Sys.time_sleep stop_event_set stop_event
                      log call with_stop trace];
                 rewrite ?Hflag));
      rewrite ?count_sleeps_app; cbn [count_sleeps]; repeat split; lia. }
  destruct Hfour as (c4 & -> & H1 & H2 & H3).
  rewrite (Hdone c4 0 H1 ms Ht4). unfold exit_code. rewrite H1. auto.
Qed.

End Serving.

Lemma serve_shutdown_witness :
  ended Scenario.serving = false /\
  signals_accepted (env (world Scenario.serving)) /\
  place_now (play [{| pid := 4001 |}] [Statement; Statement; Statement; Statement]
           (deliver [{| pid := 4001 |}] Scenario.serving)) = Done 0.
Proof.
  assert (H : signals_accepted (env (world Scenario.serving))).
  { intros i p sig. left. reflexivity. }
  split; [reflexivity|]. split; [exact H|].
  refine (proj1 (serve_shutdown [{| pid := 4001 |}] Scenario.serving
                   [Statement; Statement; Statement; Statement] eq_refl H _ _)).
  - cbn. lia.
  - repeat constructor.
Defined.
